(** * SmartOCR batch core: a shallow embedding of
    [services/batch_processor.py] and [services/ocr_engine.py].

    Layout:
    - [Py]: the fragment of Python the two files rely on (dynamically typed
      values decoded from JSON, exceptions, code-point aware string slicing);
    - [OsPath]: [os.path.basename], [splitext] and [join] (POSIX flavour);
    - [Cancel]: [threading.Event] and the time line of a cancellation token;
    - [Eff]: the state-and-exception monad the effectful code runs in, and
      the world outside a thread (the token, the configuration as
      [json.load] left it, the network, the file system);
    - [Ocr]: [PaddleOCRClient.ocr_file] and [_parse_result];
    - [Worker]: [BatchWorker.__init__], [stop] and display slots;
    - [Exporter]: [BatchWorker.save_results];
    - [Pipeline]: [BatchWorker.process_single_file];
    - [Run]: [BatchWorker.run];
    - [Coordinator]: [BatchProcessor];
    - [HtmlTables]: [HTMLTableParser] and [parse_html_tables];
    - [Config]: [app_config.ConfigManager];
    - [Window]: the task tables and batch controls of [ui/main_window.py]. *)

From Stdlib Require Import ZArith QArith String Ascii List Lia Bool.
From stdpp Require Import base option list strings gmap pretty.

Open Scope string_scope.
Open Scope list_scope.
Open Scope nat_scope.

(* ===================================================================== *)
(** * Python values, exceptions and strings *)
(* ===================================================================== *)
Module Py.

(** Exception classes that the code distinguishes in its [except] clauses,
    plus the interpreter errors that dynamically typed code can raise.  All
    of them derive from [Exception]. *)
Inductive exn_class : Type :=
| ImportError
| RequestsTimeout
| RequestsConnectionError
| TypeError
| AttributeError
| KeyError
| IndexError
| OSError
| ValueError
| OtherError.

(** An exception object: its class and [str(e)]. *)
Record exn : Type := Exn { exn_cls : exn_class; exn_msg : string }.

(** The outcome of evaluating an expression: a value, or a raised exception. *)
Inductive result (A : Type) : Type :=
| Ok (a : A)
| Raise (e : exn).
Arguments Ok {A} a.
Arguments Raise {A} e.

Definition rbind {A B} (r : result A) (f : A -> result B) : result B :=
  match r with
  | Ok a => f a
  | Raise e => Raise e
  end.

Definition is_ok {A} (r : result A) : bool :=
  match r with Ok _ => true | Raise _ => false end.

(** Values as [json.loads] produces them and as the code builds them:
    [dict] keys are always strings here.  A float is its exact rational
    value (the code only compares floats with [0] and tests truthiness). *)
#[warnings="-register-all"]
Inductive pyval : Type :=
| PNone
| PBool (b : bool)
| PInt (z : Z)
| PFloat (q : Q)
| PStr (s : string)
| PList (l : list pyval)
| PDict (d : gmap string pyval).

(** ** Strings: Python [str] as UTF-8 text *)

Fixpoint startswith (p s : string) : bool :=
  match p, s with
  | EmptyString, _ => true
  | String a p', String b s' => Ascii.eqb a b && startswith p' s'
  | String _ _, EmptyString => false
  end.

(** [needle in hay] *)
Fixpoint contains (needle hay : string) : bool :=
  startswith needle hay ||
  match hay with
  | EmptyString => false
  | String _ hay' => contains needle hay'
  end.

(** A UTF-8 continuation byte (10xxxxxx) belongs to the code point before it. *)
Definition is_cont (a : ascii) : bool :=
  let n := nat_of_ascii a in (128 <=? n) && (n <? 192).

(** [s[:n]]: the first [n] code points of [s]. *)
Fixpoint take_chars (n : nat) (s : string) : string :=
  match s with
  | EmptyString => EmptyString
  | String a s' =>
      if is_cont a then String a (take_chars n s')
      else match n with
           | O => EmptyString
           | S n' => String a (take_chars n' s')
           end
  end.

(** [s[n:]]: [s] without its first [n] code points. *)
Fixpoint drop_conts (s : string) : string :=
  match s with
  | String a s' => if is_cont a then drop_conts s' else s
  | EmptyString => EmptyString
  end.

Fixpoint drop_chars (n : nat) (s : string) : string :=
  match n, s with
  | O, _ => s
  | S _, EmptyString => EmptyString
  | S n', String _ s' => drop_chars n' (drop_conts s')
  end.

(** [list(s)]: the code points of [s], each as a one-character string. *)
Fixpoint chars_from (cur : string) (s : string) : list string :=
  match s with
  | EmptyString => match cur with EmptyString => [] | _ => [cur] end
  | String a s' =>
      if is_cont a then chars_from (cur +:+ String a EmptyString) s'
      else match cur with
           | EmptyString => chars_from (String a EmptyString) s'
           | _ => cur :: chars_from (String a EmptyString) s'
           end
  end.

Definition chars (s : string) : list string := chars_from EmptyString s.

(** [s.split(sep)] for a one-byte separator. *)
Fixpoint split_from (sep : ascii) (cur : string) (s : string) : list string :=
  match s with
  | EmptyString => [cur]
  | String a s' =>
      if Ascii.eqb a sep then cur :: split_from sep EmptyString s'
      else split_from sep (cur +:+ String a EmptyString) s'
  end.

Definition split (sep : ascii) (s : string) : list string :=
  split_from sep EmptyString s.

Definition newline : ascii := ascii_of_nat 10.
Definition nl : string := String newline EmptyString.

(** [sep.join(parts)] *)
Fixpoint join (sep : string) (parts : list string) : string :=
  match parts with
  | [] => EmptyString
  | [p] => p
  | p :: rest => p +:+ sep +:+ join sep rest
  end.

Definition str_nonempty (s : string) : bool :=
  match s with EmptyString => false | String _ _ => true end.

(** ** The interpreter: what the library functions the code calls do.

    [repr] is [str] on lists, dicts and floats, [strip] and [lower] are the
    [str] methods (defined by the Unicode tables), [b64encode] is
    [base64.b64encode(..).decode("ascii")], and [html_tables] is what
    [html.parser] makes [parse_html_tables] return.  Nothing is assumed
    about them. *)
Class Runtime : Type := {
  repr : pyval -> string;
  strip : string -> string;
  lower : string -> string;
  b64encode : string -> string;
  html_tables : pyval -> list (list (list string))
}.

(** [str(v)] *)
Definition py_str `{Runtime} (v : pyval) : string :=
  match v with
  | PStr s => s
  | PNone => "None"
  | PBool true => "True"
  | PBool false => "False"
  | PInt z => pretty z
  | _ => repr v
  end.

(** Truthiness, as [if v:] and [not v] see it. *)
Definition truthy (v : pyval) : bool :=
  match v with
  | PNone => false
  | PBool b => b
  | PInt z => negb (z =? 0)%Z
  | PFloat q => negb (Qeq_bool q 0)
  | PStr s => str_nonempty s
  | PList l => match l with [] => false | _ :: _ => true end
  | PDict d => match map_to_list d with [] => false | _ :: _ => true end
  end.

Definition is_str (v : pyval) : bool := match v with PStr _ => true | _ => false end.
Definition is_list (v : pyval) : bool := match v with PList _ => true | _ => false end.
Definition is_dict (v : pyval) : bool := match v with PDict _ => true | _ => false end.

Definition has_key {A} (d : gmap string A) (k : string) : bool :=
  match d !! k with Some _ => true | None => false end.

Definition str_is (k : string) (v : pyval) : bool :=
  match v with PStr s => String.eqb s k | _ => false end.

(** ["k" in v] *)
Definition py_in (k : string) (v : pyval) : result bool :=
  match v with
  | PDict d => Ok (has_key d k)
  | PList l => Ok (existsb (str_is k) l)
  | PStr s => Ok (contains k s)
  | _ => Raise (Exn TypeError "argument is not iterable")
  end.

(** [v["k"]] *)
Definition py_getitem (v : pyval) (k : string) : result pyval :=
  match v with
  | PDict d =>
      match d !! k with
      | Some x => Ok x
      | None => Raise (Exn KeyError k)
      end
  | PList _ | PStr _ => Raise (Exn TypeError "indices must be integers")
  | _ => Raise (Exn TypeError "object is not subscriptable")
  end.

Definition default_or (d : gmap string pyval) (k : string) (default : pyval) : pyval :=
  match d !! k with Some x => x | None => default end.

(** [v.get("k", default)] *)
Definition py_get (v : pyval) (k : string) (default : pyval) : result pyval :=
  match v with
  | PDict d => Ok (default_or d k default)
  | _ => Raise (Exn AttributeError "object has no attribute 'get'")
  end.

(** [v.get(key, default)] for a key that is any value: the keys of a dict
    decoded from JSON are strings, so only a string can be found; a list
    or a dict cannot be hashed. *)
Definition py_get_key (v : pyval) (key : pyval) (default : pyval) : result pyval :=
  match v with
  | PDict d =>
      match key with
      | PStr k => Ok (default_or d k default)
      | PList _ => Raise (Exn TypeError "unhashable type: 'list'")
      | PDict _ => Raise (Exn TypeError "unhashable type: 'dict'")
      | _ => Ok default
      end
  | _ => Raise (Exn AttributeError "object has no attribute 'get'")
  end.

(** [for x in v]: the items a [for] loop or a comprehension visits.  A dict
    yields its keys (in insertion order in Python; in key order here). *)
Definition py_iter (v : pyval) : result (list pyval) :=
  match v with
  | PList l => Ok l
  | PDict d => Ok (map (fun kv => PStr (fst kv)) (map_to_list d))
  | PStr s => Ok (map PStr (chars s))
  | _ => Raise (Exn TypeError "object is not iterable")
  end.

(** [l[i]] on a list, for an index that is not negative. *)
Definition py_index {A} (l : list A) (i : nat) : result A :=
  match l !! i with
  | Some x => Ok x
  | None => Raise (Exn IndexError "list index out of range")
  end.

End Py.

(* ===================================================================== *)
(** * [os.path], POSIX flavour *)
(* ===================================================================== *)
Module OsPath.

Definition sep : ascii := "/"%char.
Definition extsep : ascii := "."%char.

(** [(s[:i], s[i:])] with [i = s.rfind(c) + 1]: the cut after the last [c]
    (the first component is empty when [c] does not occur). *)
Fixpoint cut_after_last (c : ascii) (s : string) : string * string :=
  match s with
  | EmptyString => (EmptyString, EmptyString)
  | String a s' =>
      let (h, t) := cut_after_last c s' in
      match h with
      | EmptyString =>
          if Ascii.eqb a c then (String a EmptyString, s')
          else (EmptyString, String a s')
      | String _ _ => (String a h, t)
      end
  end.

(** [os.path.basename(p)]: [p[p.rfind('/') + 1:]] *)
Definition basename (p : string) : string := snd (cut_after_last sep p).

(** [(s[:d], s[d:])] for the last [c] at index [d], when there is one. *)
Fixpoint cut_at_last (c : ascii) (s : string) : option (string * string) :=
  match s with
  | EmptyString => None
  | String a s' =>
      match cut_at_last c s' with
      | Some (r, e) => Some (String a r, e)
      | None => if Ascii.eqb a c then Some (EmptyString, s) else None
      end
  end.

Fixpoint all_are (c : ascii) (s : string) : bool :=
  match s with
  | EmptyString => true
  | String a s' => Ascii.eqb a c && all_are c s'
  end.

(** [os.path.splitext] on a file name without directory part: the
    extension starts at the last dot, unless only dots precede it. *)
Definition splitext_name (name : string) : string * string :=
  match cut_at_last extsep name with
  | Some (r, e) => if all_are extsep r then (name, EmptyString) else (r, e)
  | None => (name, EmptyString)
  end.

(** [os.path.splitext(p)]: only the part after the last separator is split. *)
Definition splitext (p : string) : string * string :=
  let (dir, name) := cut_after_last sep p in
  let (root, ext) := splitext_name name in
  (dir +:+ root, ext).

Definition endswith_sep (s : string) : bool :=
  match cut_after_last sep s with
  | (String _ _, EmptyString) => true
  | _ => false
  end.

(** [os.path.join(a, b)] *)
Definition join (a b : string) : string :=
  if Py.startswith (String sep EmptyString) b then b
  else if negb (Py.str_nonempty a) || endswith_sep a then a +:+ b
  else a +:+ String sep EmptyString +:+ b.

End OsPath.

(* ===================================================================== *)
(** * [threading.Event] and the time line of the cancellation token *)
(* ===================================================================== *)
Module Cancel.

(** The internal flag of a [threading.Event]; it starts false. *)
Record Event : Type := { flag : bool }.

Definition new_event : Event := {| flag := false |}.

(** [Event.set()] *)
Definition set (e : Event) : Event := {| flag := true |}.

(** [Event.is_set()] *)
Definition is_set (e : Event) : bool := flag e.

(** The event as a reader finds it at instant [t], when [set()] was called
    at the instants [calls] (in any order, any number of times). *)
Definition event_at (calls : list nat) (t : nat) : Event :=
  fold_left (fun e c => if c <=? t then set e else e) calls new_event.

(** What a thread reads from a token that becomes set at instant [stop_at]
    ([None]: never).  A thread's instants are the actions it has performed. *)
Definition reads_set (stop_at : option nat) (t : nat) : bool :=
  match stop_at with
  | Some s => s <=? t
  | None => false
  end.

(** The first [set()] call of a schedule. *)
Fixpoint first_call (calls : list nat) : option nat :=
  match calls with
  | [] => None
  | c :: rest =>
      match first_call rest with
      | Some m => Some (Nat.min c m)
      | None => Some c
      end
  end.

End Cancel.

(* ===================================================================== *)
(** * Effects: what a thread does, and the world it runs in *)
(* ===================================================================== *)
Module Eff.
Import Py.

(** The places where the code reads the cancellation token. *)
Inductive site : Type :=
(* process_single_file *)
| BeforeStart | BeforeStatus | BeforeRead | BeforeApi | AfterApi
| BeforeError | AfterPersist | BeforeNoContent | InExcept
(* ocr_file *)
| ClientEntry | ClientBeforePost | ClientAfterPost | ClientConnErr | ClientExc
(* run *)
| SubmitCheck | DelayPoll | DelayDone | ExtraPoll | AfterSubmit
| DrainGuard | DrainSleep | AfterDrain | FinalCheck.

(** [WorkerSignals]: the events the UI receives. *)
Inductive signal : Type :=
| StatusUpdate (row : Z) (s : string)
| ProgressUpdate (row cur total : Z)
| ResultUpdate (row : Z) (s : string)
| Finished
| Stopped.

(** What ends up in an output file. *)
Inductive content : Type :=
| Text (s : string)
| JsonDump (v : pyval)
| CsvRows (rows : list (list pyval))
| HtmlPage (title body : string) (table_style : bool)
| Document (library : string).

(** One action of a thread, in the order performed. *)
Inductive entry : Type :=
| Check (s : site) (v : bool)
| Emit (sg : signal)
| Post (attempt : nat) (url auth : string) (payload : gmap string pyval)
| Sleep (tenths : nat)
| ReadFile (path : string)
| Created (path : string)
| Wrote (path : string) (c : content)
| MkDirs (path : string)
| PoolCreated (max_workers : Z)
| Submit (index : nat)
| Poll (index : nat) (done : bool)
| Shutdown
| Print (msg : string).

(** An HTTP response: [status_code], [text], and what [.json()] gives:
    the decoded body, or a decoding error with message [json_error]. *)
Record response : Type := {
  status_code : Z;
  text : string;
  json : option pyval;
  json_error : string
}.

Inductive post_outcome : Type :=
| Responds (r : response)
| PostRaises (e : exn).

Inductive library : Type := PythonDocx | Openpyxl | Reportlab.

(** Everything outside the thread: when the token becomes set, the
    configuration ([config.data], whatever [json.load] made of the file),
    the network, the file system, the optional libraries and the thread
    pool. *)
Record World : Type := {
  stop_at : option nat;
  config : pyval;
  net : nat -> post_outcome;
  read_file : string -> result string;
  open_raises : string -> option exn;
  write_raises : string -> option exn;
  import_raises : library -> option exn;
  library_raises : library -> option exn;
  path_exists : string -> bool;
  makedirs_raises : string -> option exn;
  pool_raises : option exn;
  finish : nat -> nat
}.

(** A computation: from the log so far to a value or a raised exception,
    and the extended log. *)
Definition M (A : Type) : Type := list entry -> result A * list entry.

Definition ret {A} (a : A) : M A := fun l => (Ok a, l).

Definition bind {A B} (m : M A) (f : A -> M B) : M B :=
  fun l =>
    match m l with
    | (Ok a, l') => f a l'
    | (Raise e, l') => (Raise e, l')
    end.

Definition raise {A} (e : exn) : M A := fun l => (Raise e, l).

Definition lift {A} (r : result A) : M A := fun l => (r, l).

(** [try: m  except Exception as e: h e] *)
Definition try_except {A} (m : M A) (h : exn -> M A) : M A :=
  fun l =>
    match m l with
    | (Ok a, l') => (Ok a, l')
    | (Raise e, l') => h e l'
    end.

Definition act (e : entry) : M unit := fun l => (Ok tt, l ++ [e]).

(** An operation that the world may make raise. *)
Definition may_raise (o : option exn) : M unit :=
  match o with
  | Some e => raise e
  | None => ret tt
  end.

(** [stop_event.is_set()] at site [s]: the thread's instant is the number
    of actions it has performed. *)
Definition check (w : World) (s : site) : M bool :=
  fun l =>
    let v := Cancel.reads_set (stop_at w) (length l) in
    (Ok v, l ++ [Check s v]).

Definition emit (sg : signal) : M unit := act (Emit sg).

Declare Scope eff_scope.
Delimit Scope eff_scope with eff.
Notation "x <- m ;; k" := (bind m (fun x => k))
  (at level 100, m at next level, right associativity) : eff_scope.
Notation "m ;; k" := (bind m (fun _ => k))
  (at level 100, right associativity) : eff_scope.

Declare Scope res_scope.
Delimit Scope res_scope with res.
Notation "x <- m ;; k" := (rbind m (fun x => k))
  (at level 100, m at next level, right associativity) : res_scope.

(** ** Reading a log *)

Definition is_signal (e : entry) : bool :=
  match e with Emit _ => true | _ => false end.

Definition signals (l : list entry) : list signal :=
  omap (fun e => match e with Emit sg => Some sg | _ => None end) l.

Definition saw_set (e : entry) : bool :=
  match e with Check _ true => true | _ => false end.

(** Some read of the token in [l] found it set. *)
Definition observed (l : list entry) : bool := existsb saw_set l.

Definition posts (l : list entry) : list entry :=
  List.filter (fun e => match e with Post _ _ _ _ => true | _ => false end) l.

Definition sleeps (l : list entry) : list nat :=
  omap (fun e => match e with Sleep n => Some n | _ => None end) l.

Definition files_written (l : list entry) : list string :=
  omap (fun e => match e with Wrote p _ => Some p | _ => None end) l.

(** No signal follows a read that found the token set. *)
Fixpoint silent_after_set (l : list entry) : bool :=
  match l with
  | [] => true
  | Check _ true :: rest => forallb (fun e => negb (is_signal e)) rest
  | _ :: rest => silent_after_set rest
  end.

(** Every read recorded in [d], a stretch of log that starts at instant
    [i], shows what the token of [w] reads at that instant. *)
Fixpoint honest_from (w : World) (i : nat) (d : list entry) : bool :=
  match d with
  | [] => true
  | Check _ v :: rest =>
      Bool.eqb v (Cancel.reads_set (stop_at w) i) && honest_from w (S i) rest
  | _ :: rest => honest_from w (S i) rest
  end.

(** A computation only appends to the log, what it appends satisfies [Q],
    and its reads are those of the token of [w]. *)
Definition sound {A} (w : World) (Q : entry -> Prop) (m : M A) : Prop :=
  forall l, exists d,
    snd (m l) = l ++ d /\ Forall Q d /\ honest_from w (length l) d = true.

(** Entries of code that emits no signal. *)
Definition no_signal (e : entry) : Prop := is_signal e = false.

(** Entries of code that neither emits a signal nor reads the token. *)
Definition plain (e : entry) : Prop :=
  match e with
  | Emit _ | Check _ _ => False
  | _ => True
  end.

End Eff.

(* ===================================================================== *)
(** * [services/ocr_engine.py]: the remote OCR client *)
(* ===================================================================== *)
Module Ocr.
Import Py Eff.

Section Client.
Context `{Runtime}.

(** ** [_parse_result] *)

(** The four accumulators of [_parse_result]. *)
Record acc : Type := {
  all_lines : list pyval;
  markdown_text : string;
  tables_html : list pyval;
  layout_data : list pyval
}.

Definition acc0 : acc :=
  {| all_lines := []; markdown_text := EmptyString; tables_html := []; layout_data := [] |}.

Definition push_lines (a : acc) (xs : list pyval) : acc :=
  {| all_lines := all_lines a ++ xs; markdown_text := markdown_text a;
     tables_html := tables_html a; layout_data := layout_data a |}.

Definition push_markdown (a : acc) (s : string) : acc :=
  {| all_lines := all_lines a; markdown_text := markdown_text a +:+ s;
     tables_html := tables_html a; layout_data := layout_data a |}.

Definition push_table (a : acc) (x : pyval) : acc :=
  {| all_lines := all_lines a; markdown_text := markdown_text a;
     tables_html := tables_html a ++ [x]; layout_data := layout_data a |}.

Definition push_layout (a : acc) (x : pyval) : acc :=
  {| all_lines := all_lines a; markdown_text := markdown_text a;
     tables_html := tables_html a; layout_data := layout_data a ++ [x] |}.

(** A [for] loop whose body may raise. *)
Fixpoint rfold {A B} (f : A -> B -> result A) (a : A) (l : list B) : result A :=
  match l with
  | [] => Ok a
  | x :: l' => (a' <- f a x ;; rfold f a' l')%res
  end.

(** [[t for t in v if isinstance(t, str)]] *)
Definition strs_in (v : pyval) : result (list pyval) :=
  (items <- py_iter v ;; Ok (List.filter is_str items))%res.

(** The items of [v["k"]] when ["k" in v and isinstance(v["k"], list)]. *)
Definition list_at (k : string) (v : pyval) : result (option (list pyval)) :=
  (b <- py_in k v ;;
   if b : bool then
     x <- py_getitem v k ;;
     Ok (match x with PList l => Some l | _ => None end)
   else Ok None)%res.

(** [isinstance(text, str) and text.strip()] *)
Definition nonblank_str (v : pyval) : bool :=
  match v with
  | PStr s => str_nonempty (strip s)
  | _ => false
  end.

(** [md_text + "\n\n"] *)
Definition add_newlines (v : pyval) : result string :=
  match v with
  | PStr s => Ok (s +:+ nl +:+ nl)
  | _ => Raise (Exn TypeError "unsupported operand type(s) for +")
  end.

Definition add_markdown (a : acc) (item : pyval) : result acc :=
  (b <- py_in "markdown" item ;;
   if b : bool then
     md <- py_getitem item "markdown" ;;
     if is_dict md then
       md_text <- py_get md "text" (PStr "") ;;
       if truthy md_text then
         s <- add_newlines md_text ;;
         Ok (push_markdown a s)
       else Ok a
     else Ok a
   else Ok a)%res.

Definition add_table (a : acc) (table : pyval) : result acc :=
  (b <- py_in "pred_html" table ;;
   if b : bool then
     x <- py_getitem table "pred_html" ;;
     Ok (push_table a x)
   else Ok a)%res.

Definition add_tables (a : acc) (item : pyval) : result acc :=
  (ol <- list_at "table_res_list" item ;;
   match ol with
   | Some tables => rfold add_table a tables
   | None => Ok a
   end)%res.

(** The [prunedResult] of a layout item: a string, or a dict with [text]
    and [rec_texts]. *)
Definition add_pruned_layout (a : acc) (item : pyval) : result acc :=
  (b <- py_in "prunedResult" item ;;
   if b : bool then
     pr <- py_getitem item "prunedResult" ;;
     match pr with
     | PStr _ => Ok (push_lines a [pr])
     | PDict _ =>
         b1 <- py_in "text" pr ;;
         a1 <- (if b1 : bool then
                  x <- py_getitem pr "text" ;; Ok (push_lines a [x])
                else Ok a) ;;
         b2 <- py_in "rec_texts" pr ;;
         if b2 : bool then
           rt <- py_getitem pr "rec_texts" ;;
           ts <- strs_in rt ;;
           Ok (push_lines a1 ts)
         else Ok a1
     | _ => Ok a
     end
   else Ok a)%res.

Definition layout_block (label content bbox order : pyval) : pyval :=
  PDict (<["label" := label]> (<["content" := content]>
        (<["bbox" := bbox]> (<["order" := order]> ∅)))).

Definition add_block (a : acc) (block : pyval) : result acc :=
  (block_content <- py_get block "block_content" (PStr "") ;;
   block_label <- py_get block "block_label" (PStr "text") ;;
   if truthy block_content then
     bbox <- py_get block "block_bbox" PNone ;;
     order <- py_get block "block_order" PNone ;;
     let a' := push_layout a (layout_block block_label block_content bbox order) in
     Ok (if negb (str_is "table" block_label) then push_lines a' [block_content] else a')
   else Ok a)%res.

Definition add_blocks (a : acc) (item : pyval) : result acc :=
  (b <- py_in "parsing_res_list" item ;;
   if b : bool then
     prl <- py_getitem item "parsing_res_list" ;;
     blocks <- py_iter prl ;;
     rfold add_block a blocks
   else Ok a)%res.

Definition layout_item (a : acc) (item : pyval) : result acc :=
  (a1 <- add_markdown a item ;;
   a2 <- add_tables a1 item ;;
   a3 <- add_pruned_layout a2 item ;;
   add_blocks a3 item)%res.

Definition ocr_item (a : acc) (item : pyval) : result acc :=
  (b <- py_in "prunedResult" item ;;
   a1 <- (if b : bool then
            pr <- py_getitem item "prunedResult" ;;
            match pr with
            | PStr _ => Ok (push_lines a [pr])
            | PDict _ =>
                b2 <- py_in "rec_texts" pr ;;
                if b2 : bool then
                  rt <- py_getitem pr "rec_texts" ;;
                  ts <- strs_in rt ;;
                  Ok (push_lines a ts)
                else Ok a
            | _ => Ok a
            end
          else Ok a) ;;
   ol <- list_at "rec_texts" item ;;
   match ol with
   | Some texts => Ok (push_lines a1 (List.filter nonblank_str texts))
   | None => Ok a1
   end)%res.

Definition structure_item (a : acc) (item : pyval) : result acc :=
  (ol <- list_at "rec_texts" item ;;
   match ol with
   | Some texts => Ok (push_lines a (List.filter is_str texts))
   | None => Ok a
   end)%res.

Definition no_lines (a : acc) : bool :=
  match all_lines a with [] => true | _ :: _ => false end.

(** ["\n".join(lines)]: every item must be a [str]. *)
Fixpoint strs_of (lines : list pyval) : result (list string) :=
  match lines with
  | [] => Ok []
  | PStr s :: rest => (ss <- strs_of rest ;; Ok (s :: ss))%res
  | _ :: _ => Raise (Exn TypeError "sequence item: expected str instance")
  end.

Definition join_lines (lines : list pyval) : result string :=
  (ss <- strs_of lines ;; Ok (join nl ss))%res.

Definition words (line : pyval) : pyval := PDict {["words" := line]}.

(** [list(res.keys())] *)
Definition keys_of (res : pyval) : result pyval :=
  match res with
  | PDict d => Ok (PList (map (fun kv => PStr (fst kv)) (map_to_list d)))
  | _ => Raise (Exn AttributeError "object has no attribute 'keys'")
  end.

(** The two [return] statements of [_parse_result]. *)
Definition build_result (json_data res : pyval) (a : acc) : result (gmap string pyval) :=
  (if no_lines a && negb (str_nonempty (markdown_text a))
      && negb (truthy (PList (tables_html a))) then
     ks <- keys_of res ;;
     Ok (<["words_result" := PList []]> (<["markdown" := PStr ""]>
        (<["tables_html" := PList []]> (<["layout_data" := PList []]>
        (<["debug_info" := PStr ("未找到文字。结果键: " +:+ py_str ks)]>
        (<["raw_response" := PStr (take_chars 500 (py_str json_data))]> ∅))))))
   else
     final_text <- (if str_nonempty (markdown_text a)
                    then Ok (strip (markdown_text a))
                    else join_lines (all_lines a)) ;;
     Ok (<["words_result" :=
             PList (if no_lines a then [words (PStr final_text)]
                    else map words (all_lines a))]>
        (<["markdown" := PStr (markdown_text a)]>
        (<["tables_html" := PList (tables_html a)]>
        (<["layout_data" := PList (layout_data a)]>
        (<["raw_result" := res]> ∅))))))%res.

(** The fallback when no line was found: [rec_texts] at result level. *)
Definition result_level (res : pyval) (a : acc) : result acc :=
  (if no_lines a then
     b <- py_in "rec_texts" res ;;
     if b : bool then
       rt <- py_getitem res "rec_texts" ;;
       match rt with
       | PList texts => Ok (push_lines a (List.filter nonblank_str texts))
       | _ => Ok a
       end
     else Ok a
   else Ok a)%res.

(** The fallback when still no line was found: [structureResults]. *)
Definition structure_level (res : pyval) (a : acc) : result acc :=
  (if no_lines a then
     b <- py_in "structureResults" res ;;
     if b : bool then
       sr <- py_getitem res "structureResults" ;;
       items <- py_iter sr ;;
       rfold structure_item a items
     else Ok a
   else Ok a)%res.

(** The loop over [res[k]] when it is a list. *)
Definition each_of (k : string) (f : acc -> pyval -> result acc) (res : pyval) (a : acc)
  : result acc :=
  (ol <- list_at k res ;;
   match ol with
   | Some items => rfold f a items
   | None => Ok a
   end)%res.

Definition _parse_result (json_data : pyval) (model_name : pyval)
  : result (gmap string pyval) :=
  (res <- py_get json_data "result" (PDict ∅) ;;
   a1 <- each_of "layoutParsingResults" layout_item res acc0 ;;
   a2 <- each_of "ocrResults" ocr_item res a1 ;;
   a3 <- result_level res a2 ;;
   a4 <- structure_level res a3 ;;
   build_result json_data res a4)%res.

(** ** [ocr_file] *)

(** [v != 0] *)
Definition py_ne_zero (v : pyval) : bool :=
  match v with
  | PInt z => negb (z =? 0)%Z
  | PFloat q => negb (Qeq_bool q 0)
  | PBool b => b
  | _ => true
  end.

Definition opt_truthy (o : option string) : bool :=
  match o with
  | Some s => str_nonempty s
  | None => false
  end.

(** How an f-string shows a value that may be [None]. *)
Definition opt_str (o : option string) : string :=
  match o with
  | Some s => s
  | None => "None"
  end.

(** [model_override if model_override else config.get("current_model")] *)
Definition current_model (w : World) (model_override : option string) : result pyval :=
  if opt_truthy model_override then Ok (PStr (opt_str model_override))
  else py_get (config w) "current_model" PNone.

(** [config.get_model_config(model_name)], which is
    [self.data.get("models", {}).get(model_name, {})] *)
Definition get_model_config (w : World) (model_name : pyval) : result pyval :=
  (models <- py_get (config w) "models" (PDict ∅) ;;
   py_get_key models model_name (PDict ∅))%res.

Definition error_dict (msg : string) : gmap string pyval := {["error" := PStr msg]}.

Definition error_raw (msg raw : string) : gmap string pyval :=
  <["error" := PStr msg]> {["raw_response" := PStr raw]}.

Definition terminated : gmap string pyval := error_dict "任务已被用户终止".

(** [stop_event and stop_event.is_set()]: no read when no event was passed. *)
Definition stop_check (w : World) (has_event : bool) (s : site) : M bool :=
  if has_event then check w s else ret false.

(** [m == "name"] *)
Definition model_is (m : pyval) (name : string) : bool := str_is name m.

Definition build_payload (file_data : string) (file_type : Z)
    (current : pyval) (optimize_for_small : bool) : gmap string pyval :=
  let payload : gmap string pyval :=
    <["file" := PStr (b64encode file_data)]> {["fileType" := PInt file_type]} in
  if optimize_for_small then
    if model_is current "PP-OCRv5" then
      <["textDetThresh" := PFloat (15 # 100)]>
      (<["textDetBoxThresh" := PFloat (3 # 10)]>
      (<["textDetUnclipRatio" := PFloat 2]>
      (<["textRecScoreThresh" := PFloat 0]> payload)))
    else if model_is current "PP-StructureV3" then
      <["textDetThresh" := PFloat (15 # 100)]>
      (<["textDetBoxThresh" := PFloat (3 # 10)]>
      (<["textDetUnclipRatio" := PFloat 2]> payload))
    else if model_is current "PaddleOCR-VL" then
      <["temperature" := PFloat (1 # 10)]> payload
    else payload
  else payload.

Definition max_retries : nat := 2.

(** [self._session.post(...)] of attempt [attempt]. *)
Definition post (w : World) (attempt : nat) (url auth : string)
    (payload : gmap string pyval) : M response :=
  (act (Post attempt url auth payload) ;;
   match net w attempt with
   | Responds r => ret r
   | PostRaises e => raise e
   end)%eff.

(** [response.json()] *)
Definition response_json (r : response) : result pyval :=
  match json r with
  | Some v => Ok v
  | None => Raise (Exn ValueError (json_error r))
  end.

(** What the [try] does with a response once the token was checked: the
    part of [ocr_file] from the status test to the final [return]. *)
Definition interpret (current : pyval) (response : response)
  : result (gmap string pyval) :=
  if negb (status_code response =? 200)%Z then
    Ok (error_raw ("HTTP " +:+ pretty (status_code response))
                  (take_chars 500 (text response)))
  else
    (result_json <- response_json response ;;
     has_code <- py_in "errorCode" result_json ;;
     failed <- (if has_code : bool then
                  c <- py_getitem result_json "errorCode" ;;
                  Ok (py_ne_zero c)
                else Ok false) ;;
     if failed : bool then
       msg <- py_get result_json "errorMsg" PNone ;;
       Ok (error_raw ("API错误: " +:+ py_str msg)
                     (take_chars 500 (py_str result_json)))
     else _parse_result result_json current)%res.

(** The body of the [try] of one attempt: it returns the function's result. *)
Definition attempt_body (w : World) (has_event : bool) (url auth : string)
    (payload : gmap string pyval) (current : pyval) (attempt : nat)
  : M (gmap string pyval) :=
  (b <- stop_check w has_event ClientBeforePost ;;
   if b : bool then ret terminated else
   response <- post w attempt url auth payload ;;
   b <- stop_check w has_event ClientAfterPost ;;
   if b : bool then ret terminated else
   lift (interpret current response))%eff.

(** What one iteration of the retry loop decides. *)
Inductive step : Type :=
| Return (d : gmap string pyval)
| Next (last_error : option string).

Definition backoff (attempt : nat) : M unit :=
  if attempt <? max_retries then act (Sleep 10) else ret tt.

Definition one_attempt (w : World) (has_event : bool) (url auth : string)
    (payload : gmap string pyval) (current : pyval) (attempt : nat)
  : M step :=
  try_except
    (d <- attempt_body w has_event url auth payload current attempt ;;
     ret (Return d))%eff
    (fun e =>
       match exn_cls e with
       | RequestsTimeout =>
           (backoff attempt ;;
            ret (Next (Some "请求超时，请检查网络或稍后重试")))%eff
       | RequestsConnectionError =>
           (b <- stop_check w has_event ClientConnErr ;;
            if b : bool then ret (Return terminated) else
            backoff attempt ;;
            ret (Next (Some ("连接错误: " +:+ take_chars 80 (exn_msg e)))))%eff
       | _ =>
           (b <- stop_check w has_event ClientExc ;;
            if b : bool then ret (Return terminated) else
            ret (Return (error_dict ("异常: " +:+ exn_msg e))))%eff
       end).

(** [for attempt in range(max_retries + 1)], then the final [return]. *)
Fixpoint retry_loop (w : World) (has_event : bool) (url auth : string)
    (payload : gmap string pyval) (current : pyval)
    (range : list nat) (last_error : option string) : M (gmap string pyval) :=
  match range with
  | [] => ret (error_dict (if opt_truthy last_error then opt_str last_error else "请求失败"))
  | attempt :: rest =>
      (s <- one_attempt w has_event url auth payload current attempt ;;
       match s with
       | Return d => ret d
       | Next le => retry_loop w has_event url auth payload current rest le
       end)%eff
  end.

Definition ocr_file (w : World) (file_data : string) (file_type : Z)
    (model_override : option string) (has_event : bool)
    (optimize_for_small : bool) : M (gmap string pyval) :=
  (b <- stop_check w has_event ClientEntry ;;
   if b : bool then ret terminated else
   current <- lift (current_model w model_override) ;;
   model_config <- lift (get_model_config w current) ;;
   api_url <- lift (py_get model_config "url" PNone) ;;
   token <- lift (py_get model_config "token" PNone) ;;
   if negb (truthy api_url) || negb (truthy token) then
     ret (error_dict ("缺少 " +:+ py_str current +:+ " 的 URL 或 Token，请在设置中配置。"))
   else
     let auth := "token " +:+ py_str token in
     let payload := build_payload file_data file_type current optimize_for_small in
     retry_loop w has_event (py_str api_url) auth payload current
                (seq 0 (max_retries + 1)) None)%eff.

End Client.
End Ocr.

(* ===================================================================== *)
(** * [BatchWorker]: construction, [stop], display slots *)
(* ===================================================================== *)
Module Worker.
Import Py Eff.

Record BatchWorker : Type := {
  mode : string;
  files : list string;
  model_override : option string;
  output_dir : string;
  export_fmt : string;
  max_workers : Z;
  row_indices : list Z;
  _stop_event : Cancel.Event
}.

(** [row_indices if row_indices else list(range(len(files)))]: [None] and
    the empty list are both falsy. *)
Definition init_row_indices (files : list string) (row_indices : option (list Z)) : list Z :=
  match row_indices with
  | Some (r :: rs) => r :: rs
  | Some [] | None => map Z.of_nat (seq 0 (length files))
  end.

(** [BatchWorker.__init__] *)
Definition init (mode : string) (files : list string) (model_override : option string)
    (output_dir export_fmt : string) (max_workers : Z)
    (row_indices : option (list Z)) : BatchWorker :=
  {| mode := mode; files := files; model_override := model_override;
     output_dir := output_dir; export_fmt := export_fmt;
     max_workers := max_workers;
     row_indices := init_row_indices files row_indices;
     _stop_event := Cancel.new_event |}.

(** [BatchWorker.stop] *)
Definition stop (self : BatchWorker) : BatchWorker :=
  {| mode := mode self; files := files self; model_override := model_override self;
     output_dir := output_dir self; export_fmt := export_fmt self;
     max_workers := max_workers self; row_indices := row_indices self;
     _stop_event := Cancel.set (_stop_event self) |}.

(** [self.row_indices[index] if index < len(self.row_indices) else index] *)
Definition display_slot (self : BatchWorker) (index : nat) : result Z :=
  if index <? length (row_indices self) then py_index (row_indices self) index
  else Ok (Z.of_nat index).

End Worker.

(* ===================================================================== *)
(** * [BatchWorker.save_results] and the table parsers it uses *)
(* ===================================================================== *)
Module Exporter.
Import Py Eff Worker.

Section Save.
Context `{Runtime}.

Fixpoint endswith_char (c : ascii) (s : string) : bool :=
  match s with
  | EmptyString => false
  | String a EmptyString => Ascii.eqb a c
  | String _ s' => endswith_char c s'
  end.

(** [s.replace(c, "")] for each [c] of [cs] *)
Fixpoint remove_chars (cs : list ascii) (s : string) : string :=
  match s with
  | EmptyString => EmptyString
  | String a s' =>
      if existsb (Ascii.eqb a) cs then remove_chars cs s'
      else String a (remove_chars cs s')
  end.

(** [xs[1:-1]] *)
Definition inner {A} (xs : list A) : list A := removelast (tl xs).

Definition bar : ascii := "|"%char.

(** The loop of [parse_markdown_table]: [(tables, current_table, in_table)]. *)
Fixpoint md_scan (lines : list string) (tables : list (list (list string)))
    (current : list (list string)) (in_table : bool)
  : list (list (list string)) * list (list string) :=
  match lines with
  | [] => (tables, current)
  | raw :: rest =>
      let line := strip raw in
      if startswith (String bar EmptyString) line && endswith_char bar line then
        let stripped := remove_chars [bar; "-"%char; ":"%char; " "%char] line in
        if negb (str_nonempty stripped) then md_scan rest tables current in_table
        else
          let cells := map strip (inner (split bar line)) in
          match cells with
          | [] => md_scan rest tables current in_table
          | _ :: _ => md_scan rest tables (current ++ [cells]) true
          end
      else
        match in_table, current with
        | true, _ :: _ => md_scan rest (tables ++ [current]) [] false
        | _, _ => md_scan rest tables current in_table
        end
  end.

(** [parse_markdown_table]: [None] when no table was found. *)
Definition parse_markdown_table (md_text : string) : option (list (list (list string))) :=
  let '(tables, current) := md_scan (split newline md_text) [] [] false in
  let tables := match current with [] => tables | _ :: _ => tables ++ [current] end in
  match tables with
  | [] => None
  | _ :: _ => Some tables
  end.

(** [parse_html_tables]: the parser's tables, or [[]] when feeding raises. *)
Definition parse_html_tables (html_content : pyval) : list (list (list string)) :=
  html_tables html_content.

(** ** The file system *)

(** [with open(path, "w") as f: ...]: opening may raise, then writing may. *)
Definition write_file (w : World) (path : string) (c : content) : M unit :=
  (may_raise (open_raises w path) ;;
   act (Created path) ;;
   may_raise (write_raises w path) ;;
   act (Wrote path c))%eff.

(** Saving a document that a library built ([doc.save], [wb.save],
    [doc.build]). *)
Definition save_document (w : World) (name path : string) : M unit :=
  (may_raise (open_raises w path) ;;
   act (Created path) ;;
   may_raise (write_raises w path) ;;
   act (Wrote path (Document name)))%eff.

(** ** Pieces of [save_results] *)

Definition or_text (markdown_text text : string) : string :=
  if str_nonempty markdown_text then markdown_text else text.

(** [enumerate(text.split("\n"))] as csv rows [[idx + 1, line]]. *)
Definition numbered (keep : string -> bool) (text : string) : list (list pyval) :=
  omap (fun il : nat * string =>
          if keep (snd il) then Some [PInt (Z.of_nat (fst il) + 1); PStr (snd il)]
          else None)
       (imap (fun i l => (i, l)) (split newline text)).

Definition csv_header : list pyval := [PStr "行号"; PStr "文本"].

Definition nonblank (line : string) : bool := str_nonempty (strip line).

Definition html_line (raw : string) : option string :=
  let line := strip raw in
  if negb (str_nonempty line) then None
  else if startswith "# " line then Some ("<h1>" +:+ drop_chars 2 line +:+ "</h1>")
  else if startswith "## " line then Some ("<h2>" +:+ drop_chars 3 line +:+ "</h2>")
  else if startswith "### " line then Some ("<h3>" +:+ drop_chars 4 line +:+ "</h3>")
  else Some ("<p>" +:+ line +:+ "</p>").

(** The rows of the fallback sheet built from [layout_data]. *)
Definition layout_row (ib : nat * pyval) : result (list pyval) :=
  (label <- py_get (snd ib) "label" (PStr "text") ;;
   c <- py_get (snd ib) "content" (PStr "") ;;
   Ok [PInt (Z.of_nat (fst ib) + 1); label; c])%res.

Fixpoint rmap {A B} (f : A -> result B) (l : list A) : result (list B) :=
  match l with
  | [] => Ok []
  | x :: l' => (y <- f x ;; ys <- rmap f l' ;; Ok (y :: ys))%res
  end.

Definition md_document (base_name content : string) : string :=
  "# " +:+ base_name +:+ nl +:+ nl +:+ content.

(** The Markdown file of the [md] format and of the PDF fallback: a title
    is added unless the content starts with [#]. *)
Definition md_titled (base_name content : string) : string :=
  if startswith "#" content then content
  else "# " +:+ base_name +:+ nl +:+ nl +:+ content.

Definition exported (base_name ext : string) : string :=
  "已导出: " +:+ base_name +:+ "." +:+ ext.

Definition is_import_error (e : exn) : bool :=
  match exn_cls e with ImportError => true | _ => false end.

(** ** [save_results] *)

Definition base_name_of (filepath : string) : string :=
  fst (OsPath.splitext (OsPath.basename filepath)).

(** The local function [p] of [save_results]. *)
Definition out_path (self : BatchWorker) (filepath ext : string) : string :=
  OsPath.join (output_dir self) (base_name_of filepath +:+ "." +:+ ext).

Definition export_docx (w : World) (self : BatchWorker) (filepath text markdown_text : string)
  : M string :=
  let base_name := base_name_of filepath in
  let p := out_path self filepath in
  try_except
    (may_raise (import_raises w PythonDocx) ;;
     may_raise (library_raises w PythonDocx) ;;
     save_document w "docx" (p "docx") ;;
     ret (exported base_name "docx"))%eff
    (fun e =>
       (write_file w (p "md") (Text (md_document base_name (or_text markdown_text text))) ;;
        ret (if is_import_error e
             then "导出失败: 需要安装python-docx (已保存为MD)"
             else "DOCX导出失败: " +:+ take_chars 30 (exn_msg e)))%eff).

Definition export_xlsx (w : World) (self : BatchWorker) (filepath text markdown_text : string)
    (tables_html layout_data : list pyval) : M string :=
  let base_name := base_name_of filepath in
  let p := out_path self filepath in
  let save := save_document w "xlsx" (p "xlsx") in
  try_except
    (may_raise (import_raises w Openpyxl) ;;
     may_raise (library_raises w Openpyxl) ;;
     match tables_html with
     | _ :: _ =>
         let table_count := length (concat (map parse_html_tables tables_html)) in
         save ;;
         ret (exported base_name "xlsx" +:+ " (" +:+ pretty table_count +:+ "个表格)")
     | [] =>
         match (if str_nonempty markdown_text
                then parse_markdown_table markdown_text else None) with
         | Some md_tables =>
             save ;;
             ret (exported base_name "xlsx" +:+ " (" +:+ pretty (length md_tables) +:+ "个表格)")
         | None =>
             match layout_data with
             | _ :: _ =>
                 _rows <- lift (rmap layout_row (imap (fun i b => (i, b)) layout_data)) ;;
                 save ;;
                 ret (exported base_name "xlsx")
             | [] =>
                 save ;;
                 ret (exported base_name "xlsx")
             end
         end
     end)%eff
    (fun e =>
       if is_import_error e then
         (write_file w (p "csv") (CsvRows (csv_header :: numbered (fun _ => true) text)) ;;
          ret "导出失败: 需要安装openpyxl (已保存为CSV)")%eff
       else ret ("Excel导出失败: " +:+ take_chars 30 (exn_msg e))).

Definition export_pdf (w : World) (self : BatchWorker) (filepath text markdown_text : string)
  : M string :=
  let base_name := base_name_of filepath in
  let p := out_path self filepath in
  let content := or_text markdown_text text in
  try_except
    (may_raise (import_raises w Reportlab) ;;
     may_raise (library_raises w Reportlab) ;;
     save_document w "pdf" (p "pdf") ;;
     ret (exported base_name "pdf"))%eff
    (fun e =>
       if is_import_error e then
         (write_file w (p "md") (Text (md_titled base_name content)) ;;
          ret "导出失败: 需要安装reportlab (已保存为MD)")%eff
       else
         (write_file w (p "md") (Text (md_document base_name content)) ;;
          ret ("PDF导出失败: " +:+ take_chars 30 (exn_msg e)))%eff).

Definition export_html (w : World) (self : BatchWorker) (filepath text markdown_text : string)
    (tables_html : list pyval) : M string :=
  let base_name := base_name_of filepath in
  let p := out_path self filepath in
  match tables_html with
  | _ :: _ =>
      (tables <- lift (Ocr.strs_of tables_html) ;;
       write_file w (p "html")
         (HtmlPage base_name
            ("<h1>" +:+ base_name +:+ "</h1>" +:+ nl +:+ "    " +:+ join "<hr>" tables)
            true) ;;
       ret (exported base_name "html"))%eff
  | [] =>
      let html_lines := omap html_line (split newline (or_text markdown_text text)) in
      (write_file w (p "html") (HtmlPage base_name (join "" html_lines) false) ;;
       ret (exported base_name "html"))%eff
  end.

(** The branches of [save_results], in the order the [if]/[elif] chain
    tests them. *)
Inductive format : Type :=
| FTxt | FJson | FCsv | FSearchablePdf | FAnnotated | FDocx | FXlsx | FMarkdown
| FHtml | FLayout | FPdf | FLatex | FSemantic | FNarrative | FCode | FOther.

Definition classify (fmt : string) : format :=
  if String.eqb fmt "txt" then FTxt
  else if String.eqb fmt "json" then FJson
  else if contains "csv" fmt then FCsv
  else if contains "可搜索pdf" fmt then FSearchablePdf
  else if contains "带标注" fmt then FAnnotated
  else if contains "docx" fmt || contains "word" fmt then FDocx
  else if contains "xlsx" fmt || contains "excel" fmt then FXlsx
  else if contains "markdown" fmt || contains "md" fmt then FMarkdown
  else if contains "html" fmt then FHtml
  else if contains "版面树" fmt || contains "layout" fmt then FLayout
  else if contains "pdf" fmt && negb (contains "可搜索" fmt) then FPdf
  else if contains "latex" fmt || contains "公式" fmt then FLatex
  else if contains "语义" fmt || contains "kvp" fmt then FSemantic
  else if contains "叙述" fmt || contains "narrative" fmt then FNarrative
  else if contains "代码" fmt || contains "code" fmt then FCode
  else FOther.

Definition json_output (filepath text : string) (raw_result : pyval) : pyval :=
  let output : gmap string pyval :=
    <["file" := PStr (OsPath.basename filepath)]> {["text" := PStr text]} in
  PDict (if truthy raw_result then <["raw_result" := raw_result]> output else output).

Definition layout_output (filepath : string) (layout_data : list pyval) (raw_result : pyval)
  : pyval :=
  PDict (<["file" := PStr (OsPath.basename filepath)]>
        (<["layout_data" := PList layout_data]> {["raw_result" := raw_result]})).

Definition save_body (w : World) (self : BatchWorker) (filepath text markdown_text : string)
    (tables_html layout_data : list pyval) (raw_result : pyval) : M string :=
  let base_name := base_name_of filepath in
  let p := out_path self filepath in
  match classify (lower (export_fmt self)) with
  | FTxt | FNarrative | FOther =>
      (write_file w (p "txt") (Text text) ;; ret (exported base_name "txt"))%eff
  | FJson =>
      (write_file w (p "json") (JsonDump (json_output filepath text raw_result)) ;;
       ret (exported base_name "json"))%eff
  | FCsv =>
      (write_file w (p "csv") (CsvRows (csv_header :: numbered nonblank text)) ;;
       ret (exported base_name "csv"))%eff
  | FSearchablePdf =>
      (write_file w (p "txt") (Text text) ;;
       ret (exported base_name "txt" +:+ " (可搜索PDF开发中)"))%eff
  | FAnnotated =>
      (write_file w (p "txt") (Text text) ;;
       ret (exported base_name "txt" +:+ " (标注图片开发中)"))%eff
  | FDocx => export_docx w self filepath text markdown_text
  | FXlsx => export_xlsx w self filepath text markdown_text tables_html layout_data
  | FMarkdown =>
      (write_file w (p "md") (Text (md_titled base_name (or_text markdown_text text))) ;;
       ret (exported base_name "md"))%eff
  | FHtml => export_html w self filepath text markdown_text tables_html
  | FLayout =>
      (write_file w (p "json") (JsonDump (layout_output filepath layout_data raw_result)) ;;
       ret (exported base_name "json"))%eff
  | FPdf => export_pdf w self filepath text markdown_text
  | FLatex =>
      (write_file w (p "tex")
         (Text ("% " +:+ base_name +:+ nl +:+ "% LaTeX export" +:+ nl +:+ nl +:+ text)) ;;
       ret (exported base_name "tex"))%eff
  | FSemantic =>
      (write_file w (p "json")
         (JsonDump (PDict (<["file" := PStr (OsPath.basename filepath)]>
                           {["semantic_kvp" := PStr text]}))) ;;
       ret (exported base_name "json"))%eff
  | FCode =>
      (write_file w (p "py")
         (Text ("# Extracted from " +:+ base_name +:+ nl +:+ nl +:+ text)) ;;
       ret (exported base_name "py"))%eff
  end.

(** [save_results]: the body runs inside [try: ... except Exception as e]. *)
Definition save_results (w : World) (self : BatchWorker) (filepath text markdown_text : string)
    (tables_html layout_data : list pyval) (raw_result : pyval) : M string :=
  try_except
    (save_body w self filepath text markdown_text tables_html layout_data raw_result)
    (fun e => ret ("导出错误: " +:+ take_chars 50 (exn_msg e))).

End Save.
End Exporter.

(* ===================================================================== *)
(** * [BatchWorker.process_single_file]: the per-item pipeline *)
(* ===================================================================== *)
Module Pipeline.
Import Py Eff Worker.

Section Item.
Context `{Runtime}.

(** The tuple [(index, row_index, status, result)] the method returns. *)
Record outcome : Type := {
  o_index : nat;
  o_row : Z;
  o_status : option string;
  o_result : string
}.

Definition stopped_msg : string := "用户已终止任务".

(** The silent return of a cancelled item. *)
Definition silently (index : nat) (row : Z) : outcome :=
  {| o_index := index; o_row := row; o_status := None; o_result := stopped_msg |}.

(** The three signals of a terminal update. *)
Definition finish_item (row : Z) (status shown : string) : M unit :=
  (emit (StatusUpdate row status) ;;
   emit (ProgressUpdate row 100 100) ;;
   emit (ResultUpdate row shown))%eff.

Definition document_exts : list string :=
  [".pdf"; ".xps"; ".epub"; ".mobi"; ".fb2"; ".cbz"].

(** [0 if is_document else 1] *)
Definition file_type_of (filepath : string) : Z :=
  let ext := lower (snd (OsPath.splitext filepath)) in
  if existsb (String.eqb ext) document_exts then 0%Z else 1%Z.

(** A value used where the callee needs a [str] (a [list]): values that
    [ocr_file] returns have these types; anything else is a [TypeError]. *)
Definition as_str (v : pyval) : result string :=
  match v with
  | PStr s => Ok s
  | _ => Raise (Exn TypeError "expected str")
  end.

Definition as_list (v : pyval) : result (list pyval) :=
  match v with
  | PList l => Ok l
  | _ => Raise (Exn TypeError "expected list")
  end.

(** [item.get("words", "")] kept when it is a [str]. *)
Definition word_of (item : pyval) : result (option string) :=
  (word <- py_get item "words" (PStr "") ;;
   Ok (match word with PStr s => Some s | _ => None end))%res.

(** [text_lines] *)
Definition text_lines_of (res : gmap string pyval) : result (list string) :=
  match res !! "words_result" with
  | Some wr =>
      if truthy wr then
        (items <- py_iter wr ;;
         ws <- Exporter.rmap word_of items ;;
         Ok (omap id ws))%res
      else Ok []
  | None => Ok []
  end.

(** The branch taken when the response has an ["error"] key. *)
Definition on_error (w : World) (index : nat) (row : Z) (res : gmap string pyval)
  : M outcome :=
  (b <- check w BeforeError ;;
   if b : bool then ret (silently index row) else
   err <- lift (as_str (default_or res "error" PNone)) ;;
   let err_msg :=
     match res !! "raw_response" with
     | Some raw => err +:+ nl +:+ take_chars 200 (py_str raw) +:+ "..."
     | None => err
     end in
   finish_item row "失败" err_msg ;;
   ret {| o_index := index; o_row := row; o_status := Some "失败"; o_result := err_msg |})%eff.

(** The branch taken on a result-shaped response. *)
Definition on_result (w : World) (self : BatchWorker) (index : nat) (row : Z)
    (filepath : string) (res : gmap string pyval) : M outcome :=
  (text_lines <- lift (text_lines_of res) ;;
   let markdown_text := default_or res "markdown" (PStr "") in
   let tables_html := default_or res "tables_html" (PList []) in
   let layout_data := default_or res "layout_data" (PList []) in
   let raw_result := default_or res "raw_result" (PDict ∅) in
   let full_text :=
     match text_lines with
     | _ :: _ => PStr (join nl text_lines)
     | [] => markdown_text
     end in
   if truthy full_text || truthy tables_html then
     text <- lift (as_str full_text) ;;
     md <- lift (as_str markdown_text) ;;
     tables <- lift (as_list tables_html) ;;
     layout <- lift (as_list layout_data) ;;
     export_result <- Exporter.save_results w self filepath text md tables layout raw_result ;;
     b <- check w AfterPersist ;;
     if b : bool then ret (silently index row) else
     finish_item row "成功" export_result ;;
     ret {| o_index := index; o_row := row; o_status := Some "成功";
            o_result := export_result |}
   else
     b <- check w BeforeNoContent ;;
     if b : bool then ret (silently index row) else
     finish_item row "无内容" "未识别到文字" ;;
     ret {| o_index := index; o_row := row; o_status := Some "无内容";
            o_result := "未识别到文字" |})%eff.

(** The start of the [try]: the "processing" status, unless stopped. *)
Definition announce (w : World) (row : Z) : M unit :=
  (b <- check w BeforeStatus ;;
   if b : bool then ret tt
   else emit (StatusUpdate row "处理中...") ;; emit (ProgressUpdate row 50 100))%eff.

(** The [try] from the check before reading the file on. *)
Definition read_and_recognise (w : World) (self : BatchWorker) (index : nat) (row : Z)
    (filepath : string) : M outcome :=
  (b <- check w BeforeRead ;;
   if b : bool then ret (silently index row) else
   act (ReadFile filepath) ;;
   file_bytes <- lift (read_file w filepath) ;;
   let file_type := file_type_of filepath in
   b <- check w BeforeApi ;;
   if b : bool then ret (silently index row) else
   res <- Ocr.ocr_file w file_bytes file_type (model_override self) true false ;;
   b <- check w AfterApi ;;
   if b : bool then ret (silently index row) else
   if has_key res "error" then on_error w index row res
   else on_result w self index row filepath res)%eff.

(** The body of the [try]. *)
Definition item_body (w : World) (self : BatchWorker) (index : nat) (row : Z)
    (filepath : string) : M outcome :=
  (announce w row ;; read_and_recognise w self index row filepath)%eff.

(** The [except Exception as e] clause. *)
Definition on_exception (w : World) (index : nat) (row : Z) (e : exn) : M outcome :=
  (b <- check w InExcept ;;
   if b : bool then ret (silently index row) else
   finish_item row "错误" (take_chars 100 (exn_msg e)) ;;
   ret {| o_index := index; o_row := row; o_status := Some "错误";
          o_result := exn_msg e |})%eff.

Definition process_single_file (w : World) (self : BatchWorker) (index : nat)
    (filepath : string) : M outcome :=
  (row_index <- lift (display_slot self index) ;;
   b <- check w BeforeStart ;;
   if b : bool then ret (silently index row_index) else
   try_except (item_body w self index row_index filepath)
              (on_exception w index row_index))%eff.

End Item.
End Pipeline.

(* ===================================================================== *)
(** * [BatchWorker.run]: submission, drain, shutdown *)
(* ===================================================================== *)
Module Run.
Import Py Eff Worker.

(** [future.done()] for the future of item [i]: the pool reports it done
    from instant [finish w i] on. *)
Definition poll (w : World) (i : nat) : M bool :=
  fun l =>
    let d := finish w i <=? length l in
    (Ok d, l ++ [Poll i d]).

(** The two signals that mark an item as stopped by the user. *)
Definition mark_stopped (self : BatchWorker) (j : nat) : M unit :=
  (row_idx <- lift (display_slot self j) ;;
   emit (StatusUpdate row_idx "已终止") ;;
   emit (ResultUpdate row_idx "用户已终止任务"))%eff.

Fixpoint for_each {A} (f : A -> M unit) (l : list A) : M unit :=
  match l with
  | [] => ret tt
  | x :: l' => (f x ;; for_each f l')%eff
  end.

(** [for _ in range(n): if stop: break; time.sleep(0.1)] *)
Fixpoint first_delay (w : World) (n : nat) : M unit :=
  match n with
  | O => ret tt
  | S n' =>
      (b <- check w DelayPoll ;;
       if b : bool then ret tt
       else act (Sleep 1) ;; first_delay w n')%eff
  end.

(** [for _ in range(n): if stop: break; if prev.done(): break; sleep(0.1)] *)
Fixpoint extra_delay (w : World) (prev : nat) (n : nat) : M unit :=
  match n with
  | O => ret tt
  | S n' =>
      (b <- check w ExtraPoll ;;
       if b : bool then ret tt else
       d <- poll w prev ;;
       if d : bool then ret tt
       else act (Sleep 1) ;; extra_delay w prev n')%eff
  end.

(** The wait between two submissions; [futures] is not empty here, its
    last key is the future just submitted. *)
Definition delay (w : World) (futures : list nat) : M unit :=
  (first_delay w 20 ;;
   b <- check w DelayDone ;;
   if b : bool then ret tt else
   match last futures with
   | Some prev =>
       d <- poll w prev ;;
       if d : bool then ret tt else extra_delay w prev 30
   | None => ret tt
   end)%eff.

(** The submission loop over [enumerate(self.files)] from index [i] on;
    it returns [was_stopped] and the futures submitted. *)
Fixpoint submit_loop (w : World) (self : BatchWorker) (i : nat) (rest : list string)
    (futures : list nat) : M (bool * list nat) :=
  match rest with
  | [] => ret (false, futures)
  | _filepath :: rest' =>
      (b <- check w SubmitCheck ;;
       if b : bool then
         for_each (mark_stopped self) (seq i (length (files self) - i)) ;;
         ret (true, futures)
       else
         act (Submit i) ;;
         let futures := futures ++ [i] in
         (if i <? length (files self) - 1 then delay w futures else ret tt) ;;
         submit_loop w self (S i) rest' futures)%eff
  end.

(** One pass over [list(pending)]: the futures found done. *)
Fixpoint poll_all (w : World) (pending : list nat) : M (list nat) :=
  match pending with
  | [] => ret []
  | i :: rest =>
      (d <- poll w i ;;
       done <- poll_all w rest ;;
       ret (if d : bool then i :: done else done))%eff
  end.

Definition remove_all (done pending : list nat) : list nat :=
  List.filter (fun i => negb (existsb (Nat.eqb i) done)) pending.

(** [while pending and not stop: ...]: [None] when the fuel runs out
    before the loop ends. *)
Fixpoint drain (fuel : nat) (w : World) (pending : list nat) : M (option (list nat)) :=
  match pending with
  | [] => ret (Some [])
  | _ :: _ =>
      match fuel with
      | O => ret None
      | S fuel' =>
          (b <- check w DrainGuard ;;
           if b : bool then ret (Some pending) else
           done <- poll_all w pending ;;
           let pending := remove_all done pending in
           match pending with
           | [] => drain fuel' w pending
           | _ :: _ =>
               b <- check w DrainSleep ;;
               (if b : bool then ret tt else act (Sleep 1)) ;;
               drain fuel' w pending
           end)%eff
      end
  end.

(** The locals that the [finally] clause reads. *)
Record locals : Type := {
  was_stopped : bool;
  executor : bool
}.

(** Directory and pool set-up; the only statements of the [try] that the
    world can make raise, and they precede every assignment to a local. *)
Definition setup (w : World) (self : BatchWorker) : M unit :=
  ((if path_exists w (output_dir self) then ret tt
    else may_raise (makedirs_raises w (output_dir self)) ;;
         act (MkDirs (output_dir self))) ;;
   (if (max_workers self <=? 0)%Z
    then raise (Exn ValueError "max_workers must be greater than 0")
    else ret tt) ;;
   may_raise (pool_raises w) ;;
   act (PoolCreated (max_workers self)))%eff.

(** The [try] block after set-up. *)
Definition orchestrate (fuel : nat) (w : World) (self : BatchWorker) : M (option locals) :=
  (sf <- submit_loop w self 0 (files self) [] ;;
   let '(stopped, futures) := sf in
   b <- check w AfterSubmit ;;
   if b : bool then
     (* _finish_immediately, then return *)
     act Shutdown ;;
     ret (Some {| was_stopped := true; executor := true |})
   else
     r <- drain fuel w futures ;;
     match r with
     | None => ret None
     | Some pending =>
         b <- check w AfterDrain ;;
         if b : bool then
           for_each (mark_stopped self) pending ;;
           ret (Some {| was_stopped := true; executor := true |})
         else ret (Some {| was_stopped := stopped; executor := true |})
     end)%eff.

(** The [finally] clause. *)
Definition finally (w : World) (loc : locals) : M unit :=
  ((if executor loc then act Shutdown else ret tt) ;;
   (if was_stopped loc then emit Stopped
    else
      b <- check w FinalCheck ;;
      if b : bool then emit Stopped else emit Finished))%eff.

(** [BatchWorker.run]; [None] when the drain loop was cut by the fuel. *)
Definition run (fuel : nat) (w : World) (self : BatchWorker) : M (option unit) :=
  (r <- try_except
         (setup w self ;; orchestrate fuel w self)
         (fun e =>
            act (Print ("Fatal batch error: " +:+ exn_msg e)) ;;
            ret (Some {| was_stopped := false; executor := false |})) ;;
   match r with
   | None => ret None
   | Some loc => finally w loc ;; ret (Some tt)
   end)%eff.

(** Fuel that suffices for a job of [n] items. *)
Definition enough (w : World) (n : nat) : nat :=
  S (list_max (map (finish w) (seq 0 n))).

(** ** The job as a whole: the coordinating thread and its tasks *)

(** The items submitted to the pool, in order. *)
Definition submitted (l : list entry) : list nat :=
  omap (fun e => match e with Submit i => Some i | _ => None end) l.

End Run.

(* ===================================================================== *)
(** * [BatchProcessor]: the coordinator *)
(* ===================================================================== *)
Module Coordinator.
Import Py Worker.

(** Worker objects live in a store and are shared by reference: the
    coordinator, the thread pool and the UI all hold the same object. *)
Record State : Type := {
  heap : gmap nat BatchWorker;
  next_ref : nat;
  current_worker : option nat;
  thread_pool : list nat
}.

(** [BatchProcessor.__init__] *)
Definition new : State :=
  {| heap := ∅; next_ref := 0; current_worker := None; thread_pool := [] |}.

(** The arguments of [process]; [batch_dir] is what
    [config.get_batch_config(mode).get("output_dir", "output")] gives. *)
Record job : Type := {
  j_mode : string;
  j_files : list string;
  j_model_override : option string;
  j_output_dir : option string;
  j_export_fmt : option string;
  j_max_workers : Z;
  j_row_indices : option (list Z);
  j_batch_dir : string
}.

(** [BatchProcessor.process]: builds a worker, holds it, returns it. *)
Definition process (s : State) (j : job) : State * nat :=
  let output_dir := if Ocr.opt_truthy (j_output_dir j) then Ocr.opt_str (j_output_dir j)
                    else j_batch_dir j in
  let export_fmt := if Ocr.opt_truthy (j_export_fmt j) then Ocr.opt_str (j_export_fmt j)
                    else "TXT" in
  let worker := init (j_mode j) (j_files j) (j_model_override j) output_dir export_fmt
                     (j_max_workers j) (j_row_indices j) in
  let r := next_ref s in
  ({| heap := <[r := worker]> (heap s); next_ref := S r;
      current_worker := Some r; thread_pool := thread_pool s |}, r).

(** [BatchProcessor.start] *)
Definition start (s : State) (worker : nat) : State :=
  {| heap := heap s; next_ref := next_ref s; current_worker := current_worker s;
     thread_pool := thread_pool s ++ [worker] |}.

(** [BatchProcessor.stop] *)
Definition stop (s : State) : State :=
  match current_worker s with
  | Some r =>
      {| heap := alter Worker.stop r (heap s); next_ref := next_ref s;
         current_worker := current_worker s; thread_pool := thread_pool s |}
  | None => s
  end.

(** What a caller can do with the coordinator. *)
Inductive call : Type :=
| Process (j : job)
| Start (worker : nat)
| Stop.

Definition step (s : State) (c : call) : State :=
  match c with
  | Process j => fst (process s j)
  | Start r => start s r
  | Stop => stop s
  end.

Definition steps (s : State) (cs : list call) : State := fold_left step cs s.

(** The token of worker [r] as its threads read it. *)
Definition token_set (s : State) (r : nat) : bool :=
  match heap s !! r with
  | Some worker => Cancel.is_set (_stop_event worker)
  | None => false
  end.

End Coordinator.

(* ===================================================================== *)
(** * Sample runtime, worlds and workers, to run the model on *)
(* ===================================================================== *)
Module Sample.
Import Py Eff Worker.

Definition lower_ascii (a : ascii) : ascii :=
  let n := nat_of_ascii a in
  if (65 <=? n) && (n <=? 90) then ascii_of_nat (n + 32) else a.

Fixpoint lower_string (s : string) : string :=
  match s with
  | EmptyString => EmptyString
  | String a s' => String (lower_ascii a) (lower_string s')
  end.

Definition is_space (a : ascii) : bool :=
  let n := nat_of_ascii a in (n =? 32) || ((9 <=? n) && (n <=? 13)).

Fixpoint lstrip (s : string) : string :=
  match s with
  | String a s' => if is_space a then lstrip s' else s
  | EmptyString => EmptyString
  end.

Definition strip_ascii (s : string) : string :=
  String.rev (lstrip (String.rev (lstrip s))).

(** A runtime for ASCII text: case and blanks as in ASCII; [repr], the
    payload encoding and the HTML parser are stand-ins. *)
Definition ascii_runtime : Runtime :=
  {| repr := fun _ => "<object>";
     strip := strip_ascii;
     lower := lower_string;
     b64encode := fun s => s;
     html_tables := fun _ => [] |}.

(** A 200 response with one recognised line. *)
Definition one_line : pyval :=
  PDict {["result" := PDict {["rec_texts" := PList [PStr "hello"]]}]}.

Definition good_response : response :=
  {| status_code := 200; text := "{...}"; json := Some one_line; json_error := "" |}.

Definition timeout : exn := Exn RequestsTimeout "read timed out".

(** PP-OCRv5 is configured; nothing ever fails; pool tasks are done at
    instant 40. *)
Definition calm (stop : option nat) (answers : nat -> post_outcome) : World :=
  {| stop_at := stop;
     config := PDict (<["current_model" := PStr "PP-OCRv5"]>
                {["models" := PDict {["PP-OCRv5" :=
                   PDict (<["url" := PStr "https://ocr.example/api"]>
                            {["token" := PStr "secret"]})]}]});
     net := answers;
     read_file := fun _ => Ok "bytes";
     open_raises := fun _ => None;
     write_raises := fun _ => None;
     import_raises := fun _ => None;
     library_raises := fun _ => None;
     path_exists := fun _ => true;
     makedirs_raises := fun _ => None;
     pool_raises := None;
     finish := fun _ => 40 |}.

(** The network answers at once. *)
Definition answering : nat -> post_outcome := fun _ => Responds good_response.

(** A world whose configuration file gives PP-OCRv5 the entry [null]:
    [{"current_model": "PP-OCRv5", "models": {"PP-OCRv5": null}}]. *)
Definition null_entry : World :=
  {| stop_at := None;
     config := PDict (<["current_model" := PStr "PP-OCRv5"]>
                {["models" := PDict {["PP-OCRv5" := PNone]}]});
     net := answering;
     read_file := fun _ => Ok "bytes";
     open_raises := fun _ => None;
     write_raises := fun _ => None;
     import_raises := fun _ => None;
     library_raises := fun _ => None;
     path_exists := fun _ => true;
     makedirs_raises := fun _ => None;
     pool_raises := None;
     finish := fun _ => 40 |}.

(** The network times out twice, then answers. *)
Definition flaky : nat -> post_outcome :=
  fun k => if k <? 2 then PostRaises timeout else Responds good_response.

(** A worker for two images, exporting text into [out]. *)
Definition two_images : BatchWorker :=
  init "images" ["scans/a.png"; "scans/b.png"] None "out" "TXT" 2 None.

(** A world in which python-docx is not installed. *)
Definition no_docx : World :=
  {| stop_at := None;
     config := PDict (<["current_model" := PStr "PP-OCRv5"]> {["models" := PDict ∅]});
     net := answering; read_file := fun _ => Ok "bytes";
     open_raises := fun _ => None; write_raises := fun _ => None;
     import_raises := fun lib => match lib with
                                 | PythonDocx => Some (Exn ImportError "No module named 'docx'")
                                 | _ => None
                                 end;
     library_raises := fun _ => None; path_exists := fun _ => true;
     makedirs_raises := fun _ => None; pool_raises := None; finish := fun _ => 0 |}.

(** A world in which python-docx is not installed and no file can be
    opened for writing. *)
Definition no_docx_read_only : World :=
  {| stop_at := None;
     config := PDict (<["current_model" := PStr "PP-OCRv5"]> {["models" := PDict ∅]});
     net := answering; read_file := fun _ => Ok "bytes";
     open_raises := fun p => Some (Exn OSError ("[Errno 13] Permission denied: " +:+ p));
     write_raises := fun _ => None;
     import_raises := fun lib => match lib with
                                 | PythonDocx => Some (Exn ImportError "No module named 'docx'")
                                 | _ => None
                                 end;
     library_raises := fun _ => None; path_exists := fun _ => true;
     makedirs_raises := fun _ => None; pool_raises := None; finish := fun _ => 0 |}.

(** A worker for one document, exporting to Word. *)
Definition to_word : BatchWorker :=
  init "docs" ["scans/a.pdf"] None "out" "Word (.docx)" 2 None.

(** A world whose output directory is missing and cannot be created. *)
Definition locked : World :=
  {| stop_at := None;
     config := config (calm None answering);
     net := answering;
     read_file := fun _ => Ok "bytes";
     open_raises := fun _ => None;
     write_raises := fun _ => None;
     import_raises := fun _ => None;
     library_raises := fun _ => None;
     path_exists := fun _ => false;
     makedirs_raises := fun _ => Some (Exn OSError "[Errno 13] Permission denied: 'out'");
     pool_raises := None;
     finish := fun _ => 40 |}.


End Sample.

(* ===================================================================== *)
(** * [HTMLTableParser]: the handlers, over a store of row and table lists *)
(* ===================================================================== *)
Module HtmlTables.
Import Py.

(** What [HTMLParser.feed] calls the handlers with: [handle_starttag(tag,
    attrs)], [handle_endtag(tag)] and [handle_data(data)]; an attribute
    without a value has [None]. *)
Inductive event : Type :=
| Start (tag : string) (attrs : list (string * option string))
| End_ (tag : string)
| Data (data : string).

(** The parser object.  Its lists are objects that the handlers append to
    after they were put into another list, so rows and tables live in
    stores and are held by reference: [row_store !! r] is the row list
    [r], [table_store !! t] the list of the rows of table [t]. *)
Record parser : Type := {
  row_store : list (list string);
  table_store : list (list nat);
  tables : list nat;
  current_table : nat;
  current_row : nat;
  current_cell : string;
  in_table : bool;
  in_row : bool;
  in_cell : bool;
  cell_colspan : Z;
  cell_rowspan : Z
}.

(** [HTMLTableParser.__init__]: [current_table = []] and [current_row = []]
    are the first objects of the stores. *)
Definition new : parser :=
  {| row_store := [[]]; table_store := [[]]; tables := [];
     current_table := 0; current_row := 0; current_cell := "";
     in_table := false; in_row := false; in_cell := false;
     cell_colspan := 1; cell_rowspan := 1 |}.

Section Handlers.
Context `{Runtime}.

(** [int(val)] where it does not raise. *)
Variable to_int : option string -> option Z.

Definition is_cell_tag (tag : string) : bool :=
  String.eqb tag "td" || String.eqb tag "th".

(** The loop over [attrs]: a [colspan] or [rowspan] that [int] accepts is
    taken, one that makes it raise is passed over. *)
Fixpoint spans (attrs : list (string * option string)) (colspan rowspan : Z) : Z * Z :=
  match attrs with
  | [] => (colspan, rowspan)
  | (attr, val) :: rest =>
      if String.eqb attr "colspan" then
        spans rest (default colspan (to_int val)) rowspan
      else if String.eqb attr "rowspan" then
        spans rest colspan (default rowspan (to_int val))
      else spans rest colspan rowspan
  end.

Definition handle_starttag (self : parser) (tag : string)
    (attrs : list (string * option string)) : parser :=
  if String.eqb tag "table" then
    {| row_store := row_store self;
       table_store := table_store self ++ [[]];
       tables := tables self;
       current_table := length (table_store self);
       current_row := current_row self; current_cell := current_cell self;
       in_table := true; in_row := in_row self; in_cell := in_cell self;
       cell_colspan := cell_colspan self; cell_rowspan := cell_rowspan self |}
  else if String.eqb tag "tr" && in_table self then
    {| row_store := row_store self ++ [[]];
       table_store := table_store self;
       tables := tables self;
       current_table := current_table self;
       current_row := length (row_store self); current_cell := current_cell self;
       in_table := in_table self; in_row := true; in_cell := in_cell self;
       cell_colspan := cell_colspan self; cell_rowspan := cell_rowspan self |}
  else if is_cell_tag tag && in_row self then
    {| row_store := row_store self;
       table_store := table_store self;
       tables := tables self;
       current_table := current_table self;
       current_row := current_row self; current_cell := "";
       in_table := in_table self; in_row := in_row self; in_cell := true;
       cell_colspan := fst (spans attrs 1 1); cell_rowspan := snd (spans attrs 1 1) |}
  else self.

Definition handle_endtag (self : parser) (tag : string) : parser :=
  if is_cell_tag tag && in_cell self then
    {| row_store :=
         alter (fun row => row ++ replicate (Z.to_nat (cell_colspan self))
                                            (strip (current_cell self)))
               (current_row self) (row_store self);
       table_store := table_store self;
       tables := tables self;
       current_table := current_table self;
       current_row := current_row self; current_cell := current_cell self;
       in_table := in_table self; in_row := in_row self; in_cell := false;
       cell_colspan := cell_colspan self; cell_rowspan := cell_rowspan self |}
  else if String.eqb tag "tr" && in_row self then
    {| row_store := row_store self;
       table_store :=
         match row_store self !! current_row self with
         | Some (_ :: _) =>
             alter (fun t => t ++ [current_row self]) (current_table self) (table_store self)
         | _ => table_store self
         end;
       tables := tables self;
       current_table := current_table self;
       current_row := current_row self; current_cell := current_cell self;
       in_table := in_table self; in_row := false; in_cell := in_cell self;
       cell_colspan := cell_colspan self; cell_rowspan := cell_rowspan self |}
  else if String.eqb tag "table" && in_table self then
    {| row_store := row_store self;
       table_store := table_store self;
       tables :=
         match table_store self !! current_table self with
         | Some (_ :: _) => tables self ++ [current_table self]
         | _ => tables self
         end;
       current_table := current_table self;
       current_row := current_row self; current_cell := current_cell self;
       in_table := false; in_row := in_row self; in_cell := in_cell self;
       cell_colspan := cell_colspan self; cell_rowspan := cell_rowspan self |}
  else self.

Definition handle_data (self : parser) (data : string) : parser :=
  if in_cell self then
    {| row_store := row_store self;
       table_store := table_store self;
       tables := tables self;
       current_table := current_table self;
       current_row := current_row self; current_cell := current_cell self +:+ data;
       in_table := in_table self; in_row := in_row self; in_cell := in_cell self;
       cell_colspan := cell_colspan self; cell_rowspan := cell_rowspan self |}
  else self.

Definition handle (self : parser) (e : event) : parser :=
  match e with
  | Start tag attrs => handle_starttag self tag attrs
  | End_ tag => handle_endtag self tag
  | Data data => handle_data self data
  end.

(** [parser.feed] as the calls it makes. *)
Definition feed (self : parser) (events : list event) : parser :=
  fold_left handle events self.

(** [parser.tables] as nested lists. *)
Definition rows_of (self : parser) (t : nat) : list (list string) :=
  map (fun r => default [] (row_store self !! r)) (default [] (table_store self !! t)).

Definition tables_of (self : parser) : list (list (list string)) :=
  map (rows_of self) (tables self).

(** What the tokenizer of [HTMLParser] makes of the content; [None] when
    [feed] raises. *)
Variable tokens : pyval -> option (list event).

(** [parse_html_tables] *)
Definition parse_html_tables (html_content : pyval) : list (list (list string)) :=
  match tokens html_content with
  | Some events => tables_of (feed new events)
  | None => []
  end.

End Handlers.
End HtmlTables.

(* ===================================================================== *)
(** * [app_config]: [DEFAULT_CONFIG] and [ConfigManager] *)
(* ===================================================================== *)
Module Config.
Import Py Eff.

(** A dict literal. *)
Definition dict (items : list (string * pyval)) : pyval := PDict (list_to_map items).

Definition quote : string := String (ascii_of_nat 34) EmptyString.

Definition prompt (mode description system_prompt user_prompt : string) : pyval :=
  dict [("mode", PStr mode); ("description", PStr description);
        ("system_prompt", PStr system_prompt); ("prompt", PStr user_prompt);
        ("enable_thinking", PBool false); ("stream", PBool false)].

Definition empty_model : pyval := dict [("url", PStr ""); ("token", PStr "")].

Definition DEFAULT_CONFIG : pyval :=
  dict [
    ("models", dict [("PP-OCRv5", empty_model); ("PP-StructureV3", empty_model);
                     ("PaddleOCR-VL", empty_model)]);
    ("current_model", PStr "PP-StructureV3");
    ("translation", dict [
       ("api_url", PStr ""); ("api_key", PStr ""); ("model", PStr "");
       ("custom_prompts", PList [
          prompt "文本翻译" "标准翻译"
            "你是一个精通 ${tolang} 的专业翻译人员。请直接输出翻译结果，不要包含任何解释。"
            "请将以下内容翻译为 ${tolang}：";
          prompt "学术翻译" "专业学术风格，准确且正式"
            "你是一个精通 ${tolang} 的专业学术翻译家。请直接输出翻译结果，不要包含任何解释。保持术语准确，行文正式。"
            "请将以下内容翻译为 ${tolang}：";
          prompt "文章润色" "优化文笔，提升流畅度"
            ("你是一个资深文学编辑。任务是润色用户提供的文本，使其更自然、流畅、优美。请直接输出润色后的正文，严禁输出"
             +:+ quote +:+ "这是润色后的版本" +:+ quote +:+ "等废话。")
            "请润色以下内容，使其更加地道：";
          prompt "内容总结" "提炼核心要点，生成摘要"
            "你是一个高效的信息分析师。请阅读文本并输出简短精炼的总结。要求：1. 只输出总结内容。2. 只要结果，不要过程。"
            "请总结以下内容的要点："])]);
    ("batch", dict [
       ("images", dict [("output_dir", PStr "output/images"); ("formats", PList [PStr "md"])]);
       ("docs", dict [("output_dir", PStr "output/docs");
                      ("formats", PList [PStr "TXT Standard (.txt)"])])]);
    ("hotkey_cature", PStr "F4");
    ("hotkey_trans_capture", PStr "F6");
    ("save_dir", PStr "output");
    ("language", PStr "zh_CN");
    ("screenshot_model", PStr "PP-OCRv5");
    ("minimize_to_tray", PBool true);
    ("hotkey_batch", PStr "Ctrl+F4");
    ("export_format", PList [PStr "md"; PStr "txt"])].

(** The manager and the file it keeps.  [disk] is the file at
    [config_path]: [None] when there is none, [Some None] when it cannot be
    opened or holds no JSON, [Some (Some v)] when it holds the JSON value
    [v]; nested dicts are held by value.  [writable] says whether opening
    the file for writing succeeds; [load_error] and [save_error] are the
    texts of the exceptions raised otherwise. *)
Record ConfigManager : Type := {
  data : pyval;
  disk : option (option pyval);
  writable : bool;
  load_error : string;
  save_error : string;
  printed : list string
}.

Definition with_data (self : ConfigManager) (d : pyval) : ConfigManager :=
  {| data := d; disk := disk self; writable := writable self;
     load_error := load_error self; save_error := save_error self;
     printed := printed self |}.

(** [_save]: a failure is printed and goes no further. *)
Definition _save (self : ConfigManager) : ConfigManager :=
  if writable self then
    {| data := data self; disk := Some (Some (data self)); writable := writable self;
       load_error := load_error self; save_error := save_error self;
       printed := printed self |}
  else
    {| data := data self; disk := disk self; writable := writable self;
       load_error := load_error self; save_error := save_error self;
       printed := printed self ++ ["Error saving config: " +:+ save_error self] |}.

(** [_load] *)
Definition _load (self : ConfigManager) : ConfigManager :=
  match disk self with
  | Some (Some v) => with_data self v
  | Some None =>
      _save {| data := DEFAULT_CONFIG; disk := disk self; writable := writable self;
               load_error := load_error self; save_error := save_error self;
               printed := printed self ++ ["Error loading config: " +:+ load_error self] |}
  | None => _save (with_data self DEFAULT_CONFIG)
  end.

(** [ConfigManager.__init__] with the file system as it finds it. *)
Definition init (disk : option (option pyval)) (writable : bool)
    (load_error save_error : string) : ConfigManager :=
  _load {| data := PDict ∅; disk := disk; writable := writable;
           load_error := load_error; save_error := save_error; printed := [] |}.

(** [v[k] = x] *)
Definition py_setitem (v : pyval) (k : string) (x : pyval) : result pyval :=
  match v with
  | PDict d => Ok (PDict (<[k := x]> d))
  | PList _ => Raise (Exn TypeError "list indices must be integers or slices, not str")
  | _ => Raise (Exn TypeError "object does not support item assignment")
  end.

(** [v.get(k, default)] where the key may be [None]. *)
Definition py_get_opt (v : pyval) (k : option string) (default : pyval) : result pyval :=
  match k with
  | Some k => py_get v k default
  | None =>
      match v with
      | PDict _ => Ok default
      | _ => Raise (Exn AttributeError "object has no attribute 'get'")
      end
  end.

(** [get] *)
Definition get (self : ConfigManager) (key : string) (default : pyval) : result pyval :=
  py_get (data self) key default.

(** [set] *)
Definition set (self : ConfigManager) (key : string) (value : pyval)
  : result ConfigManager :=
  (d <- py_setitem (data self) key value ;;
   Ok (_save (with_data self d)))%res.

(** [get_model_config] *)
Definition get_model_config (self : ConfigManager) (model_name : option string)
  : result pyval :=
  (models <- py_get (data self) "models" (PDict ∅) ;;
   py_get_opt models model_name (PDict ∅))%res.

(** [set_model_config]; the assignment into [self.data["models"]] changes
    the dict that [self.data] holds. *)
Definition set_model_config (self : ConfigManager) (model_name url token : string)
  : result ConfigManager :=
  (has <- py_in "models" (data self) ;;
   d1 <- (if has : bool then Ok (data self)
          else py_setitem (data self) "models" (PDict ∅)) ;;
   models <- py_getitem d1 "models" ;;
   models' <- py_setitem models model_name
                (PDict (<["url" := PStr url]> {["token" := PStr token]})) ;;
   d2 <- py_setitem d1 "models" models' ;;
   Ok (_save (with_data self d2)))%res.

(** [get_batch_config] *)
Definition get_batch_config (self : ConfigManager) (mode : option string) : result pyval :=
  (batch <- py_get (data self) "batch" (PDict ∅) ;;
   py_get_opt batch mode (PDict ∅))%res.

End Config.

(* ===================================================================== *)
(** * [ui.main_window]: the task tables and the batch controls *)
(* ===================================================================== *)
Module Window.
Import Py Eff.

(** ** The Qt widgets the code uses *)

(** A [QProgressBar]: [setValue] outside the range changes nothing. *)
Record QProgressBar : Type := { minimum : Z; maximum : Z; value : Z }.

Definition setValue (v : Z) (bar : QProgressBar) : QProgressBar :=
  if ((minimum bar <=? v) && (v <=? maximum bar))%Z
  then {| minimum := minimum bar; maximum := maximum bar; value := v |}
  else bar.

(** A [QTableWidgetItem]: its text and its [Qt.UserRole] data ([None] until
    [setData] gives it one). *)
Record QTableWidgetItem : Type := { item_text : string; user_role : option string }.

Definition new_item (s : string) : QTableWidgetItem :=
  {| item_text := s; user_role := None |}.

(** A row of a task table: the item of column 0, the widget of column 1
    and the item of column 2, each absent until it is set. *)
Record Row : Type := {
  name_item : option QTableWidgetItem;
  pbar : option QProgressBar;
  result_item : option QTableWidgetItem
}.

Definition Table : Type := list Row.

Definition rowCount (t : Table) : Z := Z.of_nat (length t).

Definition row_at (t : Table) (row : Z) : option Row :=
  if (row <? 0)%Z then None else t !! Z.to_nat row.

(** [t.item(row, column)]: [None] outside the table. *)
Definition item (t : Table) (row column : Z) : option QTableWidgetItem :=
  match row_at t row with
  | Some r => if (column =? 0)%Z then name_item r
              else if (column =? 2)%Z then result_item r else None
  | None => None
  end.

(** [t.cellWidget(row, column)] *)
Definition cellWidget (t : Table) (row column : Z) : option QProgressBar :=
  match row_at t row with
  | Some r => if (column =? 1)%Z then pbar r else None
  | None => None
  end.

Definition change_row (f : Row -> Row) (row : Z) (t : Table) : Table :=
  if (row <? 0)%Z then t else alter f (Z.to_nat row) t.

(** [t.setItem(row, column, it)]: nothing happens outside the table. *)
Definition setItem (t : Table) (row column : Z) (it : QTableWidgetItem) : Table :=
  change_row (fun r =>
    if (column =? 0)%Z
    then {| name_item := Some it; pbar := pbar r; result_item := result_item r |}
    else if (column =? 2)%Z
    then {| name_item := name_item r; pbar := pbar r; result_item := Some it |}
    else r) row t.


(** [t.cellWidget(row, 1).setValue(v)] on a bar that is there. *)
Definition set_bar (t : Table) (row : Z) (v : Z) : Table :=
  change_row (fun r =>
    {| name_item := name_item r; pbar := setValue v <$> pbar r;
       result_item := result_item r |}) row t.


(** [t.removeRow(row)] *)
Definition removeRow (t : Table) (row : Z) : Table :=
  if (row <? 0)%Z then t else delete (Z.to_nat row) t.

(** [range(n)] *)
Definition range (n : Z) : list Z := map Z.of_nat (seq 0 (Z.to_nat n)).

(** [any(p in s for p in patterns)] *)
Definition any_in (patterns : list string) (s : string) : bool :=
  existsb (fun p => contains p s) patterns.

(** [s in texts] for a list of strings *)
Definition one_of (texts : list string) (s : string) : bool :=
  existsb (String.eqb s) texts.

Inductive QMessageBox : Type :=
| warning (title message : string)
| information (title message : string).

Inductive tab_name : Type := Images | Docs.

(** The controls of one tab. *)
Record Tab : Type := {
  table : Table;
  combo_model : string;
  path : string;
  combo_format : string;
  combo_workers : string
}.

Definition with_table (tab : Tab) (t : Table) : Tab :=
  {| table := t; combo_model := combo_model tab; path := path tab;
     combo_format := combo_format tab; combo_workers := combo_workers tab |}.

(** The main window, the message boxes it has shown, the global
    [batch_processor] and the workers whose signals it is connected to.
    [current_table] and [current_row_indices] are attributes that
    [start_batch_processing] creates. *)
Record MainWindow : Type := {
  tabs_currentIndex : Z;
  images : Tab;
  docs : Tab;
  btn_start_enabled : bool;
  btn_stop_enabled : bool;
  btn_start_text : string;
  current_table : option tab_name;
  current_row_indices : option (list Z);
  boxes : list QMessageBox;
  batch_processor : Coordinator.State;
  connected : list nat
}.

Definition tab_of (self : MainWindow) (n : tab_name) : Tab :=
  match n with Images => images self | Docs => docs self end.

Definition table_of (self : MainWindow) (n : tab_name) : Table := table (tab_of self n).

Definition set_table (self : MainWindow) (n : tab_name) (t : Table) : MainWindow :=
  {| tabs_currentIndex := tabs_currentIndex self;
     images := match n with Images => with_table (images self) t | Docs => images self end;
     docs := match n with Images => docs self | Docs => with_table (docs self) t end;
     btn_start_enabled := btn_start_enabled self;
     btn_stop_enabled := btn_stop_enabled self;
     btn_start_text := btn_start_text self;
     current_table := current_table self;
     current_row_indices := current_row_indices self;
     boxes := boxes self;
     batch_processor := batch_processor self;
     connected := connected self |}.

Definition show (self : MainWindow) (box : QMessageBox) : MainWindow :=
  {| tabs_currentIndex := tabs_currentIndex self; images := images self; docs := docs self;
     btn_start_enabled := btn_start_enabled self;
     btn_stop_enabled := btn_stop_enabled self;
     btn_start_text := btn_start_text self;
     current_table := current_table self;
     current_row_indices := current_row_indices self;
     boxes := boxes self ++ [box];
     batch_processor := batch_processor self;
     connected := connected self |}.

Definition set_buttons (self : MainWindow) (start stop : bool) (start_text : string)
  : MainWindow :=
  {| tabs_currentIndex := tabs_currentIndex self; images := images self; docs := docs self;
     btn_start_enabled := start;
     btn_stop_enabled := stop;
     btn_start_text := start_text;
     current_table := current_table self;
     current_row_indices := current_row_indices self;
     boxes := boxes self;
     batch_processor := batch_processor self;
     connected := connected self |}.

Section Handlers.

(** [i18n.get]; what [int] makes of the text of a combo box; and what
    [config.get_batch_config(mode).get("output_dir", "output")] gives. *)
Variable i18n_get : string -> string.
Variable int : string -> result Z.
Variable batch_dir : string -> string.

(** [_has_processing_items] *)
Definition processing_texts : list string := ["处理中..."; "Processing..."].

Definition shows_processing (t : Table) : bool :=
  existsb (fun row =>
    match item t row 2 with
    | Some result_item => one_of processing_texts (item_text result_item)
    | None => false
    end) (range (rowCount t)).

Definition _has_processing_items (self : MainWindow) : bool :=
  shows_processing (table (images self)) || shows_processing (table (docs self)).

(** [clear_completed_rows] *)
Definition completed_statuses : list string := ["成功"; "完成"; "已导出"; "无内容"].

Definition rows_to_remove (t : Table) : list Z :=
  List.filter (fun row =>
    match item t row 2 with
    | Some result_item => any_in completed_statuses (item_text result_item)
    | None => false
    end) (range (rowCount t)).

Definition clear_completed_rows (table_widget : Table) : Table :=
  fold_left removeRow (rev (rows_to_remove table_widget)) table_widget.



(** ** [start_batch_processing] *)

Definition success_patterns : list string := ["成功"; "已导出"; "Success"; "Exported"].

Definition no_attribute (name : string) : exn :=
  Exn AttributeError ("'NoneType' object has no attribute '" +:+ name +:+ "'").

(** The loop over the rows: the files and the rows collected so far, and
    the table as the loop leaves it. *)
Fixpoint collect (rows : list Z) (files : list string) (row_indices : list Z)
    (target_table : Table) : result (list string * list Z) * Table :=
  match rows with
  | [] => (Ok (files, row_indices), target_table)
  | r :: rows =>
      let result_item := item target_table r 2 in
      let result_text := match result_item with
                         | Some it => item_text it
                         | None => ""
                         end in
      let is_already_done := any_in success_patterns result_text in
      if is_already_done then collect rows files row_indices target_table
      else
        match item target_table r 0 with
        | None => (Raise (no_attribute "data"), target_table)
        | Some it =>
            let files := files ++ [if Ocr.opt_truthy (user_role it)
                                   then Ocr.opt_str (user_role it)
                                   else item_text it] in
            let row_indices := row_indices ++ [r] in
            match cellWidget target_table r 1 with
            | None => (Raise (no_attribute "setValue"), target_table)
            | Some _ =>
                let t := set_bar target_table r 0 in
                let t := setItem t r 2 (new_item (i18n_get "status_pending")) in
                collect rows files row_indices t
            end
        end
  end.

Definition start_batch_processing (self : MainWindow) : result unit * MainWindow :=
  let idx := tabs_currentIndex self in
  let target := if (idx =? 0)%Z then Images else Docs in
  let mode := if (idx =? 0)%Z then "images" else "docs" in
  let model_override := combo_model (tab_of self target) in
  let output_dir := path (tab_of self target) in
  let export_fmt := combo_format (tab_of self target) in
  match int (combo_workers (tab_of self target)) with
  | Raise e => (Raise e, self)
  | Ok max_workers =>
      let target_table := table_of self target in
      let row_count := rowCount target_table in
      if (row_count =? 0)%Z
      then (Ok tt, show self (warning (i18n_get "msg_error") (i18n_get "msg_no_files")))
      else
        match collect (range row_count) [] [] target_table with
        | (Raise e, t) => (Raise e, set_table self target t)
        | (Ok (files, row_indices), t) =>
            let self := set_table self target t in
            match files with
            | [] => (Ok tt, show self (information "SmartOCR"
                                         "所有任务已完成，无需重新执行。"))
            | _ :: _ =>
                let self := set_buttons self false true (i18n_get "status_processing") in
                let '(processor, worker) :=
                  Coordinator.process (batch_processor self)
                    {| Coordinator.j_mode := mode;
                       Coordinator.j_files := files;
                       Coordinator.j_model_override := Some model_override;
                       Coordinator.j_output_dir := Some output_dir;
                       Coordinator.j_export_fmt := Some export_fmt;
                       Coordinator.j_max_workers := max_workers;
                       Coordinator.j_row_indices := Some row_indices;
                       Coordinator.j_batch_dir := batch_dir mode |} in
                (Ok tt,
                 {| tabs_currentIndex := tabs_currentIndex self;
                    images := images self; docs := docs self;
                    btn_start_enabled := btn_start_enabled self;
                    btn_stop_enabled := btn_stop_enabled self;
                    btn_start_text := btn_start_text self;
                    current_table := Some target;
                    current_row_indices := Some row_indices;
                    boxes := boxes self;
                    batch_processor := Coordinator.start processor worker;
                    connected := connected self ++ [worker] |})
            end
        end
  end.


(** ** The slots *)







(** [on_batch_stopped] *)
Definition unsettled_texts : list string :=
  ["处理中..."; "待处理"; "Processing..."; "Pending"].

Definition mark_unsettled (t : Table) : Table :=
  fold_left (fun t row =>
    match item t row 2 with
    | Some result_item =>
        if one_of unsettled_texts (item_text result_item)
        then setItem t row 2 (new_item "用户已终止任务")
        else t
    | None => t
    end) (range (rowCount t)) t.

Definition on_batch_stopped (self : MainWindow) : MainWindow :=
  let self := match current_table self with
              | Some n => set_table self n (mark_unsettled (table_of self n))
              | None => self
              end in
  set_buttons self true false (i18n_get "btn_restart").


End Handlers.
End Window.

(* ===================================================================== *)
(** * Facts about effects and logs *)
(* ===================================================================== *)
Module EffFacts.
Import Py Eff.

Lemma reads_set_mono (o : option nat) (t t' : nat) :
  t <= t' -> Cancel.reads_set o t = true -> Cancel.reads_set o t' = true.
Proof.
  destruct o as [s|]; simpl; [|discriminate].
  intros Hle Hs. apply Nat.leb_le in Hs. apply Nat.leb_le. lia.
Qed.

Lemma signals_app (l d : list entry) : signals (l ++ d) = signals l ++ signals d.
Proof. unfold signals. apply omap_app. Qed.

Lemma observed_app (l d : list entry) : observed (l ++ d) = observed l || observed d.
Proof. unfold observed. apply existsb_app. Qed.

Lemma honest_from_app (w : World) (i : nat) (l d : list entry) :
  honest_from w i (l ++ d) = honest_from w i l && honest_from w (i + length l) d.
Proof.
  revert i. induction l as [|e l IH]; intros i; simpl.
  - now rewrite Nat.add_0_r.
  - replace (i + S (length l)) with (S i + length l) by lia.
    destruct e; rewrite ?IH; try reflexivity.
    now rewrite andb_assoc.
Qed.

(** A read that found the token set stays true: the token is still set at
    the end of an honest stretch of log. *)
Lemma honest_observed (w : World) (i : nat) (d : list entry) :
  honest_from w i d = true -> observed d = true ->
  Cancel.reads_set (stop_at w) (i + length d) = true.
Proof.
  revert i. induction d as [|e d IH]; intros i Hh Ho; simpl in *; [discriminate|].
  replace (i + S (length d)) with (S i + length d) by lia.
  destruct e as [s v| | | | | | | | | | | |]; simpl in Ho;
    try (apply IH; assumption).
  apply andb_true_iff in Hh as [Hv Hh].
  destruct v; simpl in Ho.
  - apply Bool.eqb_prop in Hv. symmetry in Hv.
    eapply reads_set_mono; [|exact Hv]. lia.
  - apply IH; assumption.
Qed.

Lemma honest_unobserved (w : World) (i : nat) (d : list entry) :
  honest_from w i d = true ->
  Cancel.reads_set (stop_at w) (i + length d) = false ->
  observed d = false.
Proof.
  intros Hh Hr. destruct (observed d) eqn:Ho; [|reflexivity].
  rewrite (honest_observed w i d Hh Ho) in Hr. discriminate.
Qed.

Lemma no_signal_signals (d : list entry) : Forall no_signal d -> signals d = [].
Proof.
  induction 1 as [|e d He _ IH]; [reflexivity|].
  unfold no_signal in He. destruct e; simpl in *; try discriminate; exact IH.
Qed.

Lemma plain_no_signal (d : list entry) : Forall plain d -> Forall no_signal d.
Proof.
  intros Hd. eapply Forall_impl; [exact Hd|].
  intros e He. destruct e; simpl in *; try reflexivity; contradiction.
Qed.

Lemma plain_unobserved (d : list entry) : Forall plain d -> observed d = false.
Proof.
  induction 1 as [|e d He _ IH]; [reflexivity|].
  destruct e; simpl in *; try contradiction; exact IH.
Qed.

Lemma plain_honest (w : World) (i : nat) (d : list entry) :
  Forall plain d -> honest_from w i d = true.
Proof.
  intros Hd. revert i. induction Hd as [|e d He _ IH]; intros i; [reflexivity|].
  destruct e; simpl in *; try contradiction; apply IH.
Qed.

(** ** Rules for [sound] *)

Section Rules.
Context {w : World} {Q : entry -> Prop}.

Lemma sound_ret {A} (a : A) : sound w Q (ret a).
Proof. intros l. exists []. simpl. rewrite app_nil_r. auto. Qed.

Lemma sound_raise {A} (e : exn) : sound w Q (@raise A e).
Proof. intros l. exists []. simpl. rewrite app_nil_r. auto. Qed.

Lemma sound_lift {A} (r : result A) : sound w Q (lift r).
Proof. intros l. exists []. simpl. rewrite app_nil_r. auto. Qed.

Lemma sound_may_raise (o : option exn) : sound w Q (may_raise o).
Proof. destruct o; [apply sound_raise | apply sound_ret]. Qed.

Lemma sound_bind {A B} (m : M A) (f : A -> M B) :
  sound w Q m -> (forall a, sound w Q (f a)) -> sound w Q (bind m f).
Proof.
  intros Hm Hf l. destruct (Hm l) as (d1 & E1 & Q1 & H1).
  unfold bind. destruct (m l) as [[a|e] l1]; simpl in E1; subst l1.
  - destruct (Hf a (l ++ d1)) as (d2 & E2 & Q2 & H2).
    exists (d1 ++ d2). rewrite E2, app_assoc. split; [reflexivity|].
    split; [apply Forall_app; auto|].
    rewrite honest_from_app, H1. rewrite length_app in H2. exact H2.
  - exists d1. auto.
Qed.

Lemma sound_try {A} (m : M A) (h : exn -> M A) :
  sound w Q m -> (forall e, sound w Q (h e)) -> sound w Q (try_except m h).
Proof.
  intros Hm Hh l. destruct (Hm l) as (d1 & E1 & Q1 & H1).
  unfold try_except. destruct (m l) as [[a|e] l1]; simpl in E1; subst l1.
  - exists d1. auto.
  - destruct (Hh e (l ++ d1)) as (d2 & E2 & Q2 & H2).
    exists (d1 ++ d2). rewrite E2, app_assoc. split; [reflexivity|].
    split; [apply Forall_app; auto|].
    rewrite honest_from_app, H1. rewrite length_app in H2. exact H2.
Qed.

Lemma sound_act (e : entry) :
  Q e -> (forall s v, e <> Check s v) -> sound w Q (act e).
Proof.
  intros He Hc l. exists [e]. simpl. split; [reflexivity|]. split; [auto|].
  destruct e; try reflexivity. exfalso. eapply Hc. reflexivity.
Qed.

Lemma sound_check (s : site) :
  (forall v, Q (Check s v)) -> sound w Q (check w s).
Proof.
  intros He l. exists [Check s (Cancel.reads_set (stop_at w) (length l))].
  simpl. split; [reflexivity|]. split; [auto|].
  now rewrite Bool.eqb_reflx.
Qed.

End Rules.

Lemma sound_weaken {A} (w : World) (Q Q' : entry -> Prop) (m : M A) :
  (forall e, Q e -> Q' e) -> sound w Q m -> sound w Q' m.
Proof.
  intros HQ Hm l. destruct (Hm l) as (d & E & Hd & Hh).
  exists d. split; [exact E|]. split; [|exact Hh].
  eapply Forall_impl; [exact Hd|exact HQ].
Qed.

(** One step of a proof of [sound], following the shape of the program. *)
Ltac sound_step :=
  lazymatch goal with
  | |- sound _ _ (bind _ _) => apply sound_bind; [|intros ?]
  | |- sound _ _ (try_except _ _) => apply sound_try; [|intros ?]
  | |- sound _ _ (ret _) => apply sound_ret
  | |- sound _ _ (raise _) => apply sound_raise
  | |- sound _ _ (lift _) => apply sound_lift
  | |- sound _ _ (may_raise _) => apply sound_may_raise
  | |- sound _ _ (check _ _) => apply sound_check; intros ?; exact eq_refl
  | |- sound _ _ (emit _) => unfold emit
  | |- sound _ _ (act _) => apply sound_act; [|intros ? ?; discriminate]
  | |- sound _ _ (if ?b then _ else _) => destruct b
  | |- sound _ _ (match ?x with _ => _ end) => destruct x
  end.

End EffFacts.

(* ===================================================================== *)
(** * Facts about the OCR client *)
(* ===================================================================== *)
Module OcrFacts.
Import Py Eff Ocr EffFacts.

(** The two shapes of a response dictionary. *)
Definition error_shaped (d : gmap string pyval) : bool := has_key d "error".

Definition result_shaped (d : gmap string pyval) : bool :=
  has_key d "words_result" && has_key d "markdown" && has_key d "tables_html"
  && has_key d "layout_data" && negb (has_key d "error").

Definition shaped (d : gmap string pyval) : Prop :=
  error_shaped d = true \/ result_shaped d = true.

(** The failures that [ocr_file] retries. *)
Definition transient_class (c : exn_class) : bool :=
  match c with
  | RequestsTimeout | RequestsConnectionError => true
  | _ => false
  end.

Definition transient (o : post_outcome) : bool :=
  match o with
  | PostRaises e => transient_class (exn_cls e)
  | Responds _ => false
  end.

(** The attempt numbers of the POSTs in a log. *)
Definition attempts_of (l : list entry) : list nat :=
  omap (fun e => match e with Post k _ _ _ => Some k | _ => None end) l.

(** An expression that raises no exception of the [requests] library. *)
Definition local_raise {A} (r : result A) : Prop :=
  forall e, r = Raise e -> transient_class (exn_cls e) = false.

(** The request is not cancelled: no event was passed, or it is never set. *)
Definition uncancelled (w : World) (has_event : bool) : Prop :=
  has_event = false \/ stop_at w = None.

(** What [ocr_file] reads from the configuration before its [try]: the
    model in use, its URL and its token. *)
Definition settings (w : World) (model_override : option string)
  : result (pyval * pyval * pyval) :=
  (current <- current_model w model_override ;;
   model_config <- get_model_config w current ;;
   api_url <- py_get model_config "url" PNone ;;
   token <- py_get model_config "token" PNone ;;
   Ok (current, api_url, token))%res.

(** The model in use: the override, or else what the configuration names. *)
Definition model_of (w : World) (model_override : option string) : pyval :=
  match current_model w model_override with
  | Ok current => current
  | Raise _ => PNone
  end.

(** The model has a URL and a token configured. *)
Definition configured (w : World) (model_override : option string) : Prop :=
  exists api_url token,
    settings w model_override = Ok (model_of w model_override, api_url, token) /\
    truthy api_url = true /\ truthy token = true.

(** The configuration has the shape that [ocr_file] expects of it: it is a
    dict; its ["models"], if any, is a dict; the entry of the model in use,
    if any, is a dict; and the model named by the configuration, when it is
    the one in use, is not a list or a dict. *)
Definition hashable (v : pyval) : Prop :=
  match v with
  | PList _ | PDict _ => False
  | _ => True
  end.

Definition well_formed (w : World) (model_override : option string) : Prop :=
  exists d,
    config w = PDict d /\
    (opt_truthy model_override = false ->
     forall v, d !! "current_model" = Some v -> hashable v) /\
    (forall v, d !! "models" = Some v ->
     exists ms, v = PDict ms /\
       forall name e, model_of w model_override = PStr name -> ms !! name = Some e ->
                      exists entry, e = PDict entry).

(** The body of a 200 response carries a non-zero [errorCode]. *)
Definition embedded_error (j : pyval) : Prop :=
  exists c, py_in "errorCode" j = Ok true /\ py_getitem j "errorCode" = Ok c /\
            py_ne_zero c = true.

Definition no_embedded_error (j : pyval) : Prop :=
  py_in "errorCode" j = Ok false \/
  exists c, py_in "errorCode" j = Ok true /\ py_getitem j "errorCode" = Ok c /\
            py_ne_zero c = false.

(** What one pass of the retry loop leaves in the log. *)
Definition attempt_spec (w : World) (k : nat) (s : step) (d : list entry) : Prop :=
  match s with
  | Next _ =>
      attempts_of d = [k] /\ transient (net w k) = true /\
      sleeps d = (if k <? max_retries then [10] else [])
  | Return _ => sleeps d = [] /\ (attempts_of d = [] \/ attempts_of d = [k])
  end.

Ltac atomic x :=
  lazymatch x with
  | context [match _ with _ => _ end] => fail
  | context [if _ then _ else _] => fail
  | context [let (_, _) := _ in _] => fail
  | _ => idtac
  end.

(** Case analysis along the paths of a computation, innermost test first. *)
Ltac paths :=
  repeat (simpl in *;
          match goal with
          | |- context [if ?b then _ else _] => atomic b; destruct b eqn:?
          | |- context [match ?x with _ => _ end] => atomic x; destruct x eqn:?
          | |- context [let (_, _) := ?x in _] => atomic x; destruct x eqn:?
          end).

Lemma attempts_of_app (l d : list entry) :
  attempts_of (l ++ d) = attempts_of l ++ attempts_of d.
Proof. unfold attempts_of. apply omap_app. Qed.

Lemma sleeps_app (l d : list entry) : sleeps (l ++ d) = sleeps l ++ sleeps d.
Proof. unfold sleeps. apply omap_app. Qed.

Lemma rbind_ok {A B} (r : result A) (f : A -> result B) (b : B) :
  rbind r f = Ok b -> exists a, r = Ok a /\ f a = Ok b.
Proof. destruct r as [a|e]; simpl; [eauto|discriminate]. Qed.

Lemma local_ok {A} (a : A) : local_raise (Ok a).
Proof. intros e; discriminate. Qed.

Lemma local_rbind {A B} (r : result A) (f : A -> result B) :
  local_raise r -> (forall a, local_raise (f a)) -> local_raise (rbind r f).
Proof.
  intros Hr Hf. destruct r as [a|e]; simpl; [apply Hf|].
  intros e' E. injection E as <-. apply Hr. reflexivity.
Qed.

Lemma local_raise_here {A} (c : exn_class) (msg : string) :
  transient_class c = false -> local_raise (@Raise A (Exn c msg)).
Proof. intros Hc e E. injection E as <-. exact Hc. Qed.

Lemma local_rfold {A B} (f : A -> B -> result A) (a : A) (l : list B) :
  (forall a x, local_raise (f a x)) -> local_raise (rfold f a l).
Proof.
  intros Hf. revert a. induction l as [|x l IH]; intros a; simpl.
  - apply local_ok.
  - apply local_rbind; [apply Hf | intros a'; apply IH].
Qed.

Lemma local_rmap {A B} (f : A -> result B) (l : list A) :
  (forall x, local_raise (f x)) -> local_raise (Exporter.rmap f l).
Proof.
  intros Hf. induction l as [|x l IH]; simpl.
  - apply local_ok.
  - apply local_rbind; [apply Hf | intros y].
    apply local_rbind; [exact IH | intros ys; apply local_ok].
Qed.

Lemma local_strs_of (lines : list pyval) : local_raise (strs_of lines).
Proof.
  induction lines as [|v lines IH]; simpl; [apply local_ok|].
  destruct v; try (apply local_raise_here; reflexivity).
  apply local_rbind; [exact IH | intros ss; apply local_ok].
Qed.

(** One step of a proof of [local_raise], following the expression. *)
Ltac local_step :=
  lazymatch goal with
  | |- local_raise (rbind _ _) => apply local_rbind; [|intros ?]
  | |- local_raise (Ok _) => apply local_ok
  | |- local_raise (Raise (Exn _ _)) => apply local_raise_here; reflexivity
  | |- local_raise (rfold _ _ _) => apply local_rfold; intros ? ?
  | |- local_raise (strs_of _) => apply local_strs_of
  | |- local_raise (if ?b then _ else _) => destruct b
  | |- local_raise (match ?x with _ => _ end) => destruct x
  end.

Section Client.
Context `{Runtime}.

(** ** The pure part raises nothing that would be retried *)

Lemma local_py_in k v : local_raise (py_in k v).
Proof. unfold py_in. repeat local_step. Qed.

Lemma local_py_getitem v k : local_raise (py_getitem v k).
Proof. unfold py_getitem. repeat local_step. Qed.

Lemma local_py_get v k dflt : local_raise (py_get v k dflt).
Proof. unfold py_get. repeat local_step. Qed.

Lemma local_py_iter v : local_raise (py_iter v).
Proof. unfold py_iter. repeat local_step. Qed.

Create HintDb local.
#[local] Hint Resolve local_py_in local_py_getitem local_py_get local_py_iter : local.

Ltac local_auto := repeat first [solve [auto with local] | local_step].

Lemma local_strs_in v : local_raise (strs_in v).
Proof. unfold strs_in. local_auto. Qed.

Lemma local_list_at k v : local_raise (list_at k v).
Proof. unfold list_at. local_auto. Qed.

#[local] Hint Resolve local_strs_in local_list_at : local.

Lemma local_layout_item a item : local_raise (layout_item a item).
Proof.
  unfold layout_item, add_markdown, add_tables, add_table, add_pruned_layout,
    add_blocks, add_block, add_newlines.
  local_auto.
Qed.

Lemma local_ocr_item a item : local_raise (ocr_item a item).
Proof. unfold ocr_item. local_auto. Qed.

Lemma local_structure_item a item : local_raise (structure_item a item).
Proof. unfold structure_item. local_auto. Qed.

#[local] Hint Resolve local_layout_item local_ocr_item local_structure_item : local.

Lemma local_parse_result json_data model : local_raise (_parse_result json_data model).
Proof.
  unfold _parse_result, each_of, result_level, structure_level, build_result,
    keys_of, join_lines.
  local_auto.
Qed.

Lemma local_interpret cur r : local_raise (interpret cur r).
Proof.
  unfold interpret, response_json.
  repeat first [apply local_parse_result | solve [auto with local] | local_step].
Qed.

(** ** No signal, honest reads *)

Lemma stop_check_sound w has s : sound w no_signal (stop_check w has s).
Proof. unfold stop_check. repeat sound_step. Qed.

Lemma post_sound w k url auth payload : sound w no_signal (post w k url auth payload).
Proof. unfold post. repeat sound_step. reflexivity. Qed.

Lemma attempt_body_sound w has url auth payload cur k :
  sound w no_signal (attempt_body w has url auth payload cur k).
Proof.
  unfold attempt_body.
  repeat first [apply stop_check_sound | apply post_sound | sound_step].
Qed.

Lemma backoff_sound w k : sound w no_signal (backoff k).
Proof. unfold backoff. repeat sound_step. reflexivity. Qed.

Lemma one_attempt_sound w has url auth payload cur k :
  sound w no_signal (one_attempt w has url auth payload cur k).
Proof.
  unfold one_attempt.
  repeat first [apply stop_check_sound | apply attempt_body_sound
               | apply backoff_sound | sound_step].
Qed.

Lemma retry_loop_sound w has url auth payload cur range le :
  sound w no_signal (retry_loop w has url auth payload cur range le).
Proof.
  revert le. induction range as [|k range IH]; intros le; simpl.
  - sound_step.
  - repeat first [apply one_attempt_sound | apply IH | sound_step].
Qed.

Lemma ocr_file_sound w data ft mo has opt :
  sound w no_signal (ocr_file w data ft mo has opt).
Proof.
  unfold ocr_file.
  repeat first [apply stop_check_sound | apply retry_loop_sound | sound_step].
Qed.

(** ** Shapes *)

Lemma build_result_shaped (json_data res : pyval) (a : acc) (d : gmap string pyval) :
  build_result json_data res a = Ok d -> result_shaped d = true.
Proof.
  unfold build_result.
  destruct (no_lines a && negb (str_nonempty (markdown_text a))
            && negb (truthy (PList (tables_html a)))).
  - intros (ks & _ & E)%rbind_ok. injection E as <-. reflexivity.
  - intros (ft & _ & E)%rbind_ok. injection E as <-. reflexivity.
Qed.

Lemma parse_result_shaped (json_data : pyval) (model : pyval)
    (d : gmap string pyval) :
  _parse_result json_data model = Ok d -> result_shaped d = true.
Proof.
  unfold _parse_result.
  intros (res & _ & (a1 & _ & (a2 & _ & (a3 & _ & (a4 & _ & E)%rbind_ok)%rbind_ok
          )%rbind_ok)%rbind_ok)%rbind_ok.
  eapply build_result_shaped, E.
Qed.

Lemma interpret_shaped cur r d : interpret cur r = Ok d -> shaped d.
Proof.
  unfold interpret, response_json, rbind.
  paths; intros E; try discriminate; try (injection E as <-; left; reflexivity).
  all: right; eapply parse_result_shaped; eassumption.
Qed.

Lemma attempt_body_shaped w has url auth payload cur k l d l' :
  attempt_body w has url auth payload cur k l = (Ok d, l') -> shaped d.
Proof.
  unfold attempt_body, stop_check, post.
  unfold bind, check, act, ret, lift, raise.
  paths; intros E; try discriminate; injection E as E1 E2; subst;
    try (left; reflexivity).
  all: eapply interpret_shaped; eassumption.
Qed.

Lemma one_attempt_ok w has url auth payload cur k l :
  exists s, fst (one_attempt w has url auth payload cur k l) = Ok s /\
    match s with Return d => shaped d | Next _ => True end.
Proof.
  unfold one_attempt, try_except.
  destruct (((d <- attempt_body w has url auth payload cur k ;; ret (Return d))%eff) l)
    as [[s|e] l1] eqn:E.
  - exists s. split; [reflexivity|].
    unfold bind in E.
    destruct (attempt_body w has url auth payload cur k l) as [[d|e] l2] eqn:E2;
      [|discriminate].
    injection E as <- <-. eapply attempt_body_shaped, E2.
  - unfold backoff, stop_check, bind, check, act, ret.
    paths; eexists; (split; [reflexivity|]); try exact I; left; reflexivity.
Qed.

Lemma retry_loop_ok w has url auth payload cur range le l :
  exists d, fst (retry_loop w has url auth payload cur range le l) = Ok d /\ shaped d.
Proof.
  revert le l. induction range as [|k range IH]; intros le l; simpl.
  - eexists. split; [reflexivity|]. left. reflexivity.
  - unfold bind.
    destruct (one_attempt_ok w has url auth payload cur k l) as (s & Es & Hs).
    destruct (one_attempt w has url auth payload cur k l) as [r l1]. simpl in Es. subst r.
    destruct s as [d|le'].
    + exists d. split; [reflexivity|exact Hs].
    + apply IH.
Qed.

(** ** The configuration lookups *)

(** [ocr_file], once past the check on entry. *)
Definition after_entry (w : World) (file_data : string) (file_type : Z)
    (model_override : option string) (has_event optimize : bool)
  : M (gmap string pyval) :=
  fun l =>
    match settings w model_override with
    | Raise e => (Raise e, l)
    | Ok (current, api_url, token) =>
        if negb (truthy api_url) || negb (truthy token) then
          (Ok (error_dict ("缺少 " +:+ py_str current
                           +:+ " 的 URL 或 Token，请在设置中配置。")), l)
        else
          retry_loop w has_event (py_str api_url) ("token " +:+ py_str token)
            (build_payload file_data file_type current optimize) current
            (seq 0 (max_retries + 1)) None l
    end.

Lemma ocr_file_entry w file_data file_type model_override has_event optimize l :
  ocr_file w file_data file_type model_override has_event optimize l
  = match stop_check w has_event ClientEntry l with
    | (Ok true, l1) => (Ok terminated, l1)
    | (Ok false, l1) =>
        after_entry w file_data file_type model_override has_event optimize l1
    | (Raise e, l1) => (Raise e, l1)
    end.
Proof.
  unfold ocr_file, after_entry, settings, bind at 1.
  destruct (stop_check w has_event ClientEntry l) as [[[|]|e] l1]; try reflexivity.
  unfold bind, lift, ret.
  destruct (current_model w model_override) as [current|e]; [|reflexivity]. cbn [rbind].
  destruct (get_model_config w current) as [model_config|e]; [|reflexivity]. cbn [rbind].
  destruct (py_get model_config "url" PNone) as [api_url|e]; [|reflexivity]. cbn [rbind].
  destruct (py_get model_config "token" PNone) as [token|e]; [|reflexivity]. cbn [rbind].
  now destruct (negb _ || negb _).
Qed.

Lemma stop_check_returns w has_event s l :
  exists b d, stop_check w has_event s l = (Ok b, l ++ d) /\
    attempts_of d = [] /\ sleeps d = [] /\
    (has_event = true -> d = [Check s (Cancel.reads_set (stop_at w) (length l))] /\
                         b = Cancel.reads_set (stop_at w) (length l)) /\
    (has_event = false -> d = [] /\ b = false).
Proof.
  unfold stop_check, check, ret. destruct has_event.
  - do 2 eexists. repeat split; discriminate.
  - exists false, []. rewrite app_nil_r. repeat split; discriminate.
Qed.

Lemma settings_inv w model_override current api_url token :
  settings w model_override = Ok (current, api_url, token) ->
  exists model_config,
    current_model w model_override = Ok current /\
    get_model_config w current = Ok model_config /\
    py_get model_config "url" PNone = Ok api_url /\
    py_get model_config "token" PNone = Ok token.
Proof.
  unfold settings.
  destruct (current_model w model_override) as [c|e] eqn:Ec; [|discriminate]. cbn [rbind].
  destruct (get_model_config w c) as [mc|e] eqn:Em; [|discriminate]. cbn [rbind].
  destruct (py_get mc "url" PNone) as [u|e] eqn:Eu; [|discriminate]. cbn [rbind].
  destruct (py_get mc "token" PNone) as [t|e] eqn:Et; [|discriminate]. cbn [rbind].
  intros [= <- <- <-]. now exists mc.
Qed.

(** A well-formed configuration can be read. *)
Lemma settings_ok w model_override :
  well_formed w model_override ->
  exists api_url token,
    settings w model_override = Ok (model_of w model_override, api_url, token).
Proof.
  intros (d & Hc & Hcur & Hm).
  assert (exists current, current_model w model_override = Ok current /\
            (opt_truthy model_override = false ->
             current = default_or d "current_model" PNone)) as (current & Ecur & Hwhich).
  { unfold current_model. rewrite Hc.
    destruct (opt_truthy model_override); eexists; split; try reflexivity; discriminate. }
  assert (hashable current) as Hh.
  { revert Ecur. unfold current_model.
    destruct (opt_truthy model_override) eqn:Eo.
    - intros [= <-]. exact I.
    - intros _. rewrite (Hwhich eq_refl). unfold default_or.
      destruct (d !! "current_model") as [v|] eqn:Ev; [exact (Hcur eq_refl v eq_refl)|exact I]. }
  assert (model_of w model_override = current) as Emodel
    by (unfold model_of; now rewrite Ecur).
  rewrite Emodel in *.
  assert (exists ms, py_get (config w) "models" (PDict ∅) = Ok (PDict ms) /\
            forall name e, current = PStr name -> ms !! name = Some e ->
                           exists entry, e = PDict entry) as (ms & Ems & Hentry).
  { rewrite Hc. cbn [py_get]. unfold default_or.
    destruct (d !! "models") as [v|] eqn:Ev.
    - destruct (Hm v eq_refl) as (ms & -> & Hms). now exists ms.
    - exists ∅. split; [reflexivity|]. intros name e _ He.
      now rewrite lookup_empty in He. }
  assert (exists entry, get_model_config w current = Ok (PDict entry)) as (entry & Eentry).
  { unfold get_model_config. rewrite Ems. cbn [rbind py_get_key].
    destruct current as [| | | |name| |]; try (now exists ∅); try contradiction.
    unfold default_or. destruct (ms !! name) as [e|] eqn:Ee; [|now exists ∅].
    destruct (Hentry name e eq_refl Ee) as (entry & ->). now exists entry. }
  unfold settings. rewrite Ecur. cbn [rbind]. rewrite Eentry. cbn [rbind py_get].
  now eexists _, _.
Qed.

(** What the configuration lookups can raise. *)
Lemma settings_raises w model_override e :
  settings w model_override = Raise e ->
  exn_cls e = AttributeError \/ exn_cls e = TypeError.
Proof.
  assert (Hget : forall v k dflt e', py_get v k dflt = Raise e' ->
                                     exn_cls e' = AttributeError).
  { intros v k dflt e'. destruct v; simpl; try discriminate; now intros [= <-]. }
  unfold settings, current_model, get_model_config.
  destruct (opt_truthy model_override).
  - cbn [rbind].
    destruct (py_get (config w) "models" (PDict ∅)) as [models|e1] eqn:E1;
      [|intros [= <-]; left; eapply Hget, E1].
    cbn [rbind]. destruct models; simpl; try (intros [= <-]; now left).
    match goal with |- context [py_get ?v "url" PNone] =>
      destruct (py_get v "url" PNone) as [u|e2] eqn:E2;
        [|intros [= <-]; left; eapply Hget, E2];
      cbn [rbind];
      destruct (py_get v "token" PNone) as [t|e3] eqn:E3;
        [discriminate|intros [= <-]; left; eapply Hget, E3]
    end.
  - destruct (py_get (config w) "current_model" PNone) as [current|e0] eqn:E0;
      [|intros [= <-]; left; eapply Hget, E0].
    cbn [rbind].
    destruct (py_get (config w) "models" (PDict ∅)) as [models|e1] eqn:E1;
      [|intros [= <-]; left; eapply Hget, E1].
    cbn [rbind].
    destruct (py_get_key models current (PDict ∅)) as [entry|e4] eqn:E4.
    + cbn [rbind].
      destruct (py_get entry "url" PNone) as [u|e2] eqn:E2;
        [|intros [= <-]; left; eapply Hget, E2].
      cbn [rbind].
      destruct (py_get entry "token" PNone) as [t|e3] eqn:E3;
        [discriminate|intros [= <-]; left; eapply Hget, E3].
    + intros [= <-]. revert E4. unfold py_get_key.
      destruct models; try (intros [= <-]; now left).
      destruct current; try discriminate; intros [= <-]; now right.
Qed.

(** The amended C6.  When an event was passed and is already set on
    entry, [ocr_file] returns the termination error after that single read,
    without any POST, whatever the configuration.  With a well-formed
    configuration it never raises: whatever the network and the moment of
    cancellation, it returns a dictionary that has an ["error"] key or the
    keys of a result.  And in every world it raises only what the
    configuration lookups before its [try] raise, an [AttributeError] or a
    [TypeError]. *)
Theorem ocr_file_never_raises (w : World) (file_data : string) (file_type : Z)
    (model_override : option string) (has_event optimize : bool) (l : list entry) :
  (has_event = true -> Cancel.reads_set (stop_at w) (length l) = true ->
   ocr_file w file_data file_type model_override has_event optimize l
   = (Ok terminated, l ++ [Check ClientEntry true])) /\
  (well_formed w model_override ->
   exists d, fst (ocr_file w file_data file_type model_override has_event optimize l) = Ok d
             /\ shaped d) /\
  (forall e, fst (ocr_file w file_data file_type model_override has_event optimize l)
             = Raise e ->
             settings w model_override = Raise e /\
             (exn_cls e = AttributeError \/ exn_cls e = TypeError)).
Proof.
  rewrite ocr_file_entry.
  destruct (stop_check_returns w has_event ClientEntry l) as (b & d0 & E & _ & _ & Hev & _).
  rewrite E. split; [|split].
  - intros Hhas Hset. destruct (Hev Hhas) as [-> ->]. now rewrite Hset.
  - intros Hwf. destruct b; [eexists; split; [reflexivity|left; reflexivity]|].
    destruct (settings_ok w model_override Hwf) as (api_url & token & Es).
    unfold after_entry. rewrite Es.
    destruct (negb _ || negb _).
    + eexists. split; [reflexivity|]. left. reflexivity.
    + apply retry_loop_ok.
  - intros e. destruct b; [discriminate|]. unfold after_entry.
    destruct (settings w model_override) as [[[current api_url] token]|e'] eqn:Es.
    + destruct (negb _ || negb _); [discriminate|].
      destruct (retry_loop_ok w has_event (py_str api_url) ("token " +:+ py_str token)
                  (build_payload file_data file_type current optimize) current
                  (seq 0 (max_retries + 1)) None (l ++ d0)) as (dd & Edd & _).
      rewrite Edd. discriminate.
    + cbn [fst]. intros [= ->]. split; [reflexivity|].
      exact (settings_raises w model_override e Es).
Qed.

(** ** The retry loop *)

Lemma one_attempt_spec w has url auth payload cur k l :
  exists s d, one_attempt w has url auth payload cur k l = (Ok s, l ++ d) /\
              attempt_spec w k s d.
Proof.
  unfold attempt_spec, transient, one_attempt, attempt_body, backoff, stop_check, post.
  unfold try_except, bind, check, act, ret, lift, raise.
  paths; rewrite <- ?app_assoc; try rewrite <- (app_nil_r l) at 1;
    do 2 eexists; (split; [reflexivity|]); simpl; auto.
  all: exfalso;
    match goal with
    | E : interpret _ _ = Raise ?e, C : exn_cls ?e = _ |- _ =>
        pose proof (local_interpret _ _ _ E) as F; rewrite C in F; discriminate
    end.
Qed.


(** What an answered attempt makes the call return. *)
Definition answer (cur : pyval) (r : response) : gmap string pyval :=
  match interpret cur r with
  | Ok d => d
  | Raise e => error_dict ("异常: " +:+ exn_msg e)
  end.

Lemma one_attempt_responds w has url auth payload cur k l r :
  uncancelled w has -> net w k = Responds r ->
  exists d, one_attempt w has url auth payload cur k l = (Ok (Return (answer cur r)), l ++ d)
            /\ attempts_of d = [k] /\ sleeps d = [].
Proof.
  intros Hu Hn.
  pose proof (local_interpret cur r) as Hl.
  unfold answer, one_attempt, attempt_body, backoff, stop_check, post.
  unfold try_except, bind, check, act, ret, lift, raise.
  rewrite Hn.
  destruct has; [destruct Hu as [Hu|Hu]; [discriminate | rewrite Hu] |]; simpl.
  all: destruct (interpret cur r) as [d|e]; simpl;
    [ rewrite <- ?app_assoc; eexists; split; [reflexivity|]; split; reflexivity |].
  all: specialize (Hl e eq_refl); destruct (exn_cls e); try discriminate; simpl.
  all: rewrite <- ?app_assoc; eexists; split; [reflexivity|]; split; reflexivity.
Qed.

Lemma one_attempt_transient w has url auth payload cur k l :
  uncancelled w has -> transient (net w k) = true -> k < max_retries ->
  exists le d, one_attempt w has url auth payload cur k l = (Ok (Next le), l ++ d)
               /\ attempts_of d = [k] /\ sleeps d = [10].
Proof.
  intros Hu Ht Hk. apply Nat.ltb_lt in Hk.
  unfold one_attempt, attempt_body, backoff, stop_check, post.
  unfold try_except, bind, check, act, ret, lift, raise.
  rewrite Hk.
  destruct (net w k) as [r|e]; [discriminate|]. simpl in Ht.
  destruct has; [destruct Hu as [Hu|Hu]; [discriminate | rewrite Hu] |]; simpl.
  all: destruct (exn_cls e); try discriminate; simpl.
  all: rewrite <- ?app_assoc; do 2 eexists; split; [reflexivity|]; split; reflexivity.
Qed.

Lemma retry_loop_bounds w has url auth payload cur n a le l :
  a + n <= S max_retries ->
  exists d p m,
    snd (retry_loop w has url auth payload cur (seq a n) le l) = l ++ d /\
    attempts_of d = seq a p /\ p <= n /\ sleeps d = repeat 10 m /\
    m <= p /\ p <= S m /\ m <= max_retries - a /\
    (forall k, a <= k -> S k < a + p -> transient (net w k) = true).
Proof.
  revert a le l. induction n as [|n IH]; intros a le l Hn; simpl.
  - exists [], 0, 0. rewrite app_nil_r. repeat split; auto; try lia; intros; lia.
  - unfold bind.
    destruct (one_attempt_spec w has url auth payload cur a l) as (s & d1 & E & Hs).
    rewrite E. destruct s as [dd|le']; simpl in Hs.
    + destruct Hs as (Hsl & Hat). simpl.
      destruct Hat as [Hat|Hat].
      * exists d1, 0, 0. repeat split; auto; try lia; intros; lia.
      * exists d1, 1, 0. repeat split; auto; try lia; intros; lia.
    + destruct Hs as (Hat & Htr & Hsl).
      destruct (IH (S a) le' (l ++ d1)) as (d2 & p & m & E2 & Hat2 & Hp & Hsl2 & H1 & H2 & H3 & H4);
        [lia|].
      rewrite E2.
      exists (d1 ++ d2), (S p), ((if a <? max_retries then 1 else 0) + m).
      rewrite attempts_of_app, sleeps_app, Hat, Hat2, Hsl, Hsl2, app_assoc.
      split; [reflexivity|]. split; [reflexivity|]. split; [lia|].
      split; [destruct (a <? max_retries); reflexivity|].
      destruct (a <? max_retries) eqn:Ea.
      * apply Nat.ltb_lt in Ea. repeat split; try lia.
        intros k Hk1 Hk2. destruct (decide (k = a)) as [->|Hne]; [exact Htr|].
        apply H4; lia.
      * apply Nat.ltb_ge in Ea. assert (n = 0) as -> by lia.
        assert (p = 0) as -> by lia. repeat split; try lia; intros; lia.
Qed.

Lemma retry_loop_answered w has url auth payload cur k :
  uncancelled w has ->
  forall a n le l r,
    a + n <= S max_retries -> k < n ->
    (forall j, j < k -> transient (net w (a + j)) = true) ->
    net w (a + k) = Responds r ->
    exists d, retry_loop w has url auth payload cur (seq a n) le l
              = (Ok (answer cur r), l ++ d)
              /\ attempts_of d = seq a (S k) /\ sleeps d = repeat 10 k.
Proof.
  intros Hu. induction k as [|k IH]; intros a n le l r Hn Hk Htr Hr.
  - destruct n as [|n]; [lia|]. simpl. unfold bind.
    rewrite Nat.add_0_r in Hr.
    destruct (one_attempt_responds w has url auth payload cur a l r Hu Hr)
      as (d & E & Hat & Hsl).
    rewrite E. exists d. auto.
  - destruct n as [|n]; [lia|]. simpl. unfold bind.
    destruct (one_attempt_transient w has url auth payload cur a l Hu) as (le' & d1 & E & Hat & Hsl).
    { specialize (Htr 0). rewrite Nat.add_0_r in Htr. apply Htr. lia. }
    { unfold max_retries in *. lia. }
    rewrite E.
    destruct (IH (S a) n le' (l ++ d1) r) as (d2 & E2 & Hat2 & Hsl2); [lia|lia| |  |].
    { intros j Hj. replace (S a + j) with (a + S j) by lia. apply Htr. lia. }
    { replace (S a + k) with (a + S k) by lia. exact Hr. }
    rewrite E2. exists (d1 ++ d2).
    rewrite attempts_of_app, sleeps_app, Hat, Hat2, Hsl, Hsl2, app_assoc.
    auto.
Qed.

Lemma answer_cases cur r :
  ((status_code r =? 200)%Z = false ->
   answer cur r = error_raw ("HTTP " +:+ pretty (status_code r)) (take_chars 500 (text r))) /\
  ((status_code r =? 200)%Z = true -> forall j, json r = Some j -> embedded_error j ->
   exists msg, py_get j "errorMsg" PNone = Ok msg /\
     answer cur r = error_raw ("API错误: " +:+ py_str msg) (take_chars 500 (py_str j))) /\
  ((status_code r =? 200)%Z = true -> forall j ok, json r = Some j -> no_embedded_error j ->
   _parse_result j cur = Ok ok -> answer cur r = ok).
Proof.
  unfold answer, interpret, response_json.
  split; [|split].
  - intros ->. reflexivity.
  - intros -> j Hj (c & Hin & Hget & Hne). rewrite Hj. simpl.
    rewrite Hin. simpl. rewrite Hget. simpl. rewrite Hne.
    destruct j; try discriminate. simpl. eexists. split; reflexivity.
  - intros -> j ok Hj Hno Hp. rewrite Hj. simpl.
    destruct Hno as [Hin | (c & Hin & Hget & Hne)]; rewrite Hin; simpl.
    + rewrite Hp. reflexivity.
    + rewrite Hget. simpl. rewrite Hne, Hp. reflexivity.
Qed.

(** [ocr_file] either ends before any POST, or runs the retry loop. *)
Lemma ocr_file_cases w file_data file_type model_override has_event optimize l :
  exists pre, attempts_of pre = [] /\ sleeps pre = [] /\
    ((exists x, ocr_file w file_data file_type model_override has_event optimize l
                = (x, l ++ pre)) \/
     (exists url auth payload,
        ocr_file w file_data file_type model_override has_event optimize l
        = retry_loop w has_event url auth payload (model_of w model_override)
            (seq 0 (max_retries + 1)) None (l ++ pre))).
Proof.
  rewrite ocr_file_entry.
  destruct (stop_check_returns w has_event ClientEntry l) as (b & d0 & E & Ha & Hs & _).
  rewrite E. exists d0. split; [exact Ha|]. split; [exact Hs|].
  destruct b; [left; now eexists|].
  unfold after_entry, settings, model_of.
  destruct (current_model w model_override) as [current|e]; [|left; now eexists].
  cbn [rbind].
  destruct (get_model_config w current) as [model_config|e]; [|left; now eexists].
  cbn [rbind].
  destruct (py_get model_config "url" PNone) as [api_url|e]; [|left; now eexists].
  cbn [rbind].
  destruct (py_get model_config "token" PNone) as [token|e]; [|left; now eexists].
  cbn [rbind].
  destruct (negb _ || negb _); [left; now eexists|].
  right. now eexists _, _, _.
Qed.

Lemma ocr_file_loop w file_data file_type model_override has_event optimize l :
  uncancelled w has_event -> configured w model_override ->
  exists pre url auth payload, attempts_of pre = [] /\ sleeps pre = [] /\
    ocr_file w file_data file_type model_override has_event optimize l
    = retry_loop w has_event url auth payload (model_of w model_override)
        (seq 0 (max_retries + 1)) None (l ++ pre).
Proof.
  intros Hu (api_url & token & Es & Hurl & Htok).
  rewrite ocr_file_entry.
  destruct (stop_check_returns w has_event ClientEntry l)
    as (b & d0 & E & Ha & Hs & Hev & Hno).
  rewrite E.
  assert (b = false) as ->.
  { destruct has_event.
    - destruct (Hev eq_refl) as [_ ->]. destruct Hu as [Hu|Hu]; [discriminate|].
      now rewrite Hu.
    - now destruct (Hno eq_refl). }
  unfold after_entry. rewrite Es, Hurl, Htok. cbn [negb orb].
  exists d0. now eexists _, _, _.
Qed.

(** C5.  The retry policy of [ocr_file].  In every call the POSTs are
    attempts [0, 1, ..] up to at most [max_retries] more than the first,
    every attempt but the last failed with a timeout or a connection error,
    and each retry waited one time unit (ten tenths) before it.  When the
    request is configured and not cancelled, and attempt [k] is the first
    that is answered, the call returns at once what the answer gives: the
    truncated raw body under ["HTTP <status>"] for a status other than 200,
    the truncated body under the API error for an embedded non-zero error
    code, and the parsed result otherwise, so that two timeouts followed by
    a good answer return that result. *)
Theorem retry_contract (w : World) (file_data : string) (file_type : Z)
    (model_override : option string) (has_event optimize : bool) (l : list entry) :
  let current := model_of w model_override in
  let call := ocr_file w file_data file_type model_override has_event optimize l in
  (exists d p m,
      snd call = l ++ d /\ attempts_of d = seq 0 p /\ p <= S max_retries /\
      sleeps d = repeat 10 m /\ m <= max_retries /\ m <= p /\ p <= S m /\
      (forall k, S k < p -> transient (net w k) = true)) /\
  (uncancelled w has_event -> configured w model_override ->
   forall k r, k <= max_retries ->
     (forall j, j < k -> transient (net w j) = true) -> net w k = Responds r ->
     exists d dd,
       call = (Ok dd, l ++ d) /\ attempts_of d = seq 0 (S k) /\ sleeps d = repeat 10 k /\
       ((status_code r =? 200)%Z = false ->
        dd = error_raw ("HTTP " +:+ pretty (status_code r)) (take_chars 500 (text r))) /\
       ((status_code r =? 200)%Z = true -> forall j, json r = Some j -> embedded_error j ->
        exists msg, py_get j "errorMsg" PNone = Ok msg /\
          dd = error_raw ("API错误: " +:+ py_str msg) (take_chars 500 (py_str j))) /\
       ((status_code r =? 200)%Z = true -> forall j ok, json r = Some j ->
        no_embedded_error j -> _parse_result j current = Ok ok -> dd = ok)).
Proof.
  intros current call. subst call. split.
  - destruct (ocr_file_cases w file_data file_type model_override has_event optimize l)
      as (pre & Hp1 & Hp2 & [(x & E) | (url & auth & payload & E)]);
      fold current in E; rewrite E; cbn [snd].
    + exists pre, 0, 0. rewrite Hp1, Hp2. repeat split; auto; try lia; intros; lia.
    + destruct (retry_loop_bounds w has_event url auth payload current
                  (max_retries + 1) 0 None (l ++ pre))
        as (d & p & m & E2 & Hat & Hp & Hsl & H1 & H2 & H3 & H4); [unfold max_retries; lia|].
      exists (pre ++ d), p, m.
      rewrite E2, attempts_of_app, sleeps_app, Hat, Hsl, Hp1, Hp2, app_assoc.
      repeat split; auto; try (unfold max_retries in *; lia).
      intros k Hk. apply H4; lia.
  - intros Hu Hc k r Hk Htr Hr.
    destruct (answer_cases current r) as (A1 & A2 & A3).
    destruct (ocr_file_loop w file_data file_type model_override has_event optimize l Hu Hc)
      as (pre & url & auth & payload & Hp1 & Hp2 & E).
    fold current in E. rewrite E.
    destruct (retry_loop_answered w has_event url auth payload current k Hu
                0 (max_retries + 1) None (l ++ pre) r)
      as (d & E2 & Hat & Hsl); [unfold max_retries; lia|unfold max_retries in *; lia
                               |exact Htr|exact Hr|].
    exists (pre ++ d), (answer current r).
    rewrite E2, attempts_of_app, sleeps_app, Hat, Hsl, Hp1, Hp2, app_assoc.
    repeat split; auto.
Qed.

End Client.

Lemma ocr_file_never_raises_witness :
  @ocr_file Sample.ascii_runtime (Sample.calm (Some 0) Sample.answering)
    "bytes" 1 None true false []
  = (Ok terminated, [Check ClientEntry true]) /\
  exists d,
    fst (@ocr_file Sample.ascii_runtime (Sample.calm None Sample.answering)
           "bytes" 1 None true false []) = Ok d /\ shaped d.
Proof.
  split.
  - exact (proj1 (@ocr_file_never_raises Sample.ascii_runtime
                    (Sample.calm (Some 0) Sample.answering) "bytes" 1 None true false [])
                 eq_refl eq_refl).
  - apply (proj1 (proj2 (@ocr_file_never_raises Sample.ascii_runtime
                           (Sample.calm None Sample.answering) "bytes" 1 None true
                           false []))).
    eexists. split; [reflexivity|]. split.
    + intros _ v Hv. rewrite lookup_insert_eq in Hv. now injection Hv as <-.
    + intros v Hv. rewrite lookup_insert_ne, lookup_singleton_eq in Hv by discriminate.
      injection Hv as <-. eexists. split; [reflexivity|].
      intros name e _ He. apply lookup_singleton_Some in He as [_ <-]. now eexists.
Defined.

(** C6 as stated fails: with the configuration
    [{"current_model": "PP-OCRv5", "models": {"PP-OCRv5": null}}] and a
    token that is never set, [model_config.get("url")], which is outside
    the [try], raises [AttributeError]; no request is made. *)
Lemma null_model_entry_raises :
  stop_at Sample.null_entry = None /\
  @ocr_file Sample.ascii_runtime Sample.null_entry "bytes" 1 None true false []
  = (Raise (Exn AttributeError "object has no attribute 'get'"),
     [Check ClientEntry false]).
Proof. vm_compute. repeat split. Qed.

Lemma retry_contract_witness :
  exists d dd,
    @ocr_file Sample.ascii_runtime (Sample.calm None Sample.flaky)
      "bytes" 1 None true false [] = (Ok dd, d)
    /\ attempts_of d = [0; 1; 2] /\ sleeps d = [10; 10]
    /\ @_parse_result Sample.ascii_runtime Sample.one_line (PStr "PP-OCRv5") = Ok dd.
Proof.
  destruct (proj2 (@retry_contract Sample.ascii_runtime (Sample.calm None Sample.flaky)
                     "bytes" 1 None true false []))
    with (k := 2) (r := Sample.good_response)
    as (d & dd & E & Hat & Hsl & _ & _ & A);
    [right; reflexivity
    | exists (PStr "https://ocr.example/api"), (PStr "secret");
      repeat split; vm_compute; reflexivity
    | unfold max_retries; lia
    | intros [|[|j]] Hj; [reflexivity | reflexivity | lia] | reflexivity |].
  exists d, dd. split; [exact E|]. split; [exact Hat|]. split; [exact Hsl|].
  assert (is_ok (@_parse_result Sample.ascii_runtime Sample.one_line (PStr "PP-OCRv5"))
          = true) as Hok by (vm_compute; reflexivity).
  destruct (@_parse_result Sample.ascii_runtime Sample.one_line (PStr "PP-OCRv5"))
    as [ok|e] eqn:P; [|discriminate].
  f_equal. symmetry.
  apply (A eq_refl Sample.one_line ok eq_refl); [left; reflexivity | exact P].
Defined.

End OcrFacts.

(* ===================================================================== *)
(** * Facts about display slots and about stopping *)
(* ===================================================================== *)
Module WorkerFacts.
Import Py Worker.

Lemma identity_rows (n i : nat) :
  i < n -> map Z.of_nat (seq 0 n) !! i = Some (Z.of_nat i).
Proof.
  intros Hi. rewrite list_lookup_fmap, lookup_seq_lt by exact Hi. reflexivity.
Qed.

(** The bounds test of [display_slot] keeps the list access in range. *)
Lemma display_slot_value (self : BatchWorker) (i : nat) :
  display_slot self i
  = Ok (match row_indices self !! i with Some r => r | None => Z.of_nat i end).
Proof.
  unfold display_slot, py_index.
  destruct (i <? length (row_indices self)) eqn:E.
  - apply Nat.ltb_lt in E. destruct (lookup_lt_is_Some_2 _ _ E) as (r & ->). reflexivity.
  - apply Nat.ltb_ge in E. rewrite (lookup_ge_None_2 _ _ E). reflexivity.
Qed.

(** C10.  The display slot of an internal index is always defined: it is
    [row_indices[i]] when [row_indices] was given and reaches [i], and [i]
    itself otherwise; with no [row_indices], or an empty one, the mapping
    is the identity, and a list shorter than the inputs is never read out
    of range. *)
Theorem display_slot_total (mode : string) (files : list string)
    (model_override : option string) (output_dir export_fmt : string)
    (max_workers : Z) (row_indices : option (list Z)) (i : nat) :
  let self := init mode files model_override output_dir export_fmt max_workers row_indices in
  exists slot,
    display_slot self i = Ok slot /\
    (forall l, row_indices = Some l -> i < length l -> l !! i = Some slot) /\
    (forall l, row_indices = Some l -> length l <= i -> slot = Z.of_nat i) /\
    (row_indices = None \/ row_indices = Some [] -> slot = Z.of_nat i).
Proof.
  intros self. rewrite display_slot_value. eexists. split; [reflexivity|].
  subst self. unfold init, init_row_indices. simpl.
  split; [|split].
  - intros l -> Hi. destruct l as [|r rs]; [simpl in Hi; lia|].
    destruct (lookup_lt_is_Some_2 (r :: rs) i Hi) as (x & Hx). rewrite Hx. reflexivity.
  - intros l -> Hi. destruct l as [|r rs].
    + destruct (decide (i < length files)) as [Hlt|Hge].
      * rewrite identity_rows by exact Hlt. reflexivity.
      * rewrite lookup_ge_None_2; [reflexivity|]. rewrite length_map, length_seq. lia.
    + rewrite lookup_ge_None_2 by exact Hi. reflexivity.
  - intros Hnone.
    assert (match row_indices with Some (r :: rs) => r :: rs
                              | _ => map Z.of_nat (seq 0 (length files)) end
            = map Z.of_nat (seq 0 (length files))) as ->
      by (destruct Hnone as [-> | ->]; reflexivity).
    destruct (decide (i < length files)) as [Hlt|Hge].
    + rewrite identity_rows by exact Hlt. reflexivity.
    + rewrite lookup_ge_None_2; [reflexivity|]. rewrite length_map, length_seq. lia.
Qed.

Lemma display_slot_total_witness :
  display_slot (init "images" ["a.png"; "b.png"; "c.png"] None "out" "TXT" 2 (Some [7%Z])) 0
  = Ok 7%Z /\
  display_slot (init "images" ["a.png"; "b.png"; "c.png"] None "out" "TXT" 2 (Some [7%Z])) 2
  = Ok 2%Z.
Proof.
  split.
  - destruct (display_slot_total "images" ["a.png"; "b.png"; "c.png"] None "out" "TXT" 2
                (Some [7%Z]) 0) as (slot & E & H1 & _).
    rewrite E. f_equal. specialize (H1 [7%Z] eq_refl). simpl in H1.
    assert (Some 7%Z = Some slot) as Hs by (apply H1; lia). injection Hs as <-. reflexivity.
  - destruct (display_slot_total "images" ["a.png"; "b.png"; "c.png"] None "out" "TXT" 2
                (Some [7%Z]) 2) as (slot & E & _ & H2 & _).
    rewrite E. f_equal. apply (H2 [7%Z] eq_refl). simpl. lia.
Defined.

End WorkerFacts.

Module CoordinatorFacts.
Import Py Worker Coordinator.

Lemma worker_stop_twice (self : BatchWorker) : Worker.stop (Worker.stop self) = Worker.stop self.
Proof. reflexivity. Qed.

Lemma stop_twice (s : State) : stop (stop s) = stop s.
Proof.
  unfold stop. destruct (current_worker s) as [r|] eqn:E; simpl; rewrite ?E; [|reflexivity].
  f_equal. apply map_eq. intros k.
  rewrite !lookup_alter. repeat case_decide; try congruence.
  destruct (heap s !! r); reflexivity.
Qed.

(** References below [next_ref] are the only ones allocated, and the held
    worker is allocated. *)
Definition allocated (s : State) : Prop :=
  (forall r, next_ref s <= r -> heap s !! r = None) /\
  (forall r, current_worker s = Some r -> is_Some (heap s !! r)).

Lemma allocated_new : allocated new.
Proof. split; intros r; [intros _; apply lookup_empty | discriminate]. Qed.

Lemma allocated_step (s : State) (c : call) : allocated s -> allocated (step s c).
Proof.
  intros [Hfree Hheld]. destruct c as [j|r|]; simpl.
  - split; simpl.
    + intros r Hr. rewrite lookup_insert_ne by lia. apply Hfree. lia.
    + intros r [= <-]. rewrite lookup_insert_eq. eauto.
  - split; [exact Hfree|exact Hheld].
  - unfold stop. destruct (current_worker s) as [r|] eqn:E;
      [|split; [exact Hfree | intros k Hk; rewrite E in Hk; discriminate]].
    split; simpl.
    + intros k Hk. rewrite lookup_alter. destruct (decide (r = k)); rewrite Hfree by lia; reflexivity.
    + intros k Hk. assert (k = r) as -> by congruence.
      rewrite lookup_alter. case_decide; [|congruence].
      destruct (Hheld r eq_refl) as (x & ->). simpl. eauto.
Qed.

Lemma allocated_steps (cs : list call) (s : State) : allocated s -> allocated (steps s cs).
Proof.
  revert s. induction cs as [|c cs IH]; intros s Hs; [exact Hs|].
  apply IH, allocated_step, Hs.
Qed.

Lemma token_step (s : State) (c : call) (r : nat) :
  allocated s -> token_set s r = true -> token_set (step s c) r = true.
Proof.
  intros [Hfree _] Hr. unfold token_set in *.
  destruct (heap s !! r) as [x|] eqn:Ex; [|discriminate].
  destruct c as [j|k|]; simpl.
  - rewrite lookup_insert_ne; [rewrite Ex; exact Hr|].
    intros <-. rewrite Hfree in Ex by lia. discriminate.
  - rewrite Ex. exact Hr.
  - unfold stop. destruct (current_worker s) as [k|]; simpl; [|rewrite Ex; exact Hr].
    rewrite lookup_alter. destruct (decide (k = r)) as [->|]; rewrite Ex; [reflexivity|exact Hr].
Qed.

Lemma token_steps (cs : list call) (s : State) (r : nat) :
  allocated s -> token_set s r = true -> token_set (steps s cs) r = true.
Proof.
  revert s. induction cs as [|c cs IH]; intros s Hs Hr; [exact Hr|].
  simpl. apply IH; [apply allocated_step, Hs | apply token_step; assumption].
Qed.

(** The flag after a schedule of [set()] calls, from any starting flag. *)
Lemma fold_set (calls : list nat) (t : nat) (e : Cancel.Event) :
  Cancel.is_set (fold_left (fun e c => if c <=? t then Cancel.set e else e) calls e)
  = Cancel.is_set e || Cancel.reads_set (Cancel.first_call calls) t.
Proof.
  revert e. induction calls as [|c calls IH]; intros e; simpl.
  - now rewrite orb_false_r.
  - rewrite IH. destruct (Cancel.first_call calls) as [m|]; simpl.
    + destruct (c <=? t) eqn:Ec, (m <=? t) eqn:Em, (Nat.min c m <=? t) eqn:Emin;
        simpl; rewrite ?orb_true_r, ?orb_false_r; try reflexivity; exfalso;
        repeat match goal with
               | E : (_ <=? _) = true |- _ => apply Nat.leb_le in E
               | E : (_ <=? _) = false |- _ => apply Nat.leb_gt in E
               end; lia.
    + destruct (c <=? t); simpl; rewrite ?orb_true_r, ?orb_false_r; reflexivity.
Qed.

Lemma event_at_reads (calls : list nat) (t : nat) :
  Cancel.is_set (Cancel.event_at calls t) = Cancel.reads_set (Cancel.first_call calls) t.
Proof. unfold Cancel.event_at. rewrite fold_set. reflexivity. Qed.

(** C8.  In every state the coordinator can reach, [stop()] twice leaves
    exactly the state that [stop()] once leaves, so whatever is done next
    behaves the same; without a held worker [stop()] changes nothing; with
    one, its token reads set afterwards; no call ever unsets a token; and a
    token that is set at several instants reads as if set at the first. *)
Theorem stop_idempotent (history : list call) :
  let s := steps new history in
  stop (stop s) = stop s /\
  (forall cs, steps s (Stop :: Stop :: cs) = steps s (Stop :: cs)) /\
  (current_worker s = None -> stop s = s) /\
  (forall r, current_worker s = Some r -> token_set (stop s) r = true) /\
  (forall r cs, token_set s r = true -> token_set (steps s cs) r = true) /\
  (forall calls t t', t <= t' ->
     Cancel.is_set (Cancel.event_at calls t) = true ->
     Cancel.is_set (Cancel.event_at calls t') = true) /\
  (forall calls c c' t, c <= c' ->
     Cancel.event_at (c :: c' :: calls) t = Cancel.event_at (c :: calls) t).
Proof.
  intros s.
  assert (Hs : allocated s) by (apply allocated_steps, allocated_new).
  split; [apply stop_twice|].
  split; [intros cs; simpl; rewrite stop_twice; reflexivity|].
  split; [intros E; unfold stop; rewrite E; reflexivity|].
  split.
  { intros r E. unfold token_set, stop. rewrite E. simpl.
    rewrite lookup_alter. destruct (decide (r = r)) as [_|]; [|congruence].
    destruct (proj2 Hs r E) as (x & ->). reflexivity. }
  split; [intros r cs; apply token_steps, Hs|].
  split.
  { intros calls t t' Hle. rewrite !event_at_reads.
    apply EffFacts.reads_set_mono, Hle. }
  intros calls c c' t Hle.
  unfold Cancel.event_at. simpl.
  destruct (c <=? t) eqn:Ec; [|destruct (c' <=? t) eqn:Ec'; [|reflexivity]].
  - destruct (c' <=? t); reflexivity.
  - apply Nat.leb_gt in Ec. apply Nat.leb_le in Ec'. lia.
Qed.

Lemma stop_idempotent_witness :
  steps new [Process {| j_mode := "images"; j_files := ["a.png"]; j_model_override := None;
                        j_output_dir := None; j_export_fmt := None; j_max_workers := 2;
                        j_row_indices := None; j_batch_dir := "output/images" |};
             Start 0; Stop; Stop]
  = steps new [Process {| j_mode := "images"; j_files := ["a.png"]; j_model_override := None;
                          j_output_dir := None; j_export_fmt := None; j_max_workers := 2;
                          j_row_indices := None; j_batch_dir := "output/images" |};
               Start 0; Stop].
Proof.
  exact (proj1 (proj2 (stop_idempotent
    [Process {| j_mode := "images"; j_files := ["a.png"]; j_model_override := None;
                j_output_dir := None; j_export_fmt := None; j_max_workers := 2;
                j_row_indices := None; j_batch_dir := "output/images" |};
     Start 0])) []).
Defined.

End CoordinatorFacts.

(* ===================================================================== *)
(** * Facts about [save_results] and its output paths *)
(* ===================================================================== *)
Module ExporterFacts.
Import Py Eff Worker Exporter EffFacts.


(** The extensions [save_results] passes to its local [p]. *)
Definition exts : list string :=
  ["txt"; "json"; "csv"; "md"; "docx"; "xlsx"; "html"; "pdf"; "tex"; "py"].

(** An entry of [save_results] for [filepath]: a file it creates or writes
    under one of its own output paths, and nothing else. *)
Definition own_path (self : BatchWorker) (filepath : string) (e : entry) : Prop :=
  match e with
  | Created p | Wrote p _ => exists ext, In ext exts /\ p = out_path self filepath ext
  | _ => False
  end.

(** The messages that say why nothing could be exported. *)
Definition explains_failure (msg : string) : bool :=
  startswith "导出错误: " msg || startswith "Excel导出失败: " msg.

(** The library is missing: importing it raises [ImportError]. *)
Definition missing (w : World) (lib : library) : Prop :=
  exists e, import_raises w lib = Some e /\ is_import_error e = true.

Fixpoint occurs (c : ascii) (s : string) : bool :=
  match s with
  | EmptyString => false
  | String a s' => Ascii.eqb a c || occurs c s'
  end.

(** ** Strings and paths *)

Section Strings.
#[local] Arguments String.append !_ _ : simpl nomatch.

Lemma append_nil_r (s : string) : s +:+ EmptyString = s.
Proof. induction s as [|a s IH]; simpl; [reflexivity|f_equal; exact IH]. Qed.

Lemma append_inv_head (p a b : string) : p +:+ a = p +:+ b -> a = b.
Proof. induction p as [|c p IH]; simpl; [auto|]. intros [= E]. auto. Qed.

Lemma append_assoc (a b c : string) : (a +:+ b) +:+ c = a +:+ (b +:+ c).
Proof. induction a as [|x a IH]; simpl; [reflexivity|f_equal; exact IH]. Qed.

Lemma occurs_append (c : ascii) (a b : string) :
  occurs c (a +:+ b) = occurs c a || occurs c b.
Proof.
  induction a as [|x a IH]; simpl; [reflexivity|].
  rewrite <- orb_assoc. f_equal. exact IH.
Qed.

(** The stem is what precedes the last dot, when the extensions have none. *)
Lemma stem_unique (s1 s2 e1 e2 : string) :
  occurs "."%char e1 = false -> occurs "."%char e2 = false ->
  s1 +:+ "." +:+ e1 = s2 +:+ "." +:+ e2 -> s1 = s2.
Proof.
  intros H1 H2. revert s2. induction s1 as [|a s1 IH]; intros [|b s2]; simpl.
  - reflexivity.
  - intros [= <- E]. rewrite E, occurs_append in H1. simpl in H1.
    rewrite orb_true_r in H1. discriminate.
  - intros [= -> E]. rewrite <- E, occurs_append in H2. simpl in H2.
    rewrite orb_true_r in H2. discriminate.
  - intros [= <- E]. f_equal. apply IH, E.
Qed.

Lemma cut_after_last_spec (c : ascii) (s : string) :
  let (h, t) := OsPath.cut_after_last c s in
  s = h +:+ t /\ occurs c t = false /\ (h = EmptyString -> occurs c s = false).
Proof.
  induction s as [|a s IH]; simpl; [auto|].
  destruct (OsPath.cut_after_last c s) as [h t]. destruct IH as (E & Ht & Hh).
  destruct h as [|x h].
  - simpl in E. subst t. destruct (Ascii.eqb a c) eqn:Ea; simpl.
    + split; [reflexivity|]. split; [apply Hh; reflexivity|discriminate].
    + split; [reflexivity|]. rewrite Ea. simpl. split; [exact Ht|]. intros _. exact Ht.
  - simpl. split; [now rewrite E|]. split; [exact Ht|discriminate].
Qed.

Lemma basename_no_sep (p : string) : occurs OsPath.sep (OsPath.basename p) = false.
Proof.
  unfold OsPath.basename. pose proof (cut_after_last_spec OsPath.sep p) as Hc.
  destruct (OsPath.cut_after_last OsPath.sep p) as [h t]. apply Hc.
Qed.

Lemma cut_after_last_absent (c : ascii) (s : string) :
  occurs c s = false -> OsPath.cut_after_last c s = (EmptyString, s).
Proof.
  induction s as [|a s IH]; simpl; [reflexivity|].
  intros Ho. apply orb_false_iff in Ho as [Ha Hs]. rewrite (IH Hs), Ha. reflexivity.
Qed.

Lemma cut_at_last_spec (c : ascii) (s r e : string) :
  OsPath.cut_at_last c s = Some (r, e) -> s = r +:+ e.
Proof.
  revert r e. induction s as [|a s IH]; intros r e; simpl; [discriminate|].
  destruct (OsPath.cut_at_last c s) as [[r' e']|].
  - intros [= <- <-]. simpl. f_equal. apply IH. reflexivity.
  - destruct (Ascii.eqb a c); [|discriminate]. intros [= <- <-]. reflexivity.
Qed.

Lemma splitext_name_no_sep (name : string) :
  occurs OsPath.sep name = false ->
  occurs OsPath.sep (fst (OsPath.splitext_name name)) = false.
Proof.
  intros Hn. unfold OsPath.splitext_name.
  destruct (OsPath.cut_at_last OsPath.extsep name) as [[r e]|] eqn:E; [|exact Hn].
  destruct (OsPath.all_are OsPath.extsep r); [exact Hn|]. simpl.
  apply cut_at_last_spec in E. rewrite E, occurs_append in Hn.
  apply orb_false_iff in Hn. apply Hn.
Qed.

Lemma base_name_no_sep (filepath : string) :
  occurs OsPath.sep (base_name_of filepath) = false.
Proof.
  unfold base_name_of, OsPath.splitext.
  rewrite (cut_after_last_absent _ _ (basename_no_sep filepath)).
  pose proof (splitext_name_no_sep _ (basename_no_sep filepath)) as Hs.
  destruct (OsPath.splitext_name (OsPath.basename filepath)) as [root ext]. exact Hs.
Qed.

Lemma relative_name (base ext : string) :
  occurs OsPath.sep base = false ->
  startswith (String OsPath.sep EmptyString) (base +:+ "." +:+ ext) = false.
Proof.
  destruct base as [|a base]; [reflexivity|]. intros Hb.
  cbn [occurs] in Hb. apply orb_false_iff in Hb as [Ha _].
  change (Ascii.eqb OsPath.sep a && true = false).
  rewrite Ascii.eqb_sym, Ha. reflexivity.
Qed.

Lemma join_relative (a b : string) :
  startswith (String OsPath.sep EmptyString) b = false ->
  exists pre, (forall b', startswith (String OsPath.sep EmptyString) b' = false ->
                          OsPath.join a b' = pre +:+ b') /\ OsPath.join a b = pre +:+ b.
Proof.
  intros Hb. unfold OsPath.join.
  destruct (negb (str_nonempty a) || OsPath.endswith_sep a).
  - exists a. split; [intros b' ->; reflexivity | rewrite Hb; reflexivity].
  - exists (a +:+ String OsPath.sep EmptyString).
    split; [intros b' ->|rewrite Hb]; now rewrite append_assoc.
Qed.

Lemma exts_no_dot (ext : string) : In ext exts -> occurs "."%char ext = false.
Proof.
  unfold exts. simpl. intros Hin.
  repeat (destruct Hin as [<- | Hin]; [reflexivity|]). contradiction.
Qed.

(** Two output paths coincide only for equal base names. *)
Lemma out_path_inj (self : BatchWorker) (f1 f2 e1 e2 : string) :
  In e1 exts -> In e2 exts ->
  out_path self f1 e1 = out_path self f2 e2 -> base_name_of f1 = base_name_of f2.
Proof.
  intros H1 H2. unfold out_path.
  destruct (join_relative (output_dir self) (base_name_of f1 +:+ "." +:+ e1))
    as (pre & Hpre & E1); [apply relative_name, base_name_no_sep|].
  rewrite E1, (Hpre (base_name_of f2 +:+ "." +:+ e2))
    by (apply relative_name, base_name_no_sep).
  intros E%append_inv_head. eapply stem_unique; [| |exact E]; apply exts_no_dot; assumption.
Qed.

End Strings.

Section Save.
Context `{Runtime}.

#[local] Arguments out_path : simpl never.
#[local] Arguments base_name_of : simpl never.

Ltac own :=
  lazymatch goal with
  | |- own_path _ _ _ => eexists; split; [|reflexivity]; unfold exts; simpl; tauto
  end.

Ltac save_sound :=
  repeat first [own | progress cbv zeta | sound_step].

Lemma write_file_sound w self filepath ext c :
  In ext exts -> sound w (own_path self filepath) (write_file w (out_path self filepath ext) c).
Proof.
  intros Hin. unfold write_file.
  repeat first [sound_step | (exists ext; split; [exact Hin|reflexivity])].
Qed.

Lemma save_document_sound w self filepath ext name :
  In ext exts ->
  sound w (own_path self filepath) (save_document w name (out_path self filepath ext)).
Proof.
  intros Hin. unfold save_document.
  repeat first [sound_step | (exists ext; split; [exact Hin|reflexivity])].
Qed.

Ltac writes :=
  first [ apply write_file_sound; unfold exts; simpl; tauto
        | apply save_document_sound; unfold exts; simpl; tauto ].

Lemma save_results_sound w self filepath text md tables layout raw :
  sound w (own_path self filepath)
        (save_results w self filepath text md tables layout raw).
Proof.
  unfold save_results, save_body, export_docx, export_xlsx, export_pdf, export_html.
  repeat first [writes | progress cbv zeta | sound_step].
Qed.


(** The file at [path] can be opened and written. *)
Definition can_write (w : World) (path : string) : bool :=
  match open_raises w path, write_raises w path with
  | None, None => true
  | _, _ => false
  end.

(** What a missing library leads to: when the fallback file can be
    written, that file and the message that notes the fallback; when it
    cannot, no file and the export error. *)
Definition falls_back (w : World) (self : BatchWorker) (filepath ext note msg : string)
    (d : list entry) : Prop :=
  if can_write w (out_path self filepath ext)
  then files_written d = [out_path self filepath ext] /\ msg = note
  else files_written d = [] /\ startswith "导出错误: " msg = true.

(** A world in which no file operation and no library fails. *)
Definition unfailing (w : World) : Prop :=
  (forall path, open_raises w path = None) /\
  (forall path, write_raises w path = None) /\
  (forall lib, import_raises w lib = None) /\
  (forall lib, library_raises w lib = None).

(** The tables are strings and the layout blocks are dicts, as the HTML
    and the Excel exports expect. *)
Definition well_typed (tables_html layout_data : list pyval) : Prop :=
  is_ok (Ocr.strs_of tables_html) = true /\
  is_ok (rmap layout_row (imap (fun i b => (i, b)) layout_data)) = true.

(** The extension of the file that a format exports. *)
Definition primary_ext (f : format) : string :=
  match f with
  | FTxt | FSearchablePdf | FAnnotated | FNarrative | FOther => "txt"
  | FJson | FLayout | FSemantic => "json"
  | FCsv => "csv"
  | FDocx => "docx"
  | FXlsx => "xlsx"
  | FMarkdown => "md"
  | FHtml => "html"
  | FPdf => "pdf"
  | FLatex => "tex"
  | FCode => "py"
  end.

(** A computation that, when it returns a message, has written a file or
    returns a message that explains the failure. *)
Definition exports (m : M string) : Prop :=
  forall l, exists d, snd (m l) = l ++ d /\
    forall msg, fst (m l) = Ok msg ->
                files_written d <> [] \/ explains_failure msg = true.

Lemma files_written_app (l d : list entry) :
  files_written (l ++ d) = files_written l ++ files_written d.
Proof. unfold files_written. apply omap_app. Qed.

Lemma exports_bind {A} (w : World) (Q : entry -> Prop) (m : M A) (f : A -> M string) :
  sound w Q m -> (forall a, exports (f a)) -> exports (bind m f).
Proof.
  intros Hm Hf l. destruct (Hm l) as (d1 & E1 & _).
  unfold bind. destruct (m l) as [[a|e] l1]; simpl in E1; subst l1.
  - destruct (Hf a (l ++ d1)) as (d2 & E2 & H2).
    exists (d1 ++ d2). rewrite E2, app_assoc. split; [reflexivity|].
    intros msg Hmsg. destruct (H2 msg Hmsg) as [Hw|He]; [left|right; exact He].
    rewrite files_written_app. intros Hnil. apply app_eq_nil in Hnil as [_ Hnil]. auto.
  - exists d1. split; [reflexivity|]. intros msg; discriminate.
Qed.

Lemma exports_try (w : World) (Q : entry -> Prop) (m : M string) (h : exn -> M string) :
  sound w Q m -> exports m -> (forall e, exports (h e)) -> exports (try_except m h).
Proof.
  intros Hs Hm Hh l. destruct (Hm l) as (d1 & E1 & H1).
  unfold try_except. destruct (m l) as [[a|e] l1]; simpl in E1; subst l1.
  - exists d1. split; [reflexivity|]. exact H1.
  - destruct (Hh e (l ++ d1)) as (d2 & E2 & H2).
    exists (d1 ++ d2). rewrite E2, app_assoc. split; [reflexivity|].
    intros msg Hmsg. destruct (H2 msg Hmsg) as [Hw|He]; [left|right; exact He].
    rewrite files_written_app. intros Hnil. apply app_eq_nil in Hnil as [_ Hnil]. auto.
Qed.

Lemma exports_explained (msg : string) : explains_failure msg = true -> exports (ret msg).
Proof.
  intros He l. exists []. simpl. rewrite app_nil_r. split; [reflexivity|].
  intros msg' [= <-]. right. exact He.
Qed.

Lemma exports_written (w : World) (path : string) (c : content) (msg : string) :
  exports (bind (write_file w path c) (fun _ => ret msg)).
Proof.
  intros l. unfold write_file, may_raise, bind, act, ret, raise.
  destruct (open_raises w path); simpl.
  - exists []. rewrite app_nil_r. split; [reflexivity|]. intros ?; discriminate.
  - destruct (write_raises w path); simpl.
    + exists [Created path]. split; [reflexivity|]. intros ?; discriminate.
    + exists [Created path; Wrote path c]. rewrite <- app_assoc.
      split; [reflexivity|]. intros ? _. left. discriminate.
Qed.

Lemma exports_saved (w : World) (name path msg : string) :
  exports (bind (save_document w name path) (fun _ => ret msg)).
Proof.
  intros l. unfold save_document, may_raise, bind, act, ret, raise.
  destruct (open_raises w path); simpl.
  - exists []. rewrite app_nil_r. split; [reflexivity|]. intros ?; discriminate.
  - destruct (write_raises w path); simpl.
    + exists [Created path]. split; [reflexivity|]. intros ?; discriminate.
    + exists [Created path; Wrote path (Document name)]. rewrite <- app_assoc.
      split; [reflexivity|]. intros ? _. left. discriminate.
Qed.

Lemma exports_raise (e : exn) : exports (raise e).
Proof.
  intros l. exists []. simpl. rewrite app_nil_r. split; [reflexivity|].
  intros ?; discriminate.
Qed.

(** One step of a proof of [exports], following the program. *)
Ltac exports_step w self filepath :=
  lazymatch goal with
  | |- exports (bind (write_file _ _ _) (fun _ => ret _)) => apply exports_written
  | |- exports (bind (save_document _ _ _) (fun _ => ret _)) => apply exports_saved
  | |- exports (bind _ _) =>
      apply (exports_bind w (own_path self filepath)); [|intros ?]
  | |- exports (try_except _ _) =>
      apply (exports_try w (own_path self filepath)); [| |intros ?]
  | |- exports (ret _) => apply exports_explained; reflexivity
  | |- exports (raise _) => apply exports_raise
  | |- exports (if ?b then _ else _) => destruct b
  | |- exports (match ?x with _ => _ end) => destruct x
  end.

Lemma save_results_exports w self filepath text md tables layout raw :
  exports (save_results w self filepath text md tables layout raw).
Proof.
  unfold save_results, save_body, export_docx, export_xlsx, export_pdf, export_html.
  repeat first [ writes | progress cbv zeta | sound_step
               | exports_step w self filepath ].
Qed.

Lemma save_results_ok w self filepath text md tables layout raw l :
  exists msg, fst (save_results w self filepath text md tables layout raw l) = Ok msg.
Proof.
  unfold save_results, try_except, ret.
  destruct (save_body w self filepath text md tables layout raw l) as [[msg|e] l1];
    eexists; reflexivity.
Qed.

Lemma log_delta (l l' d : list entry) :
  l' = l ++ d -> (l' = l -> d = []) /\ (forall d', l' = l ++ d' -> d = d').
Proof.
  intros ->. split.
  - intros E. rewrite <- (app_nil_r l) in E at 2. now apply app_inv_head in E.
  - intros d' E. now apply app_inv_head in E.
Qed.

Ltac same_delta H :=
  apply log_delta in H; destruct H as [Hnil Hsame];
  rewrite <- ?app_assoc in Hsame;
  first [ specialize (Hnil eq_refl); subst
        | specialize (Hsame _ eq_refl); subst ].

(** The fallbacks of the three formats that need a library. *)
Lemma docx_fallback w self filepath text md tables layout raw l msg d :
  classify (lower (export_fmt self)) = FDocx -> missing w PythonDocx ->
  save_results w self filepath text md tables layout raw l = (Ok msg, l ++ d) ->
  falls_back w self filepath "md" "导出失败: 需要安装python-docx (已保存为MD)" msg d.
Proof.
  intros Hc (e & He & Hi). unfold falls_back, can_write, save_results, save_body. rewrite Hc.
  unfold export_docx, write_file, may_raise, try_except, bind, act, ret, raise.
  rewrite He. simpl. rewrite Hi.
  destruct (open_raises w _); simpl; [|destruct (write_raises w _); simpl].
  all: intros [= <- Hd]; same_delta Hd; simpl; auto.
Qed.

Lemma xlsx_fallback w self filepath text md tables layout raw l msg d :
  classify (lower (export_fmt self)) = FXlsx -> missing w Openpyxl ->
  save_results w self filepath text md tables layout raw l = (Ok msg, l ++ d) ->
  falls_back w self filepath "csv" "导出失败: 需要安装openpyxl (已保存为CSV)" msg d.
Proof.
  intros Hc (e & He & Hi). unfold falls_back, can_write, save_results, save_body. rewrite Hc.
  unfold export_xlsx, write_file, may_raise, try_except, bind, act, ret, raise.
  rewrite He. simpl. rewrite Hi.
  destruct (open_raises w _); simpl; [|destruct (write_raises w _); simpl].
  all: intros [= <- Hd]; same_delta Hd; simpl; auto.
Qed.

Lemma pdf_fallback w self filepath text md tables layout raw l msg d :
  classify (lower (export_fmt self)) = FPdf -> missing w Reportlab ->
  save_results w self filepath text md tables layout raw l = (Ok msg, l ++ d) ->
  falls_back w self filepath "md" "导出失败: 需要安装reportlab (已保存为MD)" msg d.
Proof.
  intros Hc (e & He & Hi). unfold falls_back, can_write, save_results, save_body. rewrite Hc.
  unfold export_pdf, write_file, may_raise, try_except, bind, act, ret, raise.
  rewrite He. simpl. rewrite Hi.
  destruct (open_raises w _); simpl; [|destruct (write_raises w _); simpl].
  all: intros [= <- Hd]; same_delta Hd; simpl; auto.
Qed.

Lemma startswith_append (p s : string) : startswith p (p +:+ s) = true.
Proof.
  induction p as [|a p IH]; simpl; [now destruct s|].
  now rewrite Ascii.eqb_refl.
Qed.

Lemma startswith_self (p : string) : startswith p p = true.
Proof. rewrite <- (append_nil_r p) at 2. apply startswith_append. Qed.

(** When nothing fails, the file of the chosen format is written and the
    message says so. *)
Lemma save_results_succeeds w self filepath text md tables layout raw l msg d :
  unfailing w -> well_typed tables layout ->
  save_results w self filepath text md tables layout raw l = (Ok msg, l ++ d) ->
  files_written d
  = [out_path self filepath (primary_ext (classify (lower (export_fmt self))))] /\
  startswith (exported (base_name_of filepath)
                (primary_ext (classify (lower (export_fmt self))))) msg = true.
Proof.
  intros (Hopen & Hwrite & Himport & Hlib) (Htables & Hlayout).
  unfold save_results, save_body.
  destruct (classify (lower (export_fmt self))); cbn [primary_ext].
  all: unfold export_docx, export_xlsx, export_pdf, export_html, write_file,
         save_document, may_raise, try_except, bind, act, ret, raise, lift.
  all: rewrite ?Himport, ?Hlib, ?Hopen, ?Hwrite.
  all: try (intros [= <- Hd]; same_delta Hd; split;
            [reflexivity | first [apply startswith_self | apply startswith_append]]).
  - (* xlsx *)
    destruct tables as [|t tables];
      [destruct (if str_nonempty md then parse_markdown_table md else None);
         [|destruct layout as [|b layout]]|].
    all: rewrite ?Hopen, ?Hwrite.
    all: try (intros [= <- Hd]; same_delta Hd; split;
              [reflexivity | first [apply startswith_self | apply startswith_append]]).
    destruct (rmap layout_row _) as [rows|e]; [|discriminate].
    rewrite ?Hopen, ?Hwrite.
    intros [= <- Hd]; same_delta Hd; split; [reflexivity | apply startswith_self].
  - (* html *)
    destruct tables as [|t tables].
    + rewrite ?Hopen, ?Hwrite.
      intros [= <- Hd]; same_delta Hd; split; [reflexivity | apply startswith_self].
    + destruct (Ocr.strs_of (t :: tables)) as [ss|e]; [|discriminate].
      rewrite ?Hopen, ?Hwrite.
      intros [= <- Hd]; same_delta Hd; split; [reflexivity | apply startswith_self].
Qed.

(** The amended C9.  [save_results] never raises: it always returns a
    status string.  Every file it creates is one of its own output paths,
    and when it has written no file its message says why the export
    failed.  In a world where nothing fails it writes the file of the
    chosen format and returns the message that names it.  When the library
    of the chosen format (python-docx, openpyxl, reportlab) is missing, it
    writes the Markdown or CSV fallback and returns the message that notes
    it, provided that file can be written; when it cannot, nothing is
    written and the export error is returned. *)
Theorem save_results_never_raises (w : World) (self : BatchWorker)
    (filepath text markdown_text : string) (tables_html layout_data : list pyval)
    (raw_result : pyval) (l : list entry) :
  exists msg d,
    save_results w self filepath text markdown_text tables_html layout_data raw_result l
    = (Ok msg, l ++ d) /\
    Forall (own_path self filepath) d /\
    (files_written d = [] -> explains_failure msg = true) /\
    (unfailing w -> well_typed tables_html layout_data ->
     files_written d
     = [out_path self filepath (primary_ext (classify (lower (export_fmt self))))] /\
     startswith (exported (base_name_of filepath)
                   (primary_ext (classify (lower (export_fmt self))))) msg = true) /\
    (classify (lower (export_fmt self)) = FDocx -> missing w PythonDocx ->
     falls_back w self filepath "md" "导出失败: 需要安装python-docx (已保存为MD)" msg d) /\
    (classify (lower (export_fmt self)) = FXlsx -> missing w Openpyxl ->
     falls_back w self filepath "csv" "导出失败: 需要安装openpyxl (已保存为CSV)" msg d) /\
    (classify (lower (export_fmt self)) = FPdf -> missing w Reportlab ->
     falls_back w self filepath "md" "导出失败: 需要安装reportlab (已保存为MD)" msg d).
Proof.
  destruct (save_results_ok w self filepath text markdown_text tables_html layout_data
              raw_result l) as (msg & Hmsg).
  destruct (save_results_sound w self filepath text markdown_text tables_html layout_data
              raw_result l) as (d & Hd & Hown & _).
  destruct (save_results_exports w self filepath text markdown_text tables_html layout_data
              raw_result l) as (d' & Hd' & Hex).
  assert (d' = d) as -> by (rewrite Hd in Hd'; now apply app_inv_head in Hd').
  assert (E : save_results w self filepath text markdown_text tables_html layout_data
                raw_result l = (Ok msg, l ++ d)).
  { destruct (save_results _ _ _ _ _ _ _ _ _) as [r l']. simpl in *. congruence. }
  exists msg, d. split; [exact E|]. split; [exact Hown|].
  split; [intros Hnone; destruct (Hex msg Hmsg) as [Hw|He]; [contradiction|exact He]|].
  split; [intros Hw Ht; eapply save_results_succeeds; eassumption|].
  split; [|split]; intros Hc Hm.
  - eapply docx_fallback; eassumption.
  - eapply xlsx_fallback; eassumption.
  - eapply pdf_fallback; eassumption.
Qed.

(** The amended C7.  Two items whose file names have different base names
    (the name without directory and without its last extension) never
    write the same file, whatever the world and the export branch taken. *)
Theorem distinct_stems_distinct_outputs (w1 w2 : World) (self : BatchWorker)
    (f1 f2 text1 text2 md1 md2 : string) (tables1 tables2 layout1 layout2 : list pyval)
    (raw1 raw2 : pyval) :
  base_name_of f1 <> base_name_of f2 ->
  Forall (fun p => ~ In p (files_written
                             (snd (save_results w2 self f2 text2 md2 tables2 layout2 raw2 []))))
         (files_written (snd (save_results w1 self f1 text1 md1 tables1 layout1 raw1 []))).
Proof.
  intros Hne.
  destruct (save_results_sound w1 self f1 text1 md1 tables1 layout1 raw1 [])
    as (d1 & E1 & H1 & _).
  destruct (save_results_sound w2 self f2 text2 md2 tables2 layout2 raw2 [])
    as (d2 & E2 & H2 & _).
  rewrite E1, E2. simpl.
  assert (Hin : forall (f : string) d, Forall (own_path self f) d ->
                forall p, In p (files_written d) ->
                exists ext, In ext exts /\ p = out_path self f ext).
  { intros f d Hd. induction Hd as [|e d He _ IH]; intros p; simpl; [contradiction|].
    destruct e; simpl in He; try contradiction; simpl; auto.
    intros [<-|Hp]; [exact He|auto]. }
  apply Forall_forall. intros p Hp1%list_elem_of_In Hp2.
  destruct (Hin f1 d1 H1 p Hp1) as (e1 & He1 & ->).
  destruct (Hin f2 d2 H2 _ Hp2) as (e2 & He2 & E).
  apply Hne. exact (out_path_inj self f1 f2 e1 e2 He1 He2 E).
Qed.

End Save.

Example docx_missing_runs :
  @save_results Sample.ascii_runtime Sample.no_docx Sample.to_word "scans/a.pdf" "hello" "" [] [] PNone []
  = (Ok "导出失败: 需要安装python-docx (已保存为MD)",
     [Created "out/a.md";
      Wrote "out/a.md" (Text ("# a" +:+ nl +:+ nl +:+ "hello"))]).
Proof. vm_compute. reflexivity. Qed.

Lemma save_results_never_raises_witness :
  (exists msg d,
     @save_results Sample.ascii_runtime Sample.no_docx Sample.to_word
       "scans/a.pdf" "hello" "" [] [] PNone [] = (Ok msg, d) /\
     falls_back Sample.no_docx Sample.to_word "scans/a.pdf" "md"
       "导出失败: 需要安装python-docx (已保存为MD)" msg d) /\
  (exists msg d,
     @save_results Sample.ascii_runtime (Sample.calm None Sample.answering) Sample.to_word
       "scans/a.pdf" "hello" "" [] [] PNone [] = (Ok msg, d) /\
     files_written d = [out_path Sample.to_word "scans/a.pdf" "docx"] /\
     startswith (exported (base_name_of "scans/a.pdf") "docx") msg = true).
Proof.
  split.
  - destruct (@save_results_never_raises Sample.ascii_runtime Sample.no_docx Sample.to_word
                "scans/a.pdf" "hello" "" [] [] PNone [])
      as (msg & d & E & _ & _ & _ & Hdocx & _).
    exists msg, d. split; [exact E|].
    apply Hdocx; [vm_compute; reflexivity|].
    eexists. split; reflexivity.
  - destruct (@save_results_never_raises Sample.ascii_runtime
                (Sample.calm None Sample.answering) Sample.to_word
                "scans/a.pdf" "hello" "" [] [] PNone [])
      as (msg & d & E & _ & _ & Hgood & _).
    exists msg, d. split; [exact E|].
    assert (classify (@lower Sample.ascii_runtime (export_fmt Sample.to_word)) = FDocx)
      as Hc by (vm_compute; reflexivity).
    rewrite Hc in Hgood. apply Hgood.
    + repeat split; intros; reflexivity.
    + split; reflexivity.
Defined.

(** C9 as stated fails: python-docx is missing and the Markdown fallback
    cannot be opened for writing; nothing is written and the message is
    the export error, which does not note a fallback. *)
Lemma missing_library_without_fallback :
  import_raises Sample.no_docx_read_only PythonDocx
  = Some (Exn ImportError "No module named 'docx'") /\
  @save_results Sample.ascii_runtime Sample.no_docx_read_only Sample.to_word
    "scans/a.pdf" "hello" "" [] [] PNone []
  = (Ok "导出错误: [Errno 13] Permission denied: out/a.md", []).
Proof. vm_compute. repeat split. Qed.

(** C7 as stated fails: two different inputs with the same base name are
    exported to the same file. *)
Lemma same_stem_same_output :
  files_written (snd (@save_results Sample.ascii_runtime (Sample.calm None Sample.answering)
                        Sample.two_images "scans/a.png" "one" "" [] [] PNone []))
  = ["out/a.txt"] /\
  files_written (snd (@save_results Sample.ascii_runtime (Sample.calm None Sample.answering)
                        Sample.two_images "scans/a.jpg" "two" "" [] [] PNone []))
  = ["out/a.txt"] /\
  String.eqb "scans/a.png" "scans/a.jpg" = false.
Proof. vm_compute. repeat split. Qed.

Lemma distinct_stems_distinct_outputs_witness :
  Forall (fun p => ~ In p (files_written
            (snd (@save_results Sample.ascii_runtime (Sample.calm None Sample.answering)
                    Sample.two_images "scans/b.png" "two" "" [] [] PNone []))))
         (files_written
            (snd (@save_results Sample.ascii_runtime (Sample.calm None Sample.answering)
                    Sample.two_images "scans/a.png" "one" "" [] [] PNone []))).
Proof.
  apply (@distinct_stems_distinct_outputs Sample.ascii_runtime).
  vm_compute. discriminate.
Defined.

End ExporterFacts.


(* ===================================================================== *)
(** * Facts about the per-item pipeline *)
(* ===================================================================== *)
Module PipelineFacts.
Import Py Eff Worker Pipeline EffFacts.

(** The judgement behind C1.  From a log whose reads are honest, and in
    which the token was not yet seen set when [c] holds, the computation
    appends [d] such that: its reads are honest; no signal follows a read
    that found the token set; nothing is signalled at all if the token had
    been seen set before; a result [a] with [post a] leaves the token
    unseen; and a result returned with the token seen satisfies [R]. *)
Definition guarded {A} (w : World) (c : bool) (m : M A) (post : A -> bool)
    (R : A -> Prop) : Prop :=
  forall l, honest_from w 0 l = true -> (c = true -> observed l = false) ->
    exists d, snd (m l) = l ++ d /\
      honest_from w (length l) d = true /\
      silent_after_set d = true /\
      (observed l = true -> signals d = []) /\
      forall a, fst (m l) = Ok a ->
        (post a = true -> observed (l ++ d) = false) /\
        (observed (l ++ d) = true -> R a).

(** The statuses that end an item. *)
Definition terminal_statuses : list string := ["成功"; "无内容"; "失败"; "错误"].

(** The three signals of a terminal update. *)
Definition terminal (row : Z) (status shown : string) : list signal :=
  [StatusUpdate row status; ProgressUpdate row 100 100; ResultUpdate row shown].

(** The two signals that announce an item as being processed. *)
Definition processing (row : Z) : list signal :=
  [StatusUpdate row "处理中..."; ProgressUpdate row 50 100].

(** A computation that signals [pre] and then, when it returns, exactly one
    terminal update, which its result reports; when it raises it has
    signalled [pre] only. *)
Definition concludes (pre : list signal) (row : Z) (m : M outcome) : Prop :=
  forall l, exists d, snd (m l) = l ++ d /\
    match fst (m l) with
    | Ok o => exists status shown,
        signals d = pre ++ terminal row status shown /\
        In status terminal_statuses /\ o_status o = Some status
    | Raise _ => signals d = pre
    end.

(** What a cancelled item returns: no status, and the stop message. *)
Definition quietly (o : outcome) : Prop :=
  o_status o = None /\ o_result o = stopped_msg.

(** ** Logs *)

Lemma silent_quiet (d : list entry) : signals d = [] -> silent_after_set d = true.
Proof.
  induction d as [|e d IH]; simpl; [reflexivity|].
  destruct e as [s v|sg| | | | | | | | | | |]; simpl; try exact IH; try discriminate.
  intros Hd. destruct v; [|exact (IH Hd)].
  clear IH. induction d as [|e d IH]; simpl in *; [reflexivity|].
  destruct e; simpl in *; try discriminate; auto.
Qed.

Lemma signals_none (d : list entry) :
  signals d = [] <-> forallb (fun e => negb (is_signal e)) d = true.
Proof.
  induction d as [|e d IH]; simpl; [tauto|].
  destruct e; simpl; try exact IH. split; discriminate.
Qed.

Lemma silent_unobserved (d : list entry) : observed d = false -> silent_after_set d = true.
Proof.
  induction d as [|e d IH]; simpl; [reflexivity|].
  destruct e as [s v|sg| | | | | | | | | | |]; simpl; try exact IH.
  destruct v; simpl; [discriminate|exact IH].
Qed.

Lemma silent_app (d1 d2 : list entry) :
  silent_after_set d1 = true -> silent_after_set d2 = true ->
  (observed d1 = true -> signals d2 = []) ->
  silent_after_set (d1 ++ d2) = true.
Proof.
  induction d1 as [|e d1 IH]; simpl; [auto|].
  destruct e as [s v|sg| | | | | | | | | | |]; simpl; try exact IH.
  destruct v; simpl; [|exact IH].
  intros H1 _ H2. rewrite forallb_app, H1. apply signals_none, H2. reflexivity.
Qed.

(** The reading of [silent_after_set] that C1 states. *)
Lemma silent_after_set_spec (l : list entry) :
  silent_after_set l = true ->
  forall pre s post, l = pre ++ Check s true :: post -> signals post = [].
Proof.
  intros Hl pre s post ->. induction pre as [|e pre IH]; simpl in Hl.
  - apply signals_none, Hl.
  - destruct e as [s' v|sg| | | | | | | | | | |]; try (apply IH, Hl).
    destruct v; [|apply IH, Hl].
    rewrite forallb_app in Hl. apply andb_true_iff in Hl as [_ Hl]. simpl in Hl.
    apply signals_none, Hl.
Qed.

(** ** Rules for [guarded] *)

Section Rules.
Context {w : World}.

Lemma guarded_weaken {A} (c : bool) (m : M A) (post : A -> bool) (R : A -> Prop) :
  guarded w false m post R -> guarded w c m post R.
Proof. intros Hm l Hl _. apply Hm; [exact Hl|discriminate]. Qed.

Lemma guarded_ret_clean {A} (a : A) (post : A -> bool) (R : A -> Prop) :
  guarded w true (ret a) post R.
Proof.
  intros l Hl Hc. exists []. simpl. rewrite app_nil_r.
  split; [reflexivity|]. split; [reflexivity|]. split; [reflexivity|].
  split; [reflexivity|]. intros a' _. rewrite (Hc eq_refl).
  split; [reflexivity|discriminate].
Qed.

Lemma guarded_ret {A} (c : bool) (a : A) (R : A -> Prop) :
  R a -> guarded w c (ret a) (fun _ => false) R.
Proof.
  intros Ha l Hl Hc. exists []. simpl. rewrite app_nil_r.
  split; [reflexivity|]. split; [reflexivity|]. split; [reflexivity|].
  split; [reflexivity|]. intros a' [= <-]. split; [discriminate|auto].
Qed.

(** A computation without signals, such as the OCR call. *)
Lemma guarded_sound {A} (c : bool) (m : M A) :
  sound w no_signal m -> guarded w c m (fun _ => false) (fun _ => True).
Proof.
  intros Hm l Hl Hc. destruct (Hm l) as (d & E & Hd & Hh).
  exists d. pose proof (no_signal_signals d Hd) as Hs.
  split; [exact E|]. split; [exact Hh|]. split; [apply silent_quiet, Hs|].
  split; [intros _; exact Hs|]. intros a _. split; [discriminate|auto].
Qed.

(** A computation without signals and without reads of the token. *)
Lemma guarded_plain {A} (c : bool) (m : M A) :
  sound w plain m -> guarded w c m (fun _ => c) (fun _ => True).
Proof.
  intros Hm l Hl Hc. destruct (Hm l) as (d & E & Hd & Hh).
  exists d. pose proof (no_signal_signals d (plain_no_signal d Hd)) as Hs.
  split; [exact E|]. split; [exact Hh|]. split; [apply silent_quiet, Hs|].
  split; [intros _; exact Hs|]. intros a _. split; [|auto].
  intros ->. rewrite observed_app, (Hc eq_refl), (plain_unobserved d Hd). reflexivity.
Qed.

Lemma guarded_emit (sg : signal) : guarded w true (emit sg) (fun _ => true) (fun _ => True).
Proof.
  intros l Hl Hc. exists [Emit sg]. simpl.
  rewrite observed_app, (Hc eq_refl). simpl.
  split; [reflexivity|]. split; [reflexivity|]. split; [reflexivity|].
  split; [discriminate|]. intros a _. split; [reflexivity|discriminate].
Qed.

Lemma guarded_check (c : bool) (s : site) :
  guarded w c (check w s) negb (fun _ => True).
Proof.
  intros l Hl Hc. unfold check. simpl.
  exists [Check s (Cancel.reads_set (stop_at w) (length l))]. simpl.
  rewrite Bool.eqb_reflx. split; [reflexivity|]. split; [reflexivity|].
  split; [destruct (Cancel.reads_set _ _); reflexivity|]. split; [reflexivity|].
  intros a [= <-]. split; [|auto].
  intros Hr. apply negb_true_iff in Hr.
  rewrite observed_app. simpl. rewrite Hr, orb_false_r.
  eapply honest_unobserved; [exact Hl|]. exact Hr.
Qed.

Lemma guarded_bind {A B} (c : bool) (m : M A) (f : A -> M B) (p1 : A -> bool)
    (R1 : A -> Prop) (p2 : B -> bool) (R : B -> Prop) :
  guarded w c m p1 R1 -> (forall a, guarded w (p1 a) (f a) p2 R) ->
  guarded w c (bind m f) p2 R.
Proof.
  intros Hm Hf l Hl Hc.
  destruct (Hm l Hl Hc) as (d1 & E1 & Hh1 & Hs1 & Hq1 & Hp1).
  unfold bind. destruct (m l) as [[a|e] l1]; simpl in E1; subst l1.
  - destruct (Hp1 a eq_refl) as [Hpost _].
    assert (Hl1 : honest_from w 0 (l ++ d1) = true)
      by (rewrite honest_from_app, Hl; exact Hh1).
    destruct (Hf a (l ++ d1) Hl1 Hpost) as (d2 & E2 & Hh2 & Hs2 & Hq2 & Hp2).
    exists (d1 ++ d2). rewrite E2, app_assoc. split; [reflexivity|].
    split; [rewrite honest_from_app, Hh1; rewrite length_app in Hh2; exact Hh2|].
    split.
    { apply silent_app; auto. intros Ho. apply Hq2. rewrite observed_app, Ho.
      apply orb_true_r. }
    split.
    { intros Ho. rewrite signals_app, (Hq1 Ho), Hq2; [reflexivity|].
      rewrite observed_app, Ho. reflexivity. }
    intros b Hb. rewrite ?app_assoc. apply Hp2, Hb.
  - exists d1. split; [reflexivity|]. split; [exact Hh1|]. split; [exact Hs1|].
    split; [exact Hq1|]. intros b; discriminate.
Qed.

Lemma guarded_try {A} (c : bool) (m : M A) (h : exn -> M A) (p : A -> bool)
    (R : A -> Prop) :
  guarded w c m p R -> (forall e, guarded w false (h e) p R) ->
  guarded w c (try_except m h) p R.
Proof.
  intros Hm Hh l Hl Hc.
  destruct (Hm l Hl Hc) as (d1 & E1 & Hh1 & Hs1 & Hq1 & Hp1).
  unfold try_except. destruct (m l) as [[a|e] l1]; simpl in E1; subst l1.
  - exists d1. split; [reflexivity|]. split; [exact Hh1|]. split; [exact Hs1|].
    split; [exact Hq1|]. exact Hp1.
  - assert (Hl1 : honest_from w 0 (l ++ d1) = true)
      by (rewrite honest_from_app, Hl; exact Hh1).
    destruct (Hh e (l ++ d1) Hl1) as (d2 & E2 & Hh2 & Hs2 & Hq2 & Hp2); [discriminate|].
    exists (d1 ++ d2). rewrite E2, app_assoc. split; [reflexivity|].
    split; [rewrite honest_from_app, Hh1; rewrite length_app in Hh2; exact Hh2|].
    split.
    { apply silent_app; auto. intros Ho. apply Hq2. rewrite observed_app, Ho.
      apply orb_true_r. }
    split.
    { intros Ho. rewrite signals_app, (Hq1 Ho), Hq2; [reflexivity|].
      rewrite observed_app, Ho. reflexivity. }
    intros b Hb. rewrite ?app_assoc. apply Hp2, Hb.
Qed.

End Rules.

Section Item.
Context `{Runtime}.

Lemma save_results_quiet w self filepath text md tables layout raw :
  sound w no_signal (Exporter.save_results w self filepath text md tables layout raw).
Proof.
  eapply sound_weaken; [|apply ExporterFacts.save_results_sound].
  intros e He. destruct e; simpl in He; try contradiction; reflexivity.
Qed.

Lemma finish_item_guarded w row status shown :
  guarded w true (finish_item row status shown) (fun _ => true) (fun _ => True).
Proof.
  unfold finish_item.
  eapply guarded_bind; [apply guarded_emit|intros ?; cbv beta].
  eapply guarded_bind; [apply guarded_emit|intros ?; cbv beta].
  apply guarded_emit.
Qed.

(** One step of a proof of [guarded], following the program. *)
Ltac guarded_step :=
  lazymatch goal with
  | |- guarded _ _ (bind (check _ _) _) _ _ =>
      eapply guarded_bind; [apply guarded_check | intros [|]; cbn [negb]; cbv beta iota]
  | |- guarded _ _ (bind (emit _) _) _ _ =>
      eapply guarded_bind; [apply guarded_emit | intros ?; cbv beta]
  | |- guarded _ _ (bind (finish_item _ _ _) _) _ _ =>
      eapply guarded_bind; [apply finish_item_guarded | intros ?; cbv beta]
  | |- guarded _ _ (bind (lift _) _) _ _ =>
      eapply guarded_bind; [apply guarded_plain, sound_lift | intros ?; cbv beta]
  | |- guarded _ _ (bind (act _) _) _ _ =>
      eapply guarded_bind;
      [apply guarded_plain, sound_act; [exact I | intros ? ?; discriminate]
      | intros ?; cbv beta]
  | |- guarded _ _ (bind (Ocr.ocr_file _ _ _ _ _ _) _) _ _ =>
      eapply guarded_bind;
      [apply guarded_sound, OcrFacts.ocr_file_sound | intros ?; cbv beta]
  | |- guarded _ _ (bind (Exporter.save_results _ _ _ _ _ _ _ _) _) _ _ =>
      eapply guarded_bind;
      [apply guarded_sound, save_results_quiet | intros ?; cbv beta]
  | |- guarded _ true (ret _) _ _ => apply guarded_ret_clean
  | |- guarded _ _ (ret _) _ _ => apply guarded_ret; split; reflexivity
  | |- guarded _ _ (if ?b then _ else _) _ _ => destruct b
  | |- guarded _ _ (match ?x with _ => _ end) _ _ => destruct x
  end.

Lemma on_error_guarded w c index row res :
  guarded w c (on_error w index row res) (fun _ => false) quietly.
Proof. unfold on_error. repeat first [progress cbv zeta | guarded_step]. Qed.

Lemma on_result_guarded w c self index row filepath res :
  guarded w c (on_result w self index row filepath res) (fun _ => false) quietly.
Proof. unfold on_result. repeat first [progress cbv zeta | guarded_step]. Qed.

Lemma on_exception_guarded w index row e :
  guarded w false (on_exception w index row e) (fun _ => false) quietly.
Proof. unfold on_exception. repeat first [progress cbv zeta | guarded_step]. Qed.

Lemma announce_guarded w c row :
  guarded w c (announce w row) (fun _ => false) (fun _ => True).
Proof.
  unfold announce.
  eapply guarded_bind; [apply guarded_check | intros [|]; cbn [negb]; cbv beta iota].
  - apply guarded_ret. exact I.
  - eapply guarded_bind; [apply guarded_emit | intros ?; cbv beta].
    intros l Hl Hc. destruct (guarded_emit (w := w) (ProgressUpdate row 50 100) l Hl Hc)
      as (d & E & Hh & Hs & Hq & Hp).
    exists d. split; [exact E|]. split; [exact Hh|]. split; [exact Hs|]. split; [exact Hq|].
    intros u Hu. split; [discriminate|auto].
Qed.

Lemma read_and_recognise_guarded w c self index row filepath :
  guarded w c (read_and_recognise w self index row filepath) (fun _ => false) quietly.
Proof.
  unfold read_and_recognise.
  repeat first [ apply on_error_guarded | apply on_result_guarded
               | progress cbv zeta | guarded_step ].
Qed.

Lemma process_single_file_guarded w self index filepath :
  guarded w false (process_single_file w self index filepath) (fun _ => false) quietly.
Proof.
  unfold process_single_file, item_body.
  repeat first [ apply guarded_try; [|intros ?; apply on_exception_guarded]
               | eapply guarded_bind; [apply announce_guarded | intros ?; cbv beta]
               | apply read_and_recognise_guarded
               | progress cbv zeta | guarded_step ].
Qed.

(** The pipeline returns, whatever happens inside it. *)
Lemma process_single_file_returns w self index filepath l :
  exists o, fst (process_single_file w self index filepath l) = Ok o.
Proof.
  unfold process_single_file. rewrite WorkerFacts.display_slot_value.
  unfold bind at 1, lift. unfold bind at 1, check. cbv beta iota zeta.
  destruct (Cancel.reads_set _ _); [eexists; reflexivity|].
  unfold try_except.
  destruct (item_body _ _ _ _ _ _) as [[o|e] l']; [eexists; reflexivity|].
  unfold on_exception, finish_item, emit, act, bind, check, ret.
  cbv beta iota zeta.
  destruct (Cancel.reads_set _ _); eexists; reflexivity.
Qed.

(** ** Uncancelled items *)

Section Uncancelled.
Variable w : World.
Hypothesis never : stop_at w = None.

Lemma concludes_check pre row (s : site) (f : bool -> M outcome) :
  concludes pre row (f false) -> concludes pre row (bind (check w s) f).
Proof.
  intros Hf l. unfold bind, check. cbv beta iota zeta.
  rewrite never. cbn [Cancel.reads_set].
  destruct (Hf (l ++ [Check s false])) as (d & E & Hd).
  exists (Check s false :: d). rewrite E, <- app_assoc. split; [reflexivity|].
  exact Hd.
Qed.

Lemma concludes_quiet {A} row (m : M A) (f : A -> M outcome) :
  sound w no_signal m -> (forall a, concludes [] row (f a)) ->
  concludes [] row (bind m f).
Proof.
  intros Hm Hf l. destruct (Hm l) as (d1 & E1 & Q1 & _).
  apply no_signal_signals in Q1.
  unfold bind. destruct (m l) as [[a|e] l1]; simpl in E1; subst l1.
  - destruct (Hf a (l ++ d1)) as (d2 & E2 & Hd).
    exists (d1 ++ d2). rewrite E2, app_assoc. split; [reflexivity|].
    rewrite signals_app, Q1. exact Hd.
  - exists d1. split; [reflexivity|exact Q1].
Qed.

Lemma concludes_leaf row status shown (o : outcome) :
  In status terminal_statuses -> o_status o = Some status ->
  concludes [] row (bind (finish_item row status shown) (fun _ => ret o)).
Proof.
  intros Hs Ho l.
  exists [Emit (StatusUpdate row status); Emit (ProgressUpdate row 100 100);
          Emit (ResultUpdate row shown)].
  unfold finish_item, emit, act, bind, ret. cbv beta iota zeta.
  rewrite <- !app_assoc. split; [reflexivity|].
  exists status, shown. auto.
Qed.

Lemma concludes_try pre row (m : M outcome) (h : exn -> M outcome) :
  concludes pre row m -> (forall e, concludes [] row (h e)) ->
  concludes pre row (try_except m h).
Proof.
  intros Hm Hh l. destruct (Hm l) as (d1 & E1 & H1).
  unfold try_except. destruct (m l) as [[a|e] l1]; simpl in E1, H1; subst l1.
  - exists d1. split; [reflexivity|exact H1].
  - destruct (Hh e (l ++ d1)) as (d2 & E2 & H2).
    exists (d1 ++ d2). rewrite E2, app_assoc. split; [reflexivity|].
    rewrite signals_app, H1.
    destruct (fst (h e (l ++ d1))).
    + destruct H2 as (status & shown & H2 & Hin & Hst).
      exists status, shown. rewrite H2. auto.
    + rewrite H2. apply app_nil_r.
Qed.

Lemma concludes_announce row (k : M outcome) :
  concludes [] row k ->
  concludes (processing row) row (bind (announce w row) (fun _ => k)).
Proof.
  intros Hk l. unfold announce, emit, act, bind, check, ret. cbv beta iota zeta.
  rewrite never. cbn [Cancel.reads_set]. cbv beta iota.
  rewrite <- !app_assoc. cbn [app].
  destruct (Hk (l ++ [Check BeforeStatus false; Emit (StatusUpdate row "处理中...");
                      Emit (ProgressUpdate row 50 100)])) as (d & E & Hd).
  exists ([Check BeforeStatus false; Emit (StatusUpdate row "处理中...");
           Emit (ProgressUpdate row 50 100)] ++ d).
  rewrite E, <- app_assoc. split; [reflexivity|].
  rewrite signals_app. change (signals [_; _; _]) with (processing row).
  destruct (fst (k _)).
  - destruct Hd as (status & shown & Hd & Hin & Hst).
    exists status, shown. rewrite Hd. auto.
  - rewrite Hd. apply app_nil_r.
Qed.

End Uncancelled.

(** One step of a proof of [concludes], following the program. *)
Ltac concludes_step w never :=
  lazymatch goal with
  | |- concludes _ _ (bind (check _ _) _) =>
      apply (concludes_check w never); cbv beta iota
  | |- concludes _ _ (bind (finish_item _ _ _) _) =>
      apply concludes_leaf; [simpl; tauto | reflexivity]
  | |- concludes _ _ (bind (lift _) _) =>
      eapply (concludes_quiet w); [apply sound_lift | intros ?; cbv beta]
  | |- concludes _ _ (bind (act _) _) =>
      eapply (concludes_quiet w);
      [apply sound_act; [reflexivity | intros ? ?; discriminate] | intros ?; cbv beta]
  | |- concludes _ _ (bind (Ocr.ocr_file _ _ _ _ _ _) _) =>
      eapply (concludes_quiet w); [apply OcrFacts.ocr_file_sound | intros ?; cbv beta]
  | |- concludes _ _ (bind (Exporter.save_results _ _ _ _ _ _ _ _) _) =>
      eapply (concludes_quiet w); [apply save_results_quiet | intros ?; cbv beta]
  | |- concludes _ _ (if ?b then _ else _) => destruct b
  | |- concludes _ _ (match ?x with _ => _ end) => destruct x
  end.

(** With the token never set, an item is announced and then ends in exactly
    one terminal update, which the returned tuple reports. *)
Lemma pipeline_uncancelled w self index filepath :
  stop_at w = None ->
  concludes
    (processing (match row_indices self !! index with
                 | Some r => r | None => Z.of_nat index end))
    (match row_indices self !! index with Some r => r | None => Z.of_nat index end)
    (process_single_file w self index filepath).
Proof.
  intros never. unfold process_single_file.
  rewrite WorkerFacts.display_slot_value.
  set (row := match row_indices self !! index with
              | Some r => r | None => Z.of_nat index end).
  assert (E : forall (k : Z -> M outcome), bind (lift (Ok row)) k = k row) by reflexivity.
  rewrite E. clear E.
  apply (concludes_check _ never). cbv beta iota.
  apply concludes_try.
  - unfold item_body. apply (concludes_announce _ never).
    unfold read_and_recognise, on_error, on_result.
    repeat first [progress cbv zeta | concludes_step w never].
  - intros e. unfold on_exception.
    repeat first [progress cbv zeta | concludes_step w never].
Qed.

End Item.

(** Whatever the world does, the pipeline of an item returns, and it
    reads the token truthfully at each of its check points (before starting,
    before the processing status, before reading the file, before and right
    after the API call, before an error update, after the persist step,
    before a no-content update and in the exception handler).  Once one of
    them has read the token set, the pipeline emits no status, progress or
    result signal any more, and what it returns is the silent tuple: no
    status, and the message that the user stopped the task. *)
Theorem silent_after_cancellation `{Runtime} (w : World) (self : BatchWorker)
    (index : nat) (filepath : string) :
  exists o,
    fst (process_single_file w self index filepath []) = Ok o /\
    honest_from w 0 (snd (process_single_file w self index filepath [])) = true /\
    silent_after_set (snd (process_single_file w self index filepath [])) = true /\
    (forall pre s post,
        snd (process_single_file w self index filepath []) = pre ++ Check s true :: post ->
        signals post = []) /\
    (observed (snd (process_single_file w self index filepath [])) = true ->
     o_status o = None /\ o_result o = stopped_msg) /\
    (Cancel.reads_set (stop_at w) 0 = true ->
     signals (snd (process_single_file w self index filepath [])) = []).
Proof.
  destruct (process_single_file_returns w self index filepath []) as [o Ho].
  destruct (process_single_file_guarded w self index filepath [] eq_refl)
    as (d & E & Hh & Hs & _ & Hr); [discriminate|].
  simpl in E. rewrite E. exists o.
  split; [exact Ho|]. split; [exact Hh|]. split; [exact Hs|].
  split; [apply silent_after_set_spec, Hs|].
  split; [intros Ho'; apply (Hr o Ho), Ho'|].
  intros Hset. rewrite <- E.
  unfold process_single_file. rewrite WorkerFacts.display_slot_value.
  unfold bind at 1, lift. unfold bind at 1, check. cbv beta iota zeta.
  cbn [length]. rewrite Hset. reflexivity.
Qed.

(** C1 fails on the code.  The token becomes set at instant 2, right after
    the check that guards the processing status read it unset: the status
    and the progress update are emitted all the same, at instants 2 and 3,
    when the token already reads set; the next check reads it set and the
    pipeline returns silently. *)
Lemma update_after_token_set :
  snd (@process_single_file Sample.ascii_runtime (Sample.calm (Some 2) Sample.answering)
         Sample.two_images 0 "scans/a.png" [])
  = [Check BeforeStart false; Check BeforeStatus false;
     Emit (StatusUpdate 0 "处理中..."); Emit (ProgressUpdate 0 50 100);
     Check BeforeRead true] /\
  Cancel.reads_set (stop_at (Sample.calm (Some 2) Sample.answering)) 2 = true /\
  Cancel.reads_set (stop_at (Sample.calm (Some 2) Sample.answering)) 3 = true.
Proof. vm_compute. repeat split. Qed.

End PipelineFacts.

(* ===================================================================== *)
(** * Facts about [BatchWorker.run] *)
(* ===================================================================== *)
Module RunFacts.
Import Py Eff Worker Run EffFacts.

(** Entries other than the two job events. *)
Definition inner (e : entry) : Prop :=
  match e with
  | Emit Finished | Emit Stopped => False
  | _ => True
  end.

(** Entries other than job events and submissions. *)
Definition settled (e : entry) : Prop :=
  match e with
  | Emit Finished | Emit Stopped | Submit _ => False
  | _ => True
  end.

(** Entries of directory and pool set-up. *)
Definition arranging (e : entry) : Prop :=
  match e with
  | MkDirs _ | PoolCreated _ => True
  | _ => False
  end.

Definition job_event (sg : signal) : bool :=
  match sg with
  | Finished | Stopped => true
  | _ => false
  end.

(** The job events of a log, in order. *)
Definition job_events (l : list entry) : list signal :=
  List.filter job_event (signals l).

(** The display slot of item [j]. *)
Definition slot (self : BatchWorker) (j : nat) : Z :=
  match row_indices self !! j with
  | Some r => r
  | None => Z.of_nat j
  end.

(** The two signals that mark each item of [js] as stopped by the user. *)
Definition markers (self : BatchWorker) (js : list nat) : list signal :=
  flat_map (fun j => [StatusUpdate (slot self j) "已终止";
                      ResultUpdate (slot self j) "用户已终止任务"]) js.

(** The judgement behind C2 and C3, at a log [l].  The computation returns
    some [a] and appends [d], whose entries satisfy [Q] and whose reads are
    honest.  The flag [c] says that the token has been seen set before:
    [p a] holds only if it has been seen set by then, and signals are
    emitted only if it has.  [R] is what else the result and [d] satisfy. *)
Definition tracked_at {A} (w : World) (Q : entry -> Prop) (c : bool) (m : M A)
    (p : A -> bool) (R : A -> list entry -> Prop) (l : list entry) : Prop :=
  exists a d,
    m l = (Ok a, l ++ d) /\
    Forall Q d /\
    honest_from w (length l) d = true /\
    (p a = true -> c = true \/ observed d = true) /\
    (c = true \/ observed d = true \/ signals d = []) /\
    R a d.

(** The flag that [orchestrate] returns. *)
Definition flag_of (r : option locals) : bool :=
  match r with
  | Some loc => was_stopped loc
  | None => false
  end.

(** Set-up returns: the output directory exists or is created, and the
    pool is created. *)
Definition setup_returns (w : World) (self : BatchWorker) : Prop :=
  fst (setup w self []) = Ok tt.


(** ** Logs *)

Lemma submitted_app (l d : list entry) : submitted (l ++ d) = submitted l ++ submitted d.
Proof. unfold submitted. apply omap_app. Qed.

Lemma settled_inner (e : entry) : settled e -> inner e.
Proof. destruct e as [| [] | | | | | | | | | | |]; simpl; auto. Qed.

Lemma settled_submitted (d : list entry) : Forall settled d -> submitted d = [].
Proof.
  induction 1 as [|e d He _ IH]; [reflexivity|].
  destruct e; simpl in *; try contradiction; exact IH.
Qed.

Lemma inner_job_events (d : list entry) : Forall inner d -> job_events d = [].
Proof.
  induction 1 as [|e d He _ IH]; [reflexivity|].
  destruct e as [| [] | | | | | | | | | | |]; simpl in *; try contradiction; exact IH.
Qed.

Lemma job_events_app (l d : list entry) : job_events (l ++ d) = job_events l ++ job_events d.
Proof. unfold job_events. rewrite signals_app. apply List.filter_app. Qed.

(** ** Rules for [tracked_at] *)

Section Rules.
Context {w : World} {Q : entry -> Prop}.

Lemma tracked_ret {A} c (a : A) (p : A -> bool) (R : A -> list entry -> Prop) l :
  (p a = true -> c = true) -> R a [] -> tracked_at w Q c (ret a) p R l.
Proof.
  intros Hp HR. exists a, []. rewrite app_nil_r.
  split; [reflexivity|]. split; [constructor|]. split; [reflexivity|].
  split; [auto|]. split; [auto|exact HR].
Qed.

Lemma tracked_bind {A B} c (m : M A) (f : A -> M B) p1 R1 p2 R l :
  tracked_at w Q c m p1 R1 l ->
  (forall a d1, R1 a d1 ->
     tracked_at w Q (p1 a) (f a) p2 (fun b d2 => R b (d1 ++ d2)) (l ++ d1)) ->
  tracked_at w Q c (bind m f) p2 R l.
Proof.
  intros (a & d1 & E1 & Q1 & H1 & F1 & X1 & HR1) Hf.
  destruct (Hf a d1 HR1) as (b & d2 & E2 & Q2 & H2 & F2 & X2 & HR2).
  exists b, (d1 ++ d2). unfold bind. rewrite E1, E2, app_assoc.
  split; [reflexivity|]. split; [apply Forall_app; auto|].
  split; [rewrite honest_from_app, H1; rewrite length_app in H2; exact H2|].
  rewrite observed_app, signals_app.
  split; [|split; [|exact HR2]].
  - intros Hb. destruct (F2 Hb) as [Ha|Ho].
    + destruct (F1 Ha) as [Hc|Ho]; [left; exact Hc|right; rewrite Ho; reflexivity].
    + right. rewrite Ho. apply orb_true_r.
  - destruct X1 as [Hc|[Ho|Hs1]]; [left; exact Hc|right; left; rewrite Ho; reflexivity|].
    destruct X2 as [Ha|[Ho|Hs2]].
    + destruct (F1 Ha) as [Hc|Ho]; [left; exact Hc|right; left; rewrite Ho; reflexivity].
    + right. left. rewrite Ho. apply orb_true_r.
    + right. right. rewrite Hs1, Hs2. reflexivity.
Qed.

Lemma tracked_check c (s : site) l :
  (forall v, Q (Check s v)) ->
  tracked_at w Q c (check w s) (fun b => b || c)
    (fun b d => d = [Check s b] /\ b = Cancel.reads_set (stop_at w) (length l)) l.
Proof.
  intros HQ. exists (Cancel.reads_set (stop_at w) (length l)),
    [Check s (Cancel.reads_set (stop_at w) (length l))].
  split; [reflexivity|]. split; [repeat constructor; apply HQ|].
  split; [simpl; now rewrite Bool.eqb_reflx|].
  split; [|split; [|split; reflexivity]].
  - intros Hb. apply orb_true_iff in Hb as [Hb|Hc]; [right|left; exact Hc].
    simpl. rewrite Hb. reflexivity.
  - right. right. reflexivity.
Qed.

Lemma tracked_act c (e : entry) l :
  Q e -> (forall s v, e <> Check s v) -> is_signal e = false ->
  tracked_at w Q c (act e) (fun _ => c) (fun _ d => d = [e]) l.
Proof.
  intros HQ Hc Hs. exists tt, [e].
  split; [reflexivity|]. split; [repeat constructor; exact HQ|].
  split; [destruct e; try reflexivity; exfalso; eapply Hc; reflexivity|].
  split; [auto|]. split; [|reflexivity].
  right. right. destruct e; simpl in *; try reflexivity; discriminate.
Qed.

Lemma tracked_emit (sg : signal) l :
  Q (Emit sg) ->
  tracked_at w Q true (emit sg) (fun _ => true) (fun _ d => d = [Emit sg]) l.
Proof.
  intros HQ. exists tt, [Emit sg].
  split; [reflexivity|]. split; [repeat constructor; exact HQ|].
  split; [reflexivity|]. split; [auto|]. split; [auto|reflexivity].
Qed.

Lemma tracked_poll c (i : nat) l :
  (forall v, Q (Poll i v)) ->
  tracked_at w Q c (poll w i) (fun _ => c)
    (fun b d => d = [Poll i b] /\ b = (finish w i <=? length l)) l.
Proof.
  intros HQ. exists (finish w i <=? length l), [Poll i (finish w i <=? length l)].
  split; [reflexivity|]. split; [repeat constructor; apply HQ|].
  split; [reflexivity|]. split; [auto|]. split; [|split; reflexivity].
  right. right. reflexivity.
Qed.

Lemma tracked_conseq {A} c (m : M A) p (R R' : A -> list entry -> Prop) l :
  tracked_at w Q c m p R l -> (forall a d, R a d -> R' a d) ->
  tracked_at w Q c m p R' l.
Proof.
  intros (a & d & E & HQ & Hh & F & X & HR) HR'.
  exists a, d. split; [exact E|]. split; [exact HQ|]. split; [exact Hh|].
  split; [exact F|]. split; [exact X|]. apply HR', HR.
Qed.

End Rules.

Lemma tracked_weaken {A} w (Q Q' : entry -> Prop) c (m : M A) p R l :
  (forall e, Q e -> Q' e) -> tracked_at w Q c m p R l ->
  tracked_at w Q' c m p (fun a d => R a d /\ Forall Q d) l.
Proof.
  intros HQQ (a & d & E & HQ & Hh & F & X & HR).
  exists a, d. split; [exact E|]. split; [eapply Forall_impl; [exact HQ|exact HQQ]|].
  split; [exact Hh|]. split; [exact F|]. split; [exact X|]. split; assumption.
Qed.

(** ** The waits between submissions *)

Section Loops.
Variable w : World.

Ltac after_check :=
  eapply tracked_bind; [apply tracked_check; intros ?; exact I|];
  intros [|] ? [-> ?]; cbn [orb]; cbv beta.

Ltac then_act :=
  eapply tracked_bind;
  [apply tracked_act; [exact I | intros ? ?; discriminate | reflexivity]|];
  intros [] ? ->; cbv beta.

Lemma first_delay_tracked c n l :
  tracked_at w settled c (first_delay w n) (fun _ => c) (fun _ _ => True) l.
Proof.
  revert l. induction n as [|n IH]; intros l; simpl.
  - apply tracked_ret; auto.
  - after_check.
    + apply tracked_ret; auto.
    + then_act. eapply tracked_conseq; [apply IH|auto].
Qed.

Lemma extra_delay_tracked c prev n l :
  tracked_at w settled c (extra_delay w prev n) (fun _ => c) (fun _ _ => True) l.
Proof.
  revert l. induction n as [|n IH]; intros l; simpl.
  - apply tracked_ret; auto.
  - after_check.
    + apply tracked_ret; auto.
    + eapply tracked_bind; [apply tracked_poll; intros ?; exact I|].
      intros [|] ? [-> ?]; cbv beta.
      * apply tracked_ret; auto.
      * then_act. eapply tracked_conseq; [apply IH|auto].
Qed.

Lemma delay_tracked c futures l :
  tracked_at w settled c (delay w futures) (fun _ => c) (fun _ _ => True) l.
Proof.
  unfold delay.
  eapply tracked_bind; [apply first_delay_tracked|]. intros [] d0 _. cbv beta.
  after_check.
  - apply tracked_ret; auto.
  - destruct (last futures) as [prev|].
    + eapply tracked_bind; [apply tracked_poll; intros ?; exact I|].
      intros [|] ? [-> ?]; cbv beta.
      * apply tracked_ret; auto.
      * eapply tracked_conseq; [apply extra_delay_tracked|auto].
    + apply tracked_ret; auto.
Qed.

(** ** Marking items as stopped *)

Lemma mark_stopped_spec self j l :
  mark_stopped self j l = (Ok tt, l ++ map Emit (markers self [j])).
Proof.
  unfold mark_stopped. rewrite WorkerFacts.display_slot_value.
  unfold bind, lift, emit, act. simpl. rewrite <- app_assoc. reflexivity.
Qed.

Lemma for_each_marks self js l :
  for_each (mark_stopped self) js l = (Ok tt, l ++ map Emit (markers self js)).
Proof.
  revert l. induction js as [|j js IH]; intros l; simpl.
  - now rewrite app_nil_r.
  - unfold bind. rewrite mark_stopped_spec, IH. simpl.
    rewrite <- app_assoc. reflexivity.
Qed.


Lemma honest_emitted i (sgs : list signal) : honest_from w i (map Emit sgs) = true.
Proof. revert i. induction sgs as [|sg sgs IH]; intros i; simpl; auto. Qed.

Lemma observed_emitted (sgs : list signal) : observed (map Emit sgs) = false.
Proof. induction sgs as [|sg sgs IH]; simpl; auto. Qed.

Lemma markers_settled self js : Forall settled (map Emit (markers self js)).
Proof.
  induction js as [|j js IH]; simpl; [constructor|].
  constructor; [exact I|]. constructor; [exact I|]. exact IH.
Qed.

Lemma marks_tracked self js l :
  tracked_at w settled true (for_each (mark_stopped self) js) (fun _ => true)
    (fun _ d => d = map Emit (markers self js)) l.
Proof.
  exists tt, (map Emit (markers self js)).
  split; [apply for_each_marks|]. split; [apply markers_settled|].
  split; [apply honest_emitted|]. split; [auto|]. split; [auto|reflexivity].
Qed.

(** ** The submission loop *)

Lemma submit_loop_tracked self c rest i futures l :
  tracked_at w inner c (submit_loop w self i rest futures) (fun r => fst r || c)
    (fun r d =>
       (forall j, In j (snd r) -> In j futures \/ i <= j < i + length rest) /\
       (observed d = false ->
        r = (false, futures ++ seq i (length rest)) /\
        submitted d = seq i (length rest))) l.
Proof.
  revert i futures l. induction rest as [|f rest IH]; intros i futures l; simpl.
  - apply tracked_ret; [simpl; auto|].
    split; [auto|]. intros _. now rewrite app_nil_r.
  - eapply tracked_bind; [apply tracked_check; intros ?; exact I|].
    intros [|] ? [-> Hb]; cbn [orb]; cbv beta.
    + eapply tracked_bind.
      { eapply (tracked_weaken w settled inner); [apply settled_inner|apply marks_tracked]. }
      intros [] d1 [-> _]. cbv beta.
      apply tracked_ret; [auto|]. split; [auto|]. simpl. discriminate.
    + eapply tracked_bind;
        [apply tracked_act; [exact I | intros ? ?; discriminate | reflexivity]|].
      intros [] ? ->. cbv beta zeta.
      eapply tracked_bind.
      { instantiate (1 := fun _ d => Forall settled d). instantiate (1 := fun _ => c).
        destruct (i <? length (files self) - 1).
        - eapply tracked_conseq.
          + eapply (tracked_weaken w settled inner); [apply settled_inner|apply delay_tracked].
          + intros a d H. apply H.
        - apply tracked_ret; auto. }
      intros [] d3 Hd3. cbv beta.
      eapply tracked_conseq; [apply IH|]. cbv beta.
      intros [st fs] d [Hfs Hd]. simpl in *. split.
      * intros j Hj. destruct (Hfs j Hj) as [Hin|Hin]; [|right; lia].
        apply in_app_or in Hin as [Hin|[<-|[]]]; [left; exact Hin|right; lia].
      * intros Ho. rewrite !observed_app in Ho.
        apply orb_false_iff in Ho as [_ Ho].
        destruct (Hd Ho) as [Hr Hs].
        rewrite <- app_assoc in Hr. split; [exact Hr|].
        rewrite !submitted_app, (settled_submitted d3 Hd3), Hs. reflexivity.
Qed.

(** ** The drain loop *)

Lemma remove_all_In done pending i :
  In i pending -> In i (remove_all done pending) \/ In i done.
Proof.
  intros Hi. unfold remove_all.
  destruct (existsb (Nat.eqb i) done) eqn:E.
  - right. apply existsb_exists in E as (j & Hj & Hij).
    apply Nat.eqb_eq in Hij. now subst.
  - left. apply List.filter_In. split; [exact Hi|]. now rewrite E.
Qed.

Lemma remove_all_sub done pending i : In i (remove_all done pending) -> In i pending.
Proof. unfold remove_all. intros Hi. now apply List.filter_In in Hi. Qed.

Lemma remove_all_self pending : remove_all pending pending = [].
Proof.
  unfold remove_all.
  assert (G : forall done, (forall i, In i pending -> In i done) ->
            List.filter (fun i => negb (existsb (Nat.eqb i) done)) pending = []).
  { induction pending as [|i pending IH]; intros done Hd; simpl; [reflexivity|].
    assert (E : existsb (Nat.eqb i) done = true).
    { apply existsb_exists. exists i. split; [apply Hd; now left|apply Nat.eqb_refl]. }
    rewrite E. simpl. apply IH. intros j Hj. apply Hd. now right. }
  apply G. auto.
Qed.

Lemma poll_all_tracked c pending l :
  tracked_at w settled c (poll_all w pending) (fun _ => c)
    (fun done d =>
       (forall i, In i done -> In (Poll i true) d) /\
       ((forall i, In i pending -> finish w i <= length l) -> done = pending) /\
       (pending <> [] -> d <> [])) l.
Proof.
  revert l. induction pending as [|i pending IH]; intros l; simpl.
  - apply tracked_ret; [auto|]. split; [intros i []|]. split; auto.
  - eapply tracked_bind; [apply tracked_poll; intros ?; exact I|].
    intros b ? [-> Hb]; cbv beta.
    eapply tracked_bind; [apply IH|]. intros done d (Hdone & Hall & _). cbv beta.
    apply tracked_ret; [auto|]. rewrite app_nil_r.
    split; [|split].
    + intros j Hj. destruct b.
      * destruct Hj as [<-|Hj]; [now left|right; auto].
      * right. auto.
    + intros Hfin. assert (b = true) as ->.
      { rewrite Hb. apply Nat.leb_le. apply Hfin. now left. }
      f_equal. apply Hall. intros j Hj. rewrite length_app. simpl.
      specialize (Hfin j (or_intror Hj)). lia.
    + discriminate.
Qed.

(** What [drain] needs to end with the fuel it has. *)
Lemma drain_tracked c fuel pending l :
  pending = [] \/ (0 < fuel /\ forall i, In i pending -> finish w i <= fuel + length l) ->
  tracked_at w settled c (drain fuel w pending) (fun _ => c)
    (fun r d => exists pend, r = Some pend /\
       (observed d = false ->
        pend = [] /\ forall i, In i pending -> In (Poll i true) d)) l.
Proof.
  revert pending l. induction fuel as [|fuel IH]; intros pending l Hpre.
  - destruct Hpre as [->|[Hf _]]; [|lia]. simpl.
    apply tracked_ret; [auto|]. exists []. split; [reflexivity|]. intros _.
    split; [reflexivity|]. intros i [].
  - destruct pending as [|i0 rest].
    { simpl. apply tracked_ret; [auto|]. exists []. split; [reflexivity|]. intros _.
      split; [reflexivity|]. intros i []. }
    destruct Hpre as [Hpre|[_ Hfin]]; [discriminate|].
    set (pending := i0 :: rest) in *.
    change (drain (S fuel) w pending) with
      (bind (check w DrainGuard) (fun b : bool =>
         if b then ret (Some pending) else
         bind (poll_all w pending) (fun done =>
           let pending := remove_all done pending in
           match pending with
           | [] => drain fuel w pending
           | _ :: _ =>
               bind (check w DrainSleep) (fun b : bool =>
                 bind (if b then ret tt else act (Sleep 1)) (fun _ =>
                   drain fuel w pending))
           end))).
    eapply tracked_bind; [apply tracked_check; intros ?; exact I|].
    intros [|] ? [-> Hb]; cbn [orb]; cbv beta.
    + apply tracked_ret; [auto|]. exists pending. split; [reflexivity|].
      simpl. discriminate.
    + eapply tracked_bind; [apply poll_all_tracked|].
      intros done d1 (Hdone & Hall & Hne). cbv beta zeta.
      assert (Hlen : 1 <= length d1).
      { destruct d1; [exfalso; apply Hne; [discriminate|reflexivity]|simpl; lia]. }
      destruct (remove_all done pending) as [|j0 rest'] eqn:Erem.
      * eapply tracked_conseq; [apply IH; now left|]. cbv beta.
        intros r d (pend & -> & Hp). exists pend. split; [reflexivity|].
        intros Ho. rewrite !observed_app in Ho.
        apply orb_false_iff in Ho as [_ Ho]. apply orb_false_iff in Ho as [_ Ho].
        destruct (Hp Ho) as [-> _]. split; [reflexivity|].
        intros i Hi. destruct (remove_all_In done pending i Hi) as [Hin|Hin].
        -- rewrite Erem in Hin. destruct Hin.
        -- apply in_or_app. right. apply in_or_app. left. auto.
      * assert (Hfuel : 0 < fuel).
        { destruct fuel; [|lia]. exfalso.
          assert (done = pending) as ->.
          { apply Hall. intros i Hi. rewrite length_app. simpl.
            specialize (Hfin i Hi). lia. }
          rewrite remove_all_self in Erem. discriminate. }
        eapply tracked_bind; [apply tracked_check; intros ?; exact I|].
        intros b ? [-> Hb']; cbv beta.
        eapply (tracked_bind _ _ _ (fun _ => orb b c) (fun _ _ => True)).
        { destruct b.
          - apply tracked_ret; auto.
          - eapply tracked_conseq;
              [apply tracked_act; [exact I | intros ? ?; discriminate | reflexivity]|auto]. }
        intros [] d3 _. cbv beta.
        eapply (tracked_conseq _ _ _ (fun r d => exists pend, r = Some pend /\
             (observed d = false ->
              pend = [] /\ forall i, In i (j0 :: rest') -> In (Poll i true) d))).
        { destruct (IH (j0 :: rest') ((((l ++ [Check DrainGuard false]) ++ d1) ++
                      [Check DrainSleep b]) ++ d3))
            as (r & d & E & HQ & Hh & F & X & HR).
          { right. split; [exact Hfuel|]. intros i Hi.
            rewrite <- Erem in Hi. apply remove_all_sub in Hi.
            specialize (Hfin i Hi). rewrite !length_app. simpl. lia. }
          exists r, d. split; [exact E|]. split; [exact HQ|]. split; [exact Hh|].
          split; [|split; [|exact HR]].
          - intros Hc. destruct (F Hc) as [Hc'|Ho]; [|right; exact Ho].
            left. rewrite Hc'. apply orb_true_r.
          - destruct X as [Hc'|X]; [|right; exact X].
            left. rewrite Hc'. apply orb_true_r. }
        cbv beta. intros r d (pend & -> & Hp). exists pend. split; [reflexivity|].
        intros Ho. rewrite !observed_app in Ho.
        repeat (apply orb_false_iff in Ho as [_ Ho]).
        destruct (Hp Ho) as [-> Hpolls]. split; [reflexivity|].
        intros i Hi. destruct (remove_all_In done pending i Hi) as [Hin|Hin].
        -- rewrite Erem in Hin. repeat (apply in_or_app; right). auto.
        -- apply in_or_app. right. apply in_or_app. left. auto.
Qed.

(** ** The [try] block *)

Lemma finish_bound n j : j < n -> finish w j < enough w n.
Proof.
  intros Hj. unfold enough.
  assert (Hall : Forall (fun k => k <= list_max (map (finish w) (seq 0 n)))
                        (map (finish w) (seq 0 n))) by (apply list_max_le; lia).
  rewrite List.Forall_forall in Hall.
  specialize (Hall (finish w j)).
  assert (Hin : In (finish w j) (map (finish w) (seq 0 n))).
  { apply in_map, in_seq. lia. }
  specialize (Hall Hin). lia.
Qed.

Lemma orchestrate_tracked self fuel l :
  enough w (length (files self)) <= fuel ->
  tracked_at w inner false (orchestrate fuel w self) flag_of
    (fun r d => exists loc, r = Some loc /\ executor loc = true /\
       (observed d = false ->
        submitted d = seq 0 (length (files self)) /\
        forall i, i < length (files self) -> In (Poll i true) d)) l.
Proof.
  intros Hfuel. unfold orchestrate.
  eapply tracked_bind; [apply submit_loop_tracked|].
  intros [stopped futures] d1 [Hfs Hd1]. cbv beta iota.
  eapply tracked_bind; [apply tracked_check; intros ?; exact I|].
  intros [|] ? [-> Hb]; cbn [orb fst]; cbv beta.
  - eapply tracked_bind;
      [apply tracked_act; [exact I | intros ? ?; discriminate | reflexivity]|].
    intros [] ? ->. cbv beta.
    apply tracked_ret; [auto|]. eexists. split; [reflexivity|]. split; [reflexivity|].
    intros Ho. rewrite !observed_app in Ho. simpl in Ho.
    rewrite ?orb_true_r in Ho. discriminate.
  - eapply tracked_bind.
    { eapply (tracked_weaken w settled inner); [apply settled_inner|].
      apply drain_tracked. right. split; [unfold enough in Hfuel; lia|].
      intros i Hi. destruct (Hfs i Hi) as [[]|Hlt]. simpl in Hlt.
      pose proof (finish_bound (length (files self)) i). lia. }
    intros r d2 [(pend & -> & Hpend) Hset]. cbv beta iota.
    eapply tracked_bind; [apply tracked_check; intros ?; exact I|].
    intros [|] ? [-> Hb2]; cbn [orb]; cbv beta.
    + eapply tracked_bind.
      { eapply (tracked_weaken w settled inner); [apply settled_inner|apply marks_tracked]. }
      intros [] d3 [-> _]. cbv beta.
      apply tracked_ret; [auto|]. eexists. split; [reflexivity|]. split; [reflexivity|].
      intros Ho. rewrite !observed_app in Ho. simpl in Ho.
      rewrite ?orb_true_r in Ho. discriminate.
    + apply tracked_ret; [simpl; intros ->; reflexivity|].
      eexists. split; [reflexivity|]. split; [reflexivity|].
      rewrite app_nil_r. intros Ho. rewrite !observed_app in Ho.
      apply orb_false_iff in Ho as [Ho1 Ho]. apply orb_false_iff in Ho as [_ Ho].
      apply orb_false_iff in Ho as [Ho2 _].
      destruct (Hd1 Ho1) as [Hr Hs]. injection Hr as -> ->.
      destruct (Hpend Ho2) as [_ Hpolls].
      split.
      * rewrite !submitted_app, Hs, (settled_submitted d2 Hset). simpl.
        now rewrite app_nil_r.
      * intros i Hi. apply in_or_app. right. apply in_or_app. right.
        apply in_or_app. left. apply Hpolls. simpl. apply in_seq. lia.
Qed.

(** ** The [finally] clause *)

Lemma finally_spec loc l :
  honest_from w 0 l = true ->
  exists d v,
    finally w loc l = (Ok tt, l ++ d ++ [Emit (if v : bool then Stopped else Finished)]) /\
    Forall settled d /\ signals d = [] /\ submitted d = [] /\ posts d = [] /\
    honest_from w (length l) d = true /\
    v = was_stopped loc || observed d /\
    (v = false -> observed l = false).
Proof.
  intros Hl.
  assert (Hlate : forall k, Cancel.reads_set (stop_at w) (length l + k) = false ->
                            observed l = false).
  { intros k Hk. apply (honest_unobserved w 0 l Hl). simpl.
    destruct (Cancel.reads_set (stop_at w) (length l)) eqn:E; [|reflexivity].
    rewrite (reads_set_mono (stop_at w) (length l) (length l + k)) in Hk; [discriminate|lia|exact E]. }
  unfold finally, bind, emit, act, check, ret.
  destruct loc as [[|] [|]]; cbn [executor was_stopped]; cbv beta iota zeta.
  - exists [Shutdown], true. rewrite <- app_assoc.
    repeat split; auto; try discriminate. repeat constructor.
  - exists [], true. repeat split; auto; discriminate.
  - exists [Shutdown; Check FinalCheck (Cancel.reads_set (stop_at w) (length (l ++ [Shutdown])))],
      (Cancel.reads_set (stop_at w) (length (l ++ [Shutdown]))).
    split.
    + destruct (Cancel.reads_set _ _); rewrite <- !app_assoc; reflexivity.
    + split; [repeat constructor|]. split; [reflexivity|]. split; [reflexivity|].
      split; [reflexivity|].
      split; [|split; [destruct (Cancel.reads_set _ _); reflexivity|]].
      * simpl. rewrite length_app. simpl. rewrite Nat.add_1_r.
        now rewrite Bool.eqb_reflx.
      * rewrite length_app. apply Hlate.
  - exists [Check FinalCheck (Cancel.reads_set (stop_at w) (length l))],
      (Cancel.reads_set (stop_at w) (length l)).
    split.
    + destruct (Cancel.reads_set _ _); rewrite <- !app_assoc; reflexivity.
    + split; [repeat constructor|]. split; [reflexivity|]. split; [reflexivity|].
      split; [reflexivity|].
      split; [|split; [destruct (Cancel.reads_set _ _); reflexivity|]].
      * simpl. now rewrite Bool.eqb_reflx.
      * intros Hv. apply (Hlate 0). now rewrite Nat.add_0_r.
Qed.

(** ** Set-up *)

Lemma setup_sound self : sound w arranging (setup w self).
Proof.
  unfold setup.
  repeat first [ sound_step | exact I ].
Qed.

Lemma arranging_settled (d : list entry) : Forall arranging d -> Forall settled d.
Proof.
  intros Hd. eapply Forall_impl; [exact Hd|].
  intros e He. destruct e; simpl in *; try contradiction; exact I.
Qed.

Lemma arranging_plain (d : list entry) : Forall arranging d -> Forall plain d.
Proof.
  intros Hd. eapply Forall_impl; [exact Hd|].
  intros e He. destruct e; simpl in *; try contradiction; exact I.
Qed.


(** ** The whole of [run] *)

(** What a run with enough fuel does: it returns; its log is a stretch
    [pre] with no job event, followed by the one job event, which is
    [Stopped] exactly when a read in [pre] found the token set. *)
Lemma run_spec self fuel :
  enough w (length (files self)) <= fuel ->
  exists pre v,
    run fuel w self [] =
      (Ok (Some tt), pre ++ [Emit (if v : bool then Stopped else Finished)]) /\
    Forall inner pre /\ honest_from w 0 pre = true /\ v = observed pre /\
    (observed pre = false ->
     signals pre = [] /\
     (setup_returns w self ->
      submitted pre = seq 0 (length (files self)) /\
      forall i, i < length (files self) -> In (Poll i true) pre)).
Proof.
  intros Hfuel.
  destruct (setup_sound self []) as (ds & Es & Qs & Hs). simpl in Es, Hs.
  pose proof (arranging_settled ds Qs) as Hset.
  pose proof (arranging_plain ds Qs) as Hplain.
  unfold setup_returns, run, try_except, bind.
  destruct (setup w self []) as [[[]|e] ls]; simpl in Es; subst ls.
  - destruct (orchestrate_tracked self fuel ds Hfuel)
      as (r & d & Eo & Qo & Ho & Fo & Xo & (loc & -> & Hex & Hsub)).
    rewrite Eo. cbv beta iota.
    assert (Hhon : honest_from w 0 (ds ++ d) = true).
    { rewrite honest_from_app, Hs. exact Ho. }
    destruct (finally_spec loc (ds ++ d) Hhon)
      as (df & v & Ef & Qf & Sf & Subf & _ & Hf & Hv & Hlate).
    rewrite Ef. exists (ds ++ d ++ df), v.
    split; [unfold ret; f_equal; now rewrite <- !app_assoc|].
    split.
    { apply Forall_app. split; [eapply Forall_impl; [exact Hset|apply settled_inner]|].
      apply Forall_app. split; [exact Qo|].
      eapply Forall_impl; [exact Qf|apply settled_inner]. }
    split.
    { rewrite app_assoc, honest_from_app, Hhon. exact Hf. }
    rewrite !observed_app, (plain_unobserved ds Hplain). cbn [orb].
    split.
    { destruct v.
      - symmetry in Hv. apply orb_true_iff in Hv as [Hst|Hdf].
        + destruct (Fo Hst) as [Hc|Hd]; [discriminate|]. now rewrite Hd.
        + rewrite Hdf. now rewrite orb_true_r.
      - specialize (Hlate eq_refl). rewrite observed_app in Hlate.
        apply orb_false_iff in Hlate as [_ Hd].
        symmetry in Hv. apply orb_false_iff in Hv as [_ Hdf].
        now rewrite Hd, Hdf. }
    intros Hno. apply orb_false_iff in Hno as [Hd Hdf].
    split.
    { rewrite !signals_app, Sf, (no_signal_signals ds (plain_no_signal ds Hplain)).
      destruct Xo as [Hc|[Hd'|Hsig]]; [discriminate|congruence|].
      now rewrite Hsig. }
    intros _. destruct (Hsub Hd) as [Hs1 Hpolls]. split.
    { rewrite !submitted_app, Hs1, Subf, (settled_submitted ds Hset). simpl.
      now rewrite app_nil_r. }
    intros i Hi. apply in_or_app. right. apply in_or_app. left. auto.
  - unfold act at 1. cbv beta iota.
    assert (Hhon : honest_from w 0 (ds ++ [Print ("Fatal batch error: " +:+ exn_msg e)]) = true).
    { rewrite honest_from_app, Hs. reflexivity. }
    destruct (finally_spec {| was_stopped := false; executor := false |} _ Hhon)
      as (df & v & Ef & Qf & Sf & Subf & _ & Hf & Hv & Hlate).
    unfold ret at 1. cbv beta iota. rewrite Ef.
    exists (ds ++ [Print ("Fatal batch error: " +:+ exn_msg e)] ++ df), v.
    split; [unfold ret; f_equal; now rewrite <- !app_assoc|].
    split.
    { apply Forall_app. split; [eapply Forall_impl; [exact Hset|apply settled_inner]|].
      constructor; [exact I|]. eapply Forall_impl; [exact Qf|apply settled_inner]. }
    split.
    { rewrite app_assoc, honest_from_app, Hhon. exact Hf. }
    rewrite !observed_app, (plain_unobserved ds Hplain). cbn [orb observed existsb saw_set].
    split; [exact Hv|].
    intros Hdf. split; [|discriminate].
    rewrite !signals_app, Sf, (no_signal_signals ds (plain_no_signal ds Hplain)).
    reflexivity.
Qed.


End Loops.

(** C2. A run of the worker that has fuel enough for its drain loop
    returns, whatever the world does (set-up may raise: the fatal path), and
    its log holds exactly one job event, which is its last entry: [Stopped]
    if some read of the token during the run found it set, [Finished]
    otherwise.  Every read of the token in the log is truthful. *)
Theorem one_job_event (fuel : nat) (w : World) (self : BatchWorker) :
  enough w (length (files self)) <= fuel ->
  exists L,
    run fuel w self [] = (Ok (Some tt), L) /\
    honest_from w 0 L = true /\
    job_events L = [if observed L then Stopped else Finished] /\
    exists pre, L = pre ++ [Emit (if observed L then Stopped else Finished)].
Proof.
  intros Hfuel.
  destruct (run_spec w self fuel Hfuel) as (pre & v & E & Hin & Hh & Hv & _).
  exists (pre ++ [Emit (if v then Stopped else Finished)]).
  assert (Ho : observed (pre ++ [Emit (if v then Stopped else Finished)]) = v).
  { rewrite observed_app, <- Hv. simpl. now rewrite orb_false_r. }
  rewrite Ho. split; [exact E|].
  split; [rewrite honest_from_app, Hh; reflexivity|].
  split; [|exists pre; reflexivity].
  rewrite job_events_app, (inner_job_events pre Hin). now destruct v.
Qed.

(** The amended C3. In a job of N items whose set-up returns and during
    which the token is never set, a run with fuel enough returns; the N
    items are submitted, in order; the drain loop has seen the future of
    each of them done; the worker signals [Finished] and nothing else.  The
    pipeline of each item returns, having signalled that the item is being
    processed and then exactly one terminal update, whose status
    (success, no content, failed or error) it returns. *)
Theorem uncancelled_job `{Runtime} (fuel : nat) (w : World) (self : BatchWorker) :
  stop_at w = None ->
  setup_returns w self ->
  enough w (length (files self)) <= fuel ->
  (exists L,
     run fuel w self [] = (Ok (Some tt), L) /\
     submitted L = seq 0 (length (files self)) /\
     (forall i, i < length (files self) -> In (Poll i true) L) /\
     signals L = [Finished]) /\
  (forall i filepath, files self !! i = Some filepath ->
     exists o status shown,
       fst (Pipeline.process_single_file w self i filepath []) = Ok o /\
       signals (snd (Pipeline.process_single_file w self i filepath [])) =
         PipelineFacts.processing (slot self i) ++
         PipelineFacts.terminal (slot self i) status shown /\
       In status PipelineFacts.terminal_statuses /\
       Pipeline.o_status o = Some status).
Proof.
  intros Hnone Hsetup Hfuel. split.
  - destruct (run_spec w self fuel Hfuel) as (pre & v & E & Hin & Hh & Hv & Hquiet).
    assert (Ho : observed pre = false).
    { apply (honest_unobserved w 0 pre Hh). now rewrite Hnone. }
    rewrite Ho in Hv. subst v.
    destruct (Hquiet Ho) as [Hsig Hrest]. destruct (Hrest Hsetup) as [Hsub Hpolls].
    exists (pre ++ [Emit Finished]). split; [exact E|].
    split; [rewrite submitted_app, Hsub; apply app_nil_r|].
    split; [intros i Hi; apply in_or_app; left; auto|].
    rewrite signals_app, Hsig. reflexivity.
  - intros i filepath _.
    destruct (PipelineFacts.process_single_file_returns w self i filepath []) as [o Ho].
    destruct (PipelineFacts.pipeline_uncancelled w self i filepath Hnone [])
      as (d & E & Hd).
    rewrite Ho in Hd. destruct Hd as (status & shown & Hsig & Hst & Hos).
    exists o, status, shown. simpl in E. rewrite E.
    split; [exact Ho|]. split; [exact Hsig|]. split; assumption.
Qed.


Lemma one_job_event_witness :
  exists L,
    run 41 (Sample.calm None Sample.answering) Sample.two_images [] = (Ok (Some tt), L) /\
    honest_from (Sample.calm None Sample.answering) 0 L = true /\
    job_events L = [if observed L then Stopped else Finished] /\
    exists pre, L = pre ++ [Emit (if observed L then Stopped else Finished)].
Proof.
  apply (one_job_event 41 (Sample.calm None Sample.answering) Sample.two_images).
  apply le_n.
Defined.

(** C3 as stated fails: the token is never set, but the output directory
    cannot be created; the worker submits neither of its two items and
    signals [Finished]. *)
Lemma setup_failure_submits_nothing :
  stop_at Sample.locked = None /\
  length (files Sample.two_images) = 2 /\
  run 41 Sample.locked Sample.two_images [] =
    (Ok (Some tt),
     [Print "Fatal batch error: [Errno 13] Permission denied: 'out'";
      Check FinalCheck false; Emit Finished]) /\
  submitted (snd (run 41 Sample.locked Sample.two_images [])) = [].
Proof. vm_compute. repeat split. Qed.

Lemma uncancelled_job_witness :
  (exists L,
     run 41 (Sample.calm None Sample.answering) Sample.two_images [] = (Ok (Some tt), L) /\
     submitted L = seq 0 (length (files Sample.two_images)) /\
     (forall i, i < length (files Sample.two_images) -> In (Poll i true) L) /\
     signals L = [Finished]) /\
  (forall i filepath, files Sample.two_images !! i = Some filepath ->
     exists o status shown,
       fst (@Pipeline.process_single_file Sample.ascii_runtime
              (Sample.calm None Sample.answering) Sample.two_images i filepath []) = Ok o /\
       signals (snd (@Pipeline.process_single_file Sample.ascii_runtime
              (Sample.calm None Sample.answering) Sample.two_images i filepath [])) =
         PipelineFacts.processing (slot Sample.two_images i) ++
         PipelineFacts.terminal (slot Sample.two_images i) status shown /\
       In status PipelineFacts.terminal_statuses /\
       Pipeline.o_status o = Some status).
Proof.
  apply (@uncancelled_job Sample.ascii_runtime 41 (Sample.calm None Sample.answering)
           Sample.two_images).
  - reflexivity.
  - reflexivity.
  - apply le_n.
Defined.



End RunFacts.

(* ===================================================================== *)
(** * Cancellation is heeded at once: no work after the token is seen set *)
(* ===================================================================== *)
Module PromptFacts.
Import Py Eff Worker EffFacts.

(** No entry of the kind [P] follows a read that found the token set. *)
Fixpoint idle_after_set (P : entry -> bool) (l : list entry) : bool :=
  match l with
  | [] => true
  | Check _ true :: rest => forallb (fun e => negb (P e)) rest
  | _ :: rest => idle_after_set P rest
  end.

(** From a log whose reads are honest, and in which the token was not yet
    seen set when [c] holds, the computation appends [d] such that: its
    reads are honest; no entry of the kind [P] follows a read that found the
    token set, and there is none at all if the token had been seen set
    before; a result [a] with [post a], or an exception [e] with [epost e],
    leaves the token unseen; and a result returned with the token seen
    satisfies [R].  [known] is what holds if the token was seen set before
    the computation starts. *)
Definition heeds {A} (w : World) (P : entry -> bool) (c : bool) (known : Prop)
    (m : M A) (post : A -> bool) (epost : exn -> bool) (R : A -> Prop) : Prop :=
  forall l, honest_from w 0 l = true -> (c = true -> observed l = false) ->
    (observed l = true -> known) ->
    exists d, snd (m l) = l ++ d /\
      honest_from w (length l) d = true /\
      idle_after_set P d = true /\
      (observed l = true -> forallb (fun e => negb (P e)) d = true) /\
      match fst (m l) with
      | Ok a => (post a = true -> observed (l ++ d) = false) /\
                (observed (l ++ d) = true -> R a)
      | Raise e => epost e = true -> observed (l ++ d) = false
      end.

(** The work of the OCR client, of the pipeline of an item, and of [run]. *)
Definition any_entry (e : entry) : bool := true.

Definition item_work (e : entry) : bool :=
  match e with
  | ReadFile _ | Post _ _ _ _ | Sleep _ | Created _ | Wrote _ _ => true
  | _ => false
  end.

Definition pool_work (e : entry) : bool :=
  match e with
  | Submit _ | Sleep _ => true
  | _ => false
  end.

(** What a call of the OCR client returns once it has seen the token set. *)
Definition stopped_answer (d : gmap string pyval) : Prop := d = Ocr.terminated.

Definition to_go_on (s : Ocr.step) : bool :=
  match s with
  | Ocr.Next _ => true
  | Ocr.Return _ => false
  end.

Definition stopped_step (s : Ocr.step) : Prop :=
  match s with
  | Ocr.Return d => d = Ocr.terminated
  | Ocr.Next _ => True
  end.

(** ** Logs *)

Lemma idle_none (P : entry -> bool) (d : list entry) :
  forallb (fun e => negb (P e)) d = true -> idle_after_set P d = true.
Proof.
  induction d as [|e d IH]; simpl; [reflexivity|].
  intros Hd. apply andb_true_iff in Hd as [_ Hd].
  destruct e as [s v| | | | | | | | | | | |]; try (apply IH, Hd).
  destruct v; [exact Hd|apply IH, Hd].
Qed.

Lemma idle_unobserved (P : entry -> bool) (d : list entry) :
  observed d = false -> idle_after_set P d = true.
Proof.
  induction d as [|e d IH]; simpl; [reflexivity|].
  destruct e as [s v| | | | | | | | | | | |]; simpl; try exact IH.
  destruct v; simpl; [discriminate|exact IH].
Qed.

Lemma idle_app (P : entry -> bool) (d1 d2 : list entry) :
  idle_after_set P d1 = true -> idle_after_set P d2 = true ->
  (observed d1 = true -> forallb (fun e => negb (P e)) d2 = true) ->
  idle_after_set P (d1 ++ d2) = true.
Proof.
  induction d1 as [|e d1 IH]; simpl; [auto|].
  destruct e as [s v| | | | | | | | | | | |]; simpl; try exact IH.
  destruct v; simpl; [|exact IH].
  intros H1 _ H2. rewrite forallb_app, H1. apply H2. reflexivity.
Qed.

(** What [idle_after_set] says of each read that found the token set. *)
Lemma idle_after_set_spec (P : entry -> bool) (l : list entry) :
  idle_after_set P l = true ->
  forall pre s post, l = pre ++ Check s true :: post -> Forall (fun e => P e = false) post.
Proof.
  intros Hl pre s post ->.
  assert (G : forallb (fun e => negb (P e)) post = true).
  { induction pre as [|e pre IH]; simpl in Hl.
    - exact Hl.
    - destruct e as [s' v| | | | | | | | | | | |]; try (apply IH, Hl).
      destruct v; [|apply IH, Hl].
      rewrite forallb_app in Hl. apply andb_true_iff in Hl as [_ Hl]. simpl in Hl.
      apply andb_true_iff in Hl as [_ Hl]. exact Hl. }
  apply List.Forall_forall. intros e He.
  rewrite forallb_forall in G. specialize (G e He). now apply negb_true_iff in G.
Qed.

Lemma any_entry_nil (d : list entry) :
  forallb (fun e => negb (any_entry e)) d = true -> d = [].
Proof. destruct d; [reflexivity|discriminate]. Qed.

(** ** Rules for [heeds] *)

Section Rules.
Context {w : World} {P : entry -> bool}.

Lemma heeds_weaken {A} c known (m : M A) post epost R :
  heeds w P false known m post epost R -> heeds w P c known m post epost R.
Proof. intros Hm l Hl _ Hk. apply Hm; [exact Hl|discriminate|exact Hk]. Qed.

(** Code that leaves the log as it is, where the token was not seen set. *)
Lemma heeds_still {A} known (m : M A) post epost R :
  (forall l, snd (m l) = l) -> heeds w P true known m post epost R.
Proof.
  intros Hm l Hl Hc _. exists []. rewrite app_nil_r.
  split; [apply Hm|]. split; [reflexivity|]. split; [reflexivity|].
  split; [reflexivity|]. rewrite (Hc eq_refl).
  destruct (fst (m l)); [split; [reflexivity|discriminate]|reflexivity].
Qed.

Lemma heeds_ret {A} c (known : Prop) (a : A) post epost (R : A -> Prop) :
  post a = false -> (known -> R a) -> heeds w P c known (ret a) post epost R.
Proof.
  intros Hp Ha l Hl Hc Hk. exists []. simpl. rewrite app_nil_r.
  split; [reflexivity|]. split; [reflexivity|]. split; [reflexivity|].
  split; [reflexivity|]. split; [rewrite Hp; discriminate|auto].
Qed.

Lemma heeds_lift {A} c known (r : result A) :
  heeds w P c known (lift r) (fun _ => c) (fun _ => c) (fun _ => True).
Proof.
  intros l Hl Hc _. exists []. simpl. rewrite app_nil_r.
  split; [reflexivity|]. split; [reflexivity|]. split; [reflexivity|].
  split; [reflexivity|]. destruct r; [split|]; auto.
Qed.

(** An action where the token was not seen set. *)
Lemma heeds_act known (e : entry) epost R :
  (forall s v, e <> Check s v) ->
  heeds w P true known (act e) (fun _ => true) epost R.
Proof.
  intros He l Hl Hc _. exists [e]. simpl.
  assert (Ho : observed (l ++ [e]) = false).
  { rewrite observed_app, (Hc eq_refl). simpl.
    destruct e as [s v| | | | | | | | | | | |]; try reflexivity.
    exfalso. eapply He. reflexivity. }
  split; [reflexivity|].
  split; [destruct e; try reflexivity; exfalso; eapply He; reflexivity|].
  split; [destruct e as [s v| | | | | | | | | | | |]; try reflexivity;
          exfalso; eapply He; reflexivity|].
  split; [rewrite (Hc eq_refl); discriminate|].
  rewrite Ho. split; [reflexivity|discriminate].
Qed.

(** An action that is no work, anywhere. *)
Lemma heeds_free c known (e : entry) epost :
  P e = false -> (forall s v, e <> Check s v) ->
  heeds w P c known (act e) (fun _ => c) epost (fun _ => True).
Proof.
  intros HP He l Hl Hc _. exists [e]. simpl.
  split; [reflexivity|].
  split; [destruct e; try reflexivity; exfalso; eapply He; reflexivity|].
  split; [destruct e as [s v| | | | | | | | | | | |]; try reflexivity;
          exfalso; eapply He; reflexivity|].
  split; [intros _; now rewrite HP|].
  split; [|auto]. intros ->. rewrite observed_app, (Hc eq_refl). simpl.
  destruct e as [s v| | | | | | | | | | | |]; try reflexivity.
  exfalso. eapply He. reflexivity.
Qed.

(** A read of the token, where reads are no work. *)
Lemma heeds_check c known (s : site) epost :
  P (Check s true) = false -> P (Check s false) = false ->
  heeds w P c known (check w s) negb epost (fun _ => True).
Proof.
  intros HPt HPf l Hl Hc _. unfold check. simpl.
  exists [Check s (Cancel.reads_set (stop_at w) (length l))]. simpl.
  rewrite Bool.eqb_reflx. split; [reflexivity|]. split; [reflexivity|].
  split; [destruct (Cancel.reads_set _ _); reflexivity|].
  split; [intros _; destruct (Cancel.reads_set _ _); [now rewrite HPt|now rewrite HPf]|].
  split; [|auto].
  intros Hr. apply negb_true_iff in Hr.
  rewrite observed_app. simpl. rewrite Hr, orb_false_r.
  eapply honest_unobserved; [exact Hl|]. exact Hr.
Qed.

(** A read of the token where it was not seen set before. *)
Lemma heeds_check_clean known (s : site) epost :
  heeds w P true known (check w s) negb epost (fun _ => True).
Proof.
  intros l Hl Hc _. unfold check. simpl.
  exists [Check s (Cancel.reads_set (stop_at w) (length l))]. simpl.
  rewrite Bool.eqb_reflx. split; [reflexivity|]. split; [reflexivity|].
  split; [destruct (Cancel.reads_set _ _); reflexivity|].
  split; [rewrite (Hc eq_refl); discriminate|].
  split; [|auto].
  intros Hr. apply negb_true_iff in Hr.
  rewrite observed_app. simpl. rewrite Hr, orb_false_r. apply Hc. reflexivity.
Qed.

(** Code that does not read the token, where it was not seen set. *)
Lemma heeds_unread {A} known (Q : entry -> Prop) (m : M A) R :
  sound w Q m -> (forall e s v, Q e -> e <> Check s v) ->
  heeds w P true known m (fun _ => true) (fun _ => true) R.
Proof.
  intros Hm HQ l Hl Hc _. destruct (Hm l) as (d & E & Hd & Hh).
  assert (Ho : observed d = false).
  { clear E Hh. induction Hd as [|e d He _ IH]; [reflexivity|].
    simpl. rewrite IH. destruct e as [s v| | | | | | | | | | | |]; try reflexivity.
    exfalso. eapply HQ; [exact He|reflexivity]. }
  exists d. split; [exact E|]. split; [exact Hh|].
  split; [apply idle_unobserved, Ho|].
  split; [rewrite (Hc eq_refl); discriminate|].
  rewrite observed_app, (Hc eq_refl), Ho.
  destruct (fst (m l)); [split; [reflexivity|discriminate]|reflexivity].
Qed.

Lemma heeds_bind {A B} c known (m : M A) (f : A -> M B) p1 ep R1 p2 R :
  heeds w P c known m p1 ep R1 ->
  (forall a, heeds w P (p1 a) (R1 a) (f a) p2 ep R) ->
  heeds w P c known (bind m f) p2 ep R.
Proof.
  intros Hm Hf l Hl Hc Hk.
  destruct (Hm l Hl Hc Hk) as (d1 & E1 & Hh1 & Hs1 & Hq1 & Hp1).
  unfold bind. destruct (m l) as [[a|e] l1]; simpl in E1, Hp1; subst l1.
  - destruct Hp1 as [Hpost HR1].
    assert (Hl1 : honest_from w 0 (l ++ d1) = true)
      by (rewrite honest_from_app, Hl; exact Hh1).
    destruct (Hf a (l ++ d1) Hl1 Hpost HR1) as (d2 & E2 & Hh2 & Hs2 & Hq2 & Hp2).
    exists (d1 ++ d2). rewrite E2, app_assoc. split; [reflexivity|].
    split; [rewrite honest_from_app, Hh1; rewrite length_app in Hh2; exact Hh2|].
    split.
    { apply idle_app; auto. intros Ho. apply Hq2. rewrite observed_app, Ho.
      apply orb_true_r. }
    split.
    { intros Ho. rewrite forallb_app, (Hq1 Ho), Hq2; [reflexivity|].
      rewrite observed_app, Ho. reflexivity. }
    rewrite ?app_assoc. exact Hp2.
  - exists d1. split; [reflexivity|]. split; [exact Hh1|]. split; [exact Hs1|].
    split; [exact Hq1|]. exact Hp1.
Qed.

Lemma heeds_try {A} c known (m : M A) (h : exn -> M A) p ep1 ep R :
  heeds w P c known m p ep1 R -> (forall e, heeds w P (ep1 e) True (h e) p ep R) ->
  heeds w P c known (try_except m h) p ep R.
Proof.
  intros Hm Hh l Hl Hc Hk.
  destruct (Hm l Hl Hc Hk) as (d1 & E1 & Hh1 & Hs1 & Hq1 & Hp1).
  unfold try_except. destruct (m l) as [[a|e] l1]; simpl in E1, Hp1; subst l1.
  - exists d1. split; [reflexivity|]. split; [exact Hh1|]. split; [exact Hs1|].
    split; [exact Hq1|]. exact Hp1.
  - assert (Hl1 : honest_from w 0 (l ++ d1) = true)
      by (rewrite honest_from_app, Hl; exact Hh1).
    destruct (Hh e (l ++ d1) Hl1 Hp1 (fun _ => I)) as (d2 & E2 & Hh2 & Hs2 & Hq2 & Hp2).
    exists (d1 ++ d2). rewrite E2, app_assoc. split; [reflexivity|].
    split; [rewrite honest_from_app, Hh1; rewrite length_app in Hh2; exact Hh2|].
    split.
    { apply idle_app; auto. intros Ho. apply Hq2. rewrite observed_app, Ho.
      apply orb_true_r. }
    split.
    { intros Ho. rewrite forallb_app, (Hq1 Ho), Hq2; [reflexivity|].
      rewrite observed_app, Ho. reflexivity. }
    rewrite ?app_assoc. exact Hp2.
Qed.

Lemma heeds_conseq {A} c (known known' : Prop) (m : M A) (p p' : A -> bool)
    (ep ep' : exn -> bool) (R R' : A -> Prop) :
  heeds w P c known m p ep R ->
  (known' -> known) ->
  (forall a, p' a = true -> p a = true) -> (forall e, ep' e = true -> ep e = true) ->
  (forall a, R a -> R' a) ->
  heeds w P c known' m p' ep' R'.
Proof.
  intros Hm Hkk Hp Hep HR l Hl Hc Hk.
  destruct (Hm l Hl Hc (fun Ho => Hkk (Hk Ho))) as (d & E & Hh & Hs & Hq & Hpost).
  exists d. split; [exact E|]. split; [exact Hh|]. split; [exact Hs|].
  split; [exact Hq|].
  destruct (fst (m l)).
  - destruct Hpost as [H1 H2]. split; [intros Ha; apply H1, Hp, Ha|].
    intros Ho. apply HR, H2, Ho.
  - intros He. apply Hpost, Hep, He.
Qed.

End Rules.

(** Weakening what a rule concludes to what the goal asks. *)
Ltac relax t :=
  eapply heeds_conseq;
  [ t
  | intros Hk; exact Hk
  | first [intros a Ha; exact Ha | intros a Ha; discriminate Ha]
  | first [intros e He; exact He | intros e He; discriminate He]
  | intros a _; exact I ].

(** ** The OCR client *)

Section Client.
Context `{Runtime}.
Variable w : World.
Variable P : entry -> bool.

Lemma stop_check_heeds known has s epost :
  heeds w P true known (Ocr.stop_check w has s) negb epost (fun _ => True).
Proof.
  unfold Ocr.stop_check. destruct has; [apply heeds_check_clean|].
  apply heeds_still. reflexivity.
Qed.

Lemma backoff_heeds known attempt epost :
  heeds w P true known (Ocr.backoff attempt) (fun _ => true) epost (fun _ => True).
Proof.
  unfold Ocr.backoff. destruct (attempt <? Ocr.max_retries).
  - apply heeds_act. intros; discriminate.
  - apply heeds_still. reflexivity.
Qed.

Lemma attempt_body_heeds known has url auth payload cur k :
  heeds w P true known (Ocr.attempt_body w has url auth payload cur k)
    (fun _ => false) (fun _ => true) stopped_answer.
Proof.
  unfold Ocr.attempt_body.
  eapply heeds_bind; [apply stop_check_heeds|]. intros [|]; cbn [negb].
  { apply heeds_ret; [reflexivity|]. intros _. reflexivity. }
  eapply (heeds_bind _ _ _ _ (fun _ => true) _ (fun _ => True)).
  { unfold Ocr.post.
    eapply (heeds_bind _ _ _ _ (fun _ => true) _ (fun _ => True));
      [apply heeds_act; intros; discriminate|].
    intros []. destruct (net w k); apply heeds_still; reflexivity. }
  intros response. cbv beta.
  eapply heeds_bind; [apply stop_check_heeds|]. intros [|]; cbn [negb].
  { apply heeds_ret; [reflexivity|]. intros _. reflexivity. }
  apply heeds_still. reflexivity.
Qed.

Lemma one_attempt_heeds known has url auth payload cur k :
  heeds w P true known (Ocr.one_attempt w has url auth payload cur k)
    to_go_on (fun _ => true) stopped_step.
Proof.
  unfold Ocr.one_attempt. eapply heeds_try.
  - eapply heeds_bind; [apply attempt_body_heeds|]. intros d. cbv beta.
    apply heeds_ret; [reflexivity|]. intros Hd. exact Hd.
  - intros e. cbv beta.
    destruct (exn_cls e).
    all: try (eapply heeds_bind; [apply stop_check_heeds|]; intros [|]; cbn [negb];
              [apply heeds_ret; [reflexivity|]; intros _; reflexivity|]).
    all: try (apply heeds_still; reflexivity).
    all: eapply heeds_bind; [apply backoff_heeds|]; intros []; cbv beta;
         apply heeds_still; reflexivity.
Qed.

Lemma retry_loop_heeds known has url auth payload cur range le :
  heeds w P true known (Ocr.retry_loop w has url auth payload cur range le)
    (fun _ => false) (fun _ => true) stopped_answer.
Proof.
  revert known le. induction range as [|k range IH]; intros known le; simpl.
  - apply heeds_still. reflexivity.
  - eapply heeds_bind; [apply one_attempt_heeds|]. intros [d|le']; cbn [to_go_on stopped_step].
    + apply heeds_ret; [reflexivity|]. intros Hd. exact Hd.
    + apply IH.
Qed.

Lemma ocr_file_heeds known data ft mo has opt :
  heeds w P true known (Ocr.ocr_file w data ft mo has opt)
    (fun _ => false) (fun _ => true) stopped_answer.
Proof.
  unfold Ocr.ocr_file.
  eapply heeds_bind; [apply stop_check_heeds|]. intros [|]; cbn [negb].
  { apply heeds_ret; [reflexivity|]. intros _. reflexivity. }
  do 4 (eapply (heeds_bind _ _ _ _ (fun _ => true) _ (fun _ => True));
        [apply heeds_still; reflexivity|]; intros ?; cbv beta).
  cbv zeta. destruct (_ || _).
  - apply heeds_still. reflexivity.
  - apply retry_loop_heeds.
Qed.

End Client.

(** ** The pipeline of an item *)

Section Item.
Context `{Runtime}.
Variable w : World.

Lemma lift_heeds {A} c known (r : result A) :
  heeds w item_work c known (lift r) (fun _ => c) (fun _ => false) (fun _ => True).
Proof.
  relax ltac:(apply heeds_lift).
Qed.

Lemma emit_heeds c known sg :
  heeds w item_work c known (emit sg) (fun _ => c) (fun _ => false) (fun _ => True).
Proof. unfold emit. apply heeds_free; [reflexivity|intros; discriminate]. Qed.

Lemma finish_item_heeds c known row status shown :
  heeds w item_work c known (Pipeline.finish_item row status shown)
    (fun _ => c) (fun _ => false) (fun _ => True).
Proof.
  unfold Pipeline.finish_item.
  eapply heeds_bind; [apply emit_heeds|]. intros []. cbv beta.
  eapply heeds_bind; [apply emit_heeds|]. intros []. cbv beta.
  apply emit_heeds.
Qed.

Lemma read_heeds known filepath :
  heeds w item_work true known (act (ReadFile filepath))
    (fun _ => true) (fun _ => false) (fun _ => True).
Proof. apply heeds_act. intros; discriminate. Qed.

Lemma ocr_heeds known data ft mo has opt :
  heeds w item_work true known (Ocr.ocr_file w data ft mo has opt)
    (fun _ => false) (fun _ => false) (fun _ => True).
Proof.
  relax ltac:(apply ocr_file_heeds).
Qed.

Lemma save_heeds known self filepath text md tables layout raw :
  heeds w item_work true known
    (Exporter.save_results w self filepath text md tables layout raw)
    (fun _ => true) (fun _ => false) (fun _ => True).
Proof.
  relax ltac:(eapply (heeds_unread _ (ExporterFacts.own_path self filepath) _
                        (fun _ => True));
              [apply ExporterFacts.save_results_sound|];
              intros e s v He ->; exact He).
Qed.

(** One step of a proof of [heeds], following the program. *)
Ltac heeds_step :=
  lazymatch goal with
  | |- heeds _ _ _ _ (bind (check _ _) _) _ _ _ =>
      eapply heeds_bind;
      [apply heeds_check; reflexivity | intros [|]; cbn [negb]; cbv beta iota]
  | |- heeds _ _ _ _ (bind (emit _) _) _ _ _ =>
      eapply heeds_bind; [apply emit_heeds | intros ?; cbv beta]
  | |- heeds _ _ _ _ (bind (Pipeline.finish_item _ _ _) _) _ _ _ =>
      eapply heeds_bind; [apply finish_item_heeds | intros ?; cbv beta]
  | |- heeds _ _ _ _ (bind (lift _) _) _ _ _ =>
      eapply heeds_bind; [apply lift_heeds | intros ?; cbv beta]
  | |- heeds _ _ _ _ (bind (act (ReadFile _)) _) _ _ _ =>
      eapply heeds_bind; [apply read_heeds | intros ?; cbv beta]
  | |- heeds _ _ _ _ (bind (Ocr.ocr_file _ _ _ _ _ _) _) _ _ _ =>
      eapply heeds_bind; [apply ocr_heeds | intros ?; cbv beta]
  | |- heeds _ _ _ _ (bind (Exporter.save_results _ _ _ _ _ _ _ _) _) _ _ _ =>
      eapply heeds_bind; [apply save_heeds | intros ?; cbv beta]
  | |- heeds _ _ _ _ (ret _) _ _ _ => apply heeds_ret; [reflexivity | intros _; exact I]
  | |- heeds _ _ _ _ (if ?b then _ else _) _ _ _ => destruct b
  | |- heeds _ _ _ _ (match ?x with _ => _ end) _ _ _ => destruct x
  end.

Lemma announce_heeds c known row :
  heeds w item_work c known (Pipeline.announce w row)
    (fun _ => false) (fun _ => false) (fun _ => True).
Proof.
  unfold Pipeline.announce.
  eapply heeds_bind; [apply heeds_check; reflexivity|].
  intros [|]; cbn [negb]; cbv beta iota.
  - apply heeds_ret; [reflexivity|auto].
  - eapply heeds_bind; [apply emit_heeds|]. intros []. cbv beta.
    relax ltac:(apply emit_heeds).
Qed.

Lemma process_single_file_heeds self index filepath :
  heeds w item_work true True (Pipeline.process_single_file w self index filepath)
    (fun _ => false) (fun _ => false) (fun _ => True).
Proof.
  unfold Pipeline.process_single_file, Pipeline.item_body, Pipeline.read_and_recognise,
    Pipeline.on_error, Pipeline.on_result, Pipeline.on_exception.
  repeat first
    [ eapply heeds_try; [|intros ?]
    | eapply heeds_bind; [apply announce_heeds | intros ?; cbv beta]
    | progress cbv zeta | heeds_step ].
Qed.

End Item.

(** ** The worker's run *)

Section Pool.
Variable w : World.

Ltac pool_check :=
  eapply heeds_bind; [apply heeds_check; reflexivity|];
  intros [|]; cbn [negb]; cbv beta iota.

Ltac pool_done := apply heeds_ret; [reflexivity | intros _; exact I].

Lemma pool_act known e :
  (forall s v, e <> Check s v) ->
  heeds w pool_work true known (act e) (fun _ => true) (fun _ => false) (fun _ => True).
Proof. apply heeds_act. Qed.

Lemma pool_free c known e :
  pool_work e = false -> (forall s v, e <> Check s v) ->
  heeds w pool_work c known (act e) (fun _ => c) (fun _ => false) (fun _ => True).
Proof. apply heeds_free. Qed.

Lemma poll_heeds c known i :
  heeds w pool_work c known (Run.poll w i) (fun _ => c) (fun _ => false) (fun _ => True).
Proof.
  intros l Hl Hc _. exists [Poll i (finish w i <=? length l)].
  split; [reflexivity|]. split; [reflexivity|]. split; [reflexivity|].
  split; [reflexivity|]. split; [|auto]. simpl.
  intros ->. rewrite observed_app, (Hc eq_refl). reflexivity.
Qed.

Lemma first_delay_heeds c known n :
  heeds w pool_work c known (Run.first_delay w n) (fun _ => false) (fun _ => false) (fun _ => True).
Proof.
  revert c known. induction n as [|n IH]; intros c known; simpl.
  - pool_done.
  - pool_check; [pool_done|].
    eapply heeds_bind; [apply pool_act; intros; discriminate|]. intros []. apply IH.
Qed.

Lemma extra_delay_heeds c known prev n :
  heeds w pool_work c known (Run.extra_delay w prev n)
    (fun _ => false) (fun _ => false) (fun _ => True).
Proof.
  revert c known. induction n as [|n IH]; intros c known; simpl.
  - pool_done.
  - pool_check; [pool_done|].
    eapply heeds_bind; [apply poll_heeds|]. intros [|]; cbv beta; [pool_done|].
    eapply heeds_bind; [apply pool_act; intros; discriminate|]. intros []. apply IH.
Qed.

Lemma delay_heeds c known futures :
  heeds w pool_work c known (Run.delay w futures) (fun _ => false) (fun _ => false) (fun _ => True).
Proof.
  unfold Run.delay.
  eapply heeds_bind; [apply first_delay_heeds|]. intros []. cbv beta.
  pool_check; [pool_done|].
  destruct (last futures) as [prev|]; [|pool_done].
  eapply heeds_bind; [apply poll_heeds|]. intros [|]; cbv beta; [pool_done|].
  apply extra_delay_heeds.
Qed.

Lemma marks_heeds c known self js :
  heeds w pool_work c known (Run.for_each (Run.mark_stopped self) js)
    (fun _ => false) (fun _ => false) (fun _ => True).
Proof.
  revert c known. induction js as [|j js IH]; intros c known; simpl.
  - pool_done.
  - eapply heeds_bind; [|intros []; apply IH].
    unfold Run.mark_stopped.
    eapply heeds_bind.
    { relax ltac:(apply heeds_lift). }
    intros row. cbv beta.
    eapply heeds_bind;
      [unfold emit; apply pool_free; [reflexivity|intros; discriminate]|].
    intros []. cbv beta.
    relax ltac:(unfold emit; apply pool_free; [reflexivity|intros; discriminate]).
Qed.

Lemma submit_loop_heeds c known self rest i futures :
  heeds w pool_work c known (Run.submit_loop w self i rest futures)
    (fun _ => false) (fun _ => false) (fun _ => True).
Proof.
  revert c known i futures. induction rest as [|f rest IH]; intros c known i futures; simpl.
  - pool_done.
  - pool_check.
    + eapply heeds_bind; [apply marks_heeds|]. intros []. cbv beta. pool_done.
    + eapply heeds_bind; [apply pool_act; intros; discriminate|]. intros []. cbv beta zeta.
      eapply heeds_bind; [|intros []; apply IH].
      instantiate (1 := fun _ => True). instantiate (1 := fun _ => false).
      destruct (i <? length (files self) - 1); [apply delay_heeds|pool_done].
Qed.

Lemma poll_all_heeds c known pending :
  heeds w pool_work c known (Run.poll_all w pending) (fun _ => c) (fun _ => false) (fun _ => True).
Proof.
  revert c known. induction pending as [|i pending IH]; intros c known; simpl.
  - intros l Hl Hc _. exists []. rewrite app_nil_r. simpl.
    repeat split; auto.
  - eapply heeds_bind; [apply poll_heeds|]. intros d. cbv beta.
    eapply heeds_bind; [apply IH|]. intros done. cbv beta.
    intros l Hl Hc _. exists []. rewrite app_nil_r. simpl.
    repeat split; auto.
Qed.

Lemma drain_heeds c known fuel pending :
  heeds w pool_work c known (Run.drain fuel w pending)
    (fun _ => false) (fun _ => false) (fun _ => True).
Proof.
  revert c known pending. induction fuel as [|fuel IH]; intros c known pending.
  - destruct pending; simpl; pool_done.
  - destruct pending as [|i0 rest]; [simpl; pool_done|].
    set (pending := i0 :: rest).
    change (Run.drain (S fuel) w pending) with
      (bind (check w DrainGuard) (fun b : bool =>
         if b then ret (Some pending) else
         bind (Run.poll_all w pending) (fun done =>
           let pending := Run.remove_all done pending in
           match pending with
           | [] => Run.drain fuel w pending
           | _ :: _ =>
               bind (check w DrainSleep) (fun b : bool =>
                 bind (if b then ret tt else act (Sleep 1)) (fun _ =>
                   Run.drain fuel w pending))
           end))).
    pool_check; [pool_done|].
    eapply heeds_bind; [apply poll_all_heeds|]. intros done. cbv beta zeta.
    destruct (Run.remove_all done pending) as [|j0 rest'] eqn:Erem; [apply IH|].
    pool_check.
    + eapply heeds_bind; [|intros []; apply IH].
      instantiate (1 := fun _ => True). instantiate (1 := fun _ => false). pool_done.
    + eapply heeds_bind; [apply pool_act; intros; discriminate|]. intros []. apply IH.
Qed.

Lemma orchestrate_heeds c known fuel self :
  heeds w pool_work c known (Run.orchestrate fuel w self)
    (fun _ => false) (fun _ => false) (fun _ => True).
Proof.
  unfold Run.orchestrate.
  eapply heeds_bind; [apply submit_loop_heeds|]. intros [stopped futures]. cbv beta iota.
  pool_check.
  - eapply heeds_bind; [apply pool_free; [reflexivity|intros; discriminate]|].
    intros []. cbv beta. pool_done.
  - eapply heeds_bind; [apply drain_heeds|]. intros [pend|]; cbv beta iota; [|pool_done].
    pool_check; [|pool_done].
    eapply heeds_bind; [apply marks_heeds|]. intros []. cbv beta. pool_done.
Qed.

Lemma finally_heeds c known loc :
  heeds w pool_work c known (Run.finally w loc) (fun _ => false) (fun _ => false) (fun _ => True).
Proof.
  unfold Run.finally.
  eapply heeds_bind.
  { instantiate (1 := fun _ => True). instantiate (1 := fun _ => false).
    destruct (Run.executor loc); [|pool_done].
    relax ltac:(apply pool_free; [reflexivity|intros; discriminate]). }
  intros []. cbv beta.
  assert (E : forall c' known' sg, heeds w pool_work c' known' (emit sg)
                (fun _ => false) (fun _ => false) (fun _ => True)).
  { intros c' known' sg.
    relax ltac:(unfold emit; apply pool_free; [reflexivity|intros; discriminate]). }
  destruct (Run.was_stopped loc); [apply E|].
  pool_check; apply E.
Qed.

Lemma run_heeds fuel self :
  heeds w pool_work true True (Run.run fuel w self)
    (fun _ => false) (fun _ => false) (fun _ => True).
Proof.
  unfold Run.run.
  eapply heeds_bind.
  - eapply heeds_try.
    + eapply heeds_bind; [|intros []; apply orchestrate_heeds].
      eapply (heeds_conseq _ _ _ _ _ (fun _ => true) _ (fun _ => false) _ (fun _ => True)).
      * eapply (heeds_unread _ RunFacts.arranging _ (fun _ => True));
          [apply RunFacts.setup_sound|].
        intros e s v He ->. exact He.
      * intros Hk. exact Hk.
      * intros a Ha. exact Ha.
      * intros e He. discriminate He.
      * intros a _. exact I.
    + intros e. cbv beta.
      eapply heeds_bind; [apply pool_free; [reflexivity|intros; discriminate]|].
      intros []. cbv beta. pool_done.
  - intros [loc|]; cbv beta iota; [|pool_done].
    eapply heeds_bind; [apply finally_heeds|]. intros []. cbv beta. pool_done.
Qed.

End Pool.

(** Once a stop check of [ocr_file] has read the token set, the call does
    nothing more: that read is the last entry of its log, and the call
    returns the termination error. *)
Theorem ocr_file_stops_at_once `{Runtime} (w : World) (file_data : string) (file_type : Z)
    (model_override : option string) (has_event optimize : bool) :
  idle_after_set any_entry
    (snd (Ocr.ocr_file w file_data file_type model_override has_event optimize [])) = true /\
  forall pre s post,
    snd (Ocr.ocr_file w file_data file_type model_override has_event optimize [])
    = pre ++ Check s true :: post ->
    post = [] /\
    fst (Ocr.ocr_file w file_data file_type model_override has_event optimize [])
    = Ok Ocr.terminated.
Proof.
  destruct (ocr_file_heeds w any_entry True file_data file_type model_override
              has_event optimize [] eq_refl (fun _ => eq_refl)) as (d & E & _ & Hi & _ & Hp);
    [discriminate|].
  simpl in E. rewrite E in *.
  split; [exact Hi|].
  intros pre s post ->. split.
  - pose proof (idle_after_set_spec any_entry _ Hi pre s post eq_refl) as Hpost.
    destruct post as [|e post]; [reflexivity|].
    inversion Hpost as [|? ? He _]. discriminate.
  - assert (observed ([] ++ pre ++ Check s true :: post) = true) as Ho
      by (simpl; rewrite observed_app; simpl; apply orb_true_r).
    destruct (fst (Ocr.ocr_file w file_data file_type model_override has_event optimize []))
      as [res|e].
    + destruct Hp as [_ Hp]. now rewrite (Hp Ho).
    + rewrite (Hp eq_refl) in Ho. discriminate.
Qed.

(** Once a check point of the pipeline of an item, or of the OCR call it
    makes, has read the token set, the pipeline does no more work: it reads
    no file, sends no request, does not sleep, and creates or writes no
    file. *)
Theorem pipeline_stops_working `{Runtime} (w : World) (self : BatchWorker)
    (index : nat) (filepath : string) :
  idle_after_set item_work
    (snd (Pipeline.process_single_file w self index filepath [])) = true /\
  forall pre s post,
    snd (Pipeline.process_single_file w self index filepath []) = pre ++ Check s true :: post ->
    Forall (fun e => item_work e = false) post.
Proof.
  destruct (process_single_file_heeds w self index filepath [] eq_refl (fun _ => eq_refl))
    as (d & E & _ & Hi & _); [discriminate|].
  simpl in E. rewrite E. split; [exact Hi|].
  intros pre s post Hd. eapply idle_after_set_spec; [exact Hi|exact Hd].
Qed.

(** Once a read of the token by [run] has found it set, the worker submits
    no further item and never sleeps again, whatever the fuel of its drain
    loop. *)
Theorem run_stops_submitting (fuel : nat) (w : World) (self : BatchWorker) :
  idle_after_set pool_work (snd (Run.run fuel w self [])) = true /\
  forall pre s post,
    snd (Run.run fuel w self []) = pre ++ Check s true :: post ->
    Forall (fun e => pool_work e = false) post.
Proof.
  destruct (run_heeds w fuel self [] eq_refl (fun _ => eq_refl))
    as (d & E & _ & Hi & _); [discriminate|].
  simpl in E. rewrite E. split; [exact Hi|].
  intros pre s post Hd. eapply idle_after_set_spec; [exact Hi|exact Hd].
Qed.

End PromptFacts.

(* ===================================================================== *)
(** * More on the coordinator *)
(* ===================================================================== *)
Module CoordinatorMore.
Import Py Worker Coordinator.


End CoordinatorMore.

(* ===================================================================== *)
(** * Facts about [parse_markdown_table] *)
(* ===================================================================== *)
Module TableFacts.
Import Py Exporter.

Section Markdown.
Context `{Runtime}.

(** The row that one line of the text contributes, if it is a table row:
    its stripped form starts and ends with a bar, is not a separator line,
    and has a cell between its first and its last bar. *)
Definition row_of_line (raw : string) : option (list string) :=
  let line := strip raw in
  if startswith (String bar EmptyString) line && endswith_char bar line then
    if negb (str_nonempty (remove_chars [bar; "-"%char; ":"%char; " "%char] line))
    then None
    else
      match map strip (inner (split bar line)) with
      | [] => None
      | c :: cs => Some (c :: cs)
      end
  else None.

(** Tables that can be written to a sheet: at least one table, each with at
    least one row, each row with at least one cell. *)
Definition filled (tables : list (list (list string))) : Prop :=
  tables <> [] /\ Forall (fun t => t <> [] /\ Forall (fun row => row <> []) t) tables.

Lemma md_scan_rows lines tables current in_table :
  concat (fst (md_scan lines tables current in_table))
    ++ snd (md_scan lines tables current in_table)
  = concat tables ++ current ++ omap row_of_line lines.
Proof.
  revert tables current in_table.
  induction lines as [|raw lines IH]; intros tables current in_table.
  - simpl. now rewrite app_nil_r.
  - cbn [md_scan omap list_omap]. unfold row_of_line at 1. cbv zeta.
    destruct (startswith _ _ && endswith_char _ _).
    + destruct (negb _); [apply IH|].
      destruct (map strip _) as [|c cs]; [apply IH|].
      rewrite IH. now rewrite <- !app_assoc.
    + destruct in_table, current as [|r0 current']; rewrite IH; try reflexivity.
      rewrite concat_app. simpl. now rewrite app_nil_r, <- !app_assoc.
Qed.

Lemma md_scan_filled lines tables current in_table :
  Forall (fun t => t <> [] /\ Forall (fun row => row <> []) t) tables ->
  Forall (fun row => row <> []) current ->
  Forall (fun t => t <> [] /\ Forall (fun row => row <> []) t)
         (fst (md_scan lines tables current in_table)) /\
  Forall (fun row => row <> []) (snd (md_scan lines tables current in_table)).
Proof.
  revert tables current in_table.
  induction lines as [|raw lines IH]; intros tables current in_table Ht Hc.
  - simpl. auto.
  - cbn [md_scan]. cbv zeta.
    destruct (startswith _ _ && endswith_char _ _).
    + destruct (negb _); [apply IH; assumption|].
      destruct (map strip _) as [|c cs]; [apply IH; assumption|].
      apply IH; [assumption|]. apply Forall_app. split; [assumption|].
      constructor; [discriminate|constructor].
    + destruct in_table, current as [|r0 current']; try (apply IH; assumption).
      apply IH; [|constructor].
      apply Forall_app. split; [assumption|].
      constructor; [|constructor]. split; [discriminate|assumption].
Qed.

(** [parse_markdown_table] returns [None] or tables that are filled: never
    an empty list, an empty table or an empty row. *)
Theorem parse_markdown_table_filled (md_text : string) :
  match parse_markdown_table md_text with
  | Some tables => filled tables
  | None => True
  end.
Proof.
  unfold parse_markdown_table.
  pose proof (md_scan_filled (split newline md_text) [] [] false
                ltac:(constructor) ltac:(constructor)) as [Ht Hc].
  destruct (md_scan (split newline md_text) [] [] false) as [tables current].
  simpl in Ht, Hc.
  destruct current as [|r current].
  - destruct tables as [|t tables]; [exact I|]. split; [discriminate|assumption].
  - destruct (tables ++ [r :: current]) as [|t ts] eqn:E; [exact I|].
    split; [discriminate|]. rewrite <- E.
    apply Forall_app. split; [assumption|].
    constructor; [|constructor]. split; [discriminate|assumption].
Qed.

(** The rows of the tables that [parse_markdown_table] returns, taken
    together and in order, are exactly the rows that the lines of the text
    contribute, in order; and it returns [None] exactly when no line
    contributes a row. *)
Theorem parse_markdown_table_rows (md_text : string) :
  concat (default [] (parse_markdown_table md_text))
  = omap row_of_line (split newline md_text) /\
  (parse_markdown_table md_text = None <->
   omap row_of_line (split newline md_text) = []).
Proof.
  unfold parse_markdown_table.
  pose proof (md_scan_rows (split newline md_text) [] [] false) as Hrows.
  pose proof (md_scan_filled (split newline md_text) [] [] false
                ltac:(constructor) ltac:(constructor)) as [Ht Hc].
  destruct (md_scan (split newline md_text) [] [] false) as [tables current].
  simpl in Hrows, Ht, Hc. rewrite <- Hrows.
  destruct current as [|r current].
  - rewrite app_nil_r. destruct tables as [|t tables]; simpl.
    + split; [reflexivity|]. split; reflexivity.
    + split; [reflexivity|]. split; [discriminate|].
      inversion Ht as [|? ? [Hne _] _]. destruct t; [contradiction|discriminate].
  - assert (E : concat (tables ++ [r :: current]) = concat tables ++ r :: current).
    { rewrite concat_app. simpl. now rewrite app_nil_r. }
    destruct tables as [|t tables]; cbn [app default] in *.
    + split; [exact E|]. split; discriminate.
    + split; [exact E|]. split; [discriminate|].
      intros E'. apply app_eq_nil in E' as [_ E']. discriminate.
Qed.

End Markdown.
End TableFacts.

(* ===================================================================== *)
(** * More on the pipeline of an item *)
(* ===================================================================== *)
Module ItemFacts.
Import Py Eff Worker Pipeline EffFacts.

(** The table row that a signal updates. *)
Definition row_of (sg : signal) : option Z :=
  match sg with
  | StatusUpdate r _ | ProgressUpdate r _ _ | ResultUpdate r _ => Some r
  | Finished | Stopped => None
  end.

(** Entries whose signals, if any, go to [row]. *)
Definition addressed (row : Z) (e : entry) : Prop :=
  match e with
  | Emit sg => row_of sg = Some row
  | _ => True
  end.

(** Whatever the computation returns satisfies [R]. *)
Definition returns_such {A} (m : M A) (R : A -> Prop) : Prop :=
  forall l a, fst (m l) = Ok a -> R a.

(** What the tuple returned for item [index], shown in [row], can be. *)
Definition fate (index : nat) (row : Z) (o : outcome) : Prop :=
  o_index o = index /\ o_row o = row /\
  match o_status o with
  | None => o_result o = stopped_msg
  | Some status => In status PipelineFacts.terminal_statuses
  end.

(** The model that a call uses. *)
Definition model_used (w : World) (self : BatchWorker) : pyval :=
  OcrFacts.model_of w (model_override self).

(** The message of [ocr_file] when the URL or the token is missing. *)
Definition not_configured `{Runtime} (w : World) (self : BatchWorker) : string :=
  "缺少 " +:+ py_str (model_used w self) +:+ " 的 URL 或 Token，请在设置中配置。".

(** A world in which no input file can be opened. *)
Definition no_such_file : World :=
  {| stop_at := None;
     config := PDict (<["current_model" := PStr "PP-OCRv5"]> {["models" := PDict ∅]});
     net := Sample.answering;
     read_file := fun p => Raise (Exn OSError ("[Errno 2] No such file or directory: " +:+ p));
     open_raises := fun _ => None;
     write_raises := fun _ => None;
     import_raises := fun _ => None;
     library_raises := fun _ => None;
     path_exists := fun _ => true;
     makedirs_raises := fun _ => None;
     pool_raises := None;
     finish := fun _ => 0 |}.

(** A world without configuration, in which files can be read. *)
Definition unconfigured : World :=
  {| stop_at := None;
     config := PDict (<["current_model" := PStr "PP-StructureV3"]> {["models" := PDict ∅]});
     net := Sample.answering;
     read_file := fun _ => Ok "bytes";
     open_raises := fun _ => None;
     write_raises := fun _ => None;
     import_raises := fun _ => None;
     library_raises := fun _ => None;
     path_exists := fun _ => true;
     makedirs_raises := fun _ => None;
     pool_raises := None;
     finish := fun _ => 0 |}.

(** ** Rules for [returns_such] *)

Lemma returns_ret {A} (a : A) (R : A -> Prop) : R a -> returns_such (ret a) R.
Proof. intros Ha l a' [= <-]. exact Ha. Qed.

Lemma returns_bind {A B} (m : M A) (f : A -> M B) (R : B -> Prop) :
  (forall a, returns_such (f a) R) -> returns_such (bind m f) R.
Proof.
  intros Hf l b. unfold bind. destruct (m l) as [[a|e] l1]; [|discriminate].
  apply Hf.
Qed.

Lemma returns_try {A} (m : M A) (h : exn -> M A) (R : A -> Prop) :
  returns_such m R -> (forall e, returns_such (h e) R) ->
  returns_such (try_except m h) R.
Proof.
  intros Hm Hh l a. unfold try_except. specialize (Hm l).
  destruct (m l) as [[a'|e] l1]; [apply Hm|apply Hh].
Qed.

Section Item.
Context `{Runtime}.
Variable w : World.

Lemma finish_item_addressed row status shown :
  sound w (addressed row) (finish_item row status shown).
Proof.
  unfold finish_item, emit.
  repeat first [ apply sound_bind; [|intros ?]
               | apply sound_act; [reflexivity|intros ? ?; discriminate] ].
Qed.

Lemma quiet_addressed {A} row (m : M A) :
  sound w no_signal m -> sound w (addressed row) m.
Proof.
  apply sound_weaken. intros e He. destruct e; simpl in *; try exact I.
  discriminate.
Qed.

(** One step of a proof that the pipeline addresses its own row. *)
Ltac addressed_step :=
  lazymatch goal with
  | |- sound _ _ (bind _ _) => apply sound_bind; [|intros ?]
  | |- sound _ _ (try_except _ _) => apply sound_try; [|intros ?]
  | |- sound _ _ (finish_item _ _ _) => apply finish_item_addressed
  | |- sound _ _ (Ocr.ocr_file _ _ _ _ _ _) =>
      apply quiet_addressed, OcrFacts.ocr_file_sound
  | |- sound _ _ (Exporter.save_results _ _ _ _ _ _ _ _) =>
      apply quiet_addressed, PipelineFacts.save_results_quiet
  | |- sound _ _ (check _ _) => apply sound_check; intros ?; exact I
  | |- sound _ _ (emit _) =>
      unfold emit; apply sound_act; [reflexivity|intros ? ?; discriminate]
  | |- sound _ _ (act _) => apply sound_act; [exact I|intros ? ?; discriminate]
  | |- sound _ _ (ret _) => apply sound_ret
  | |- sound _ _ (lift _) => apply sound_lift
  | |- sound _ _ (if ?b then _ else _) => destruct b
  | |- sound _ _ (match ?x with _ => _ end) => destruct x
  end.

Lemma process_single_file_addressed self index filepath :
  sound w (addressed (RunFacts.slot self index))
        (process_single_file w self index filepath).
Proof.
  unfold process_single_file. rewrite WorkerFacts.display_slot_value.
  fold (RunFacts.slot self index).
  assert (E : forall (k : Z -> M outcome),
             bind (lift (Ok (RunFacts.slot self index))) k = k (RunFacts.slot self index))
    by reflexivity.
  rewrite E. clear E.
  unfold item_body, announce, read_and_recognise, on_error, on_result, on_exception.
  repeat first [progress cbv zeta | addressed_step].
Qed.

(** One step of a proof of what the pipeline returns. *)
Ltac returns_step :=
  lazymatch goal with
  | |- returns_such (bind _ _) _ => apply returns_bind; intros ?
  | |- returns_such (try_except _ _) _ => apply returns_try; [|intros ?]
  | |- returns_such (ret _) _ =>
      apply returns_ret; split; [reflexivity|split; [reflexivity|simpl; tauto]]
  | |- returns_such (if ?b then _ else _) _ => destruct b
  | |- returns_such (match ?x with _ => _ end) _ => destruct x
  end.

Lemma process_single_file_fate self index filepath :
  returns_such (process_single_file w self index filepath)
               (fate index (RunFacts.slot self index)).
Proof.
  unfold process_single_file. rewrite WorkerFacts.display_slot_value.
  fold (RunFacts.slot self index).
  assert (E : forall (k : Z -> M outcome),
             bind (lift (Ok (RunFacts.slot self index))) k = k (RunFacts.slot self index))
    by reflexivity.
  rewrite E. clear E.
  unfold item_body, announce, read_and_recognise, on_error, on_result, on_exception.
  repeat first [progress cbv zeta | returns_step].
Qed.

End Item.

(** Every signal that the pipeline of an item emits updates the display
    row of that item and no other; and the tuple it returns names the item
    and that row, with no status and the stop message, or with one of the
    terminal statuses. *)
Theorem pipeline_updates_own_row `{Runtime} (w : World) (self : BatchWorker)
    (index : nat) (filepath : string) :
  Forall (fun sg => row_of sg = Some (RunFacts.slot self index))
         (signals (snd (process_single_file w self index filepath []))) /\
  exists o, fst (process_single_file w self index filepath []) = Ok o /\
            fate index (RunFacts.slot self index) o.
Proof.
  split.
  - destruct (process_single_file_addressed w self index filepath [])
      as (d & E & Hd & _).
    simpl in E. rewrite E. clear E.
    induction Hd as [|e d He _ IH]; [constructor|].
    destruct e; simpl in *; try exact IH. constructor; assumption.
  - destruct (PipelineFacts.process_single_file_returns w self index filepath [])
      as [o Ho].
    exists o. split; [exact Ho|].
    eapply process_single_file_fate. exact Ho.
Qed.

(** When the input file cannot be opened and the token is never set, the
    pipeline announces the item, tries to read the file, and ends the item
    with the status of an error: it shows the first 100 characters of the
    exception's message, returns the whole message, sends no request and
    writes no file. *)
Theorem unreadable_file_is_an_error `{Runtime} (w : World) (self : BatchWorker)
    (index : nat) (filepath : string) (e : exn) :
  stop_at w = None ->
  read_file w filepath = Raise e ->
  process_single_file w self index filepath [] =
    (Ok {| o_index := index; o_row := RunFacts.slot self index;
           o_status := Some "错误"; o_result := exn_msg e |},
     [Check BeforeStart false; Check BeforeStatus false;
      Emit (StatusUpdate (RunFacts.slot self index) "处理中...");
      Emit (ProgressUpdate (RunFacts.slot self index) 50 100);
      Check BeforeRead false; ReadFile filepath; Check InExcept false;
      Emit (StatusUpdate (RunFacts.slot self index) "错误");
      Emit (ProgressUpdate (RunFacts.slot self index) 100 100);
      Emit (ResultUpdate (RunFacts.slot self index) (take_chars 100 (exn_msg e)))]).
Proof.
  intros Hnone Hread.
  unfold process_single_file. rewrite WorkerFacts.display_slot_value.
  fold (RunFacts.slot self index).
  unfold item_body, announce, read_and_recognise, on_exception, finish_item.
  unfold try_except, bind, lift, check, emit, act, ret.
  rewrite Hnone. cbn [Cancel.reads_set]. cbv beta iota. rewrite Hread. reflexivity.
Qed.

Lemma unreadable_file_is_an_error_witness :
  @process_single_file Sample.ascii_runtime no_such_file Sample.two_images 1 "scans/b.png" [] =
    (Ok {| o_index := 1; o_row := 1; o_status := Some "错误";
           o_result := "[Errno 2] No such file or directory: scans/b.png" |},
     [Check BeforeStart false; Check BeforeStatus false;
      Emit (StatusUpdate 1 "处理中..."); Emit (ProgressUpdate 1 50 100);
      Check BeforeRead false; ReadFile "scans/b.png"; Check InExcept false;
      Emit (StatusUpdate 1 "错误"); Emit (ProgressUpdate 1 100 100);
      Emit (ResultUpdate 1 "[Errno 2] No such file or directory: scans/b.png")]).
Proof.
  apply (@unreadable_file_is_an_error Sample.ascii_runtime no_such_file
           Sample.two_images 1 "scans/b.png"
           (Exn OSError "[Errno 2] No such file or directory: scans/b.png"));
    reflexivity.
Defined.

(** When the model in use has no URL or no token configured, the file can
    be read and the token is never set, the item fails with the message
    that names the model: no request is sent and no file is written. *)
Theorem unconfigured_model_fails `{Runtime} (w : World) (self : BatchWorker)
    (index : nat) (filepath bytes : string) (api_url token : pyval) :
  stop_at w = None ->
  read_file w filepath = Ok bytes ->
  OcrFacts.settings w (model_override self) = Ok (model_used w self, api_url, token) ->
  truthy api_url && truthy token = false ->
  process_single_file w self index filepath [] =
    (Ok {| o_index := index; o_row := RunFacts.slot self index;
           o_status := Some "失败"; o_result := not_configured w self |},
     [Check BeforeStart false; Check BeforeStatus false;
      Emit (StatusUpdate (RunFacts.slot self index) "处理中...");
      Emit (ProgressUpdate (RunFacts.slot self index) 50 100);
      Check BeforeRead false; ReadFile filepath; Check BeforeApi false;
      Check ClientEntry false; Check AfterApi false; Check BeforeError false;
      Emit (StatusUpdate (RunFacts.slot self index) "失败");
      Emit (ProgressUpdate (RunFacts.slot self index) 100 100);
      Emit (ResultUpdate (RunFacts.slot self index) (not_configured w self))]).
Proof.
  intros Hnone Hread Hset Hconf.
  assert (Hmiss : negb (truthy api_url) || negb (truthy token) = true).
  { rewrite <- negb_andb, Hconf. reflexivity. }
  destruct (OcrFacts.settings_inv w _ _ _ _ Hset) as (mc & Ec & Em & Eu & Et).
  unfold process_single_file. rewrite WorkerFacts.display_slot_value.
  fold (RunFacts.slot self index).
  unfold item_body, announce, read_and_recognise, Ocr.ocr_file, Ocr.stop_check.
  unfold try_except, bind, lift, check, emit, act, ret.
  rewrite Hnone. cbn [Cancel.reads_set]. cbv beta iota. rewrite Hread.
  cbv beta iota. rewrite Ec. cbv beta iota. rewrite Em. cbv beta iota.
  rewrite Eu. cbv beta iota. rewrite Et. cbv beta iota.
  rewrite Hmiss. cbv beta iota.
  fold (not_configured w self).
  unfold Ocr.error_dict, has_key. rewrite lookup_singleton_eq. cbv beta iota.
  unfold on_error, finish_item, bind, lift, check, emit, act, ret, default_or, as_str.
  rewrite Hnone. cbn [Cancel.reads_set]. cbv beta iota zeta.
  rewrite lookup_singleton_eq, lookup_singleton_ne by discriminate.
  reflexivity.
Qed.

Lemma unconfigured_model_fails_witness :
  @process_single_file Sample.ascii_runtime unconfigured Sample.two_images 0 "scans/a.png" [] =
    (Ok {| o_index := 0; o_row := 0; o_status := Some "失败";
           o_result := @not_configured Sample.ascii_runtime unconfigured Sample.two_images |},
     [Check BeforeStart false; Check BeforeStatus false;
      Emit (StatusUpdate 0 "处理中..."); Emit (ProgressUpdate 0 50 100);
      Check BeforeRead false; ReadFile "scans/a.png"; Check BeforeApi false;
      Check ClientEntry false; Check AfterApi false; Check BeforeError false;
      Emit (StatusUpdate 0 "失败"); Emit (ProgressUpdate 0 100 100);
      Emit (ResultUpdate 0
              (@not_configured Sample.ascii_runtime unconfigured Sample.two_images))]).
Proof.
  apply (@unconfigured_model_fails Sample.ascii_runtime unconfigured
           Sample.two_images 0 "scans/a.png" "bytes" PNone PNone);
    try reflexivity; vm_compute; reflexivity.
Defined.

(** When the configuration cannot be read (the lookups of [ocr_file]
    raise), the file can be read and the token is never set, the exception
    leaves [ocr_file] and the pipeline catches it: the item ends with the
    status of an error, shows the first 100 characters of the exception's
    message and returns the whole message; no request is sent and no file
    is written. *)
Theorem malformed_config_is_an_error `{Runtime} (w : World) (self : BatchWorker)
    (index : nat) (filepath bytes : string) (e : exn) :
  stop_at w = None ->
  read_file w filepath = Ok bytes ->
  OcrFacts.settings w (model_override self) = Raise e ->
  process_single_file w self index filepath [] =
    (Ok {| o_index := index; o_row := RunFacts.slot self index;
           o_status := Some "错误"; o_result := exn_msg e |},
     [Check BeforeStart false; Check BeforeStatus false;
      Emit (StatusUpdate (RunFacts.slot self index) "处理中...");
      Emit (ProgressUpdate (RunFacts.slot self index) 50 100);
      Check BeforeRead false; ReadFile filepath; Check BeforeApi false;
      Check ClientEntry false; Check InExcept false;
      Emit (StatusUpdate (RunFacts.slot self index) "错误");
      Emit (ProgressUpdate (RunFacts.slot self index) 100 100);
      Emit (ResultUpdate (RunFacts.slot self index) (take_chars 100 (exn_msg e)))]).
Proof.
  intros Hnone Hread Hset.
  unfold process_single_file. rewrite WorkerFacts.display_slot_value.
  fold (RunFacts.slot self index).
  unfold item_body, announce, read_and_recognise, on_exception, finish_item.
  unfold try_except, bind, lift, check, emit, act, ret.
  rewrite Hnone. cbn [Cancel.reads_set]. cbv beta iota. rewrite Hread. cbv beta iota.
  rewrite OcrFacts.ocr_file_entry.
  unfold Ocr.stop_check, check, OcrFacts.after_entry.
  rewrite Hnone, Hset. reflexivity.
Qed.

Lemma malformed_config_is_an_error_witness :
  @process_single_file Sample.ascii_runtime Sample.null_entry Sample.two_images 0
    "scans/a.png" [] =
    (Ok {| o_index := 0; o_row := 0; o_status := Some "错误";
           o_result := "object has no attribute 'get'" |},
     [Check BeforeStart false; Check BeforeStatus false;
      Emit (StatusUpdate 0 "处理中..."); Emit (ProgressUpdate 0 50 100);
      Check BeforeRead false; ReadFile "scans/a.png"; Check BeforeApi false;
      Check ClientEntry false; Check InExcept false;
      Emit (StatusUpdate 0 "错误"); Emit (ProgressUpdate 0 100 100);
      Emit (ResultUpdate 0 "object has no attribute 'get'")]).
Proof.
  apply (@malformed_config_is_an_error Sample.ascii_runtime Sample.null_entry
           Sample.two_images 0 "scans/a.png" "bytes"
           (Exn AttributeError "object has no attribute 'get'"));
    try reflexivity; vm_compute; reflexivity.
Defined.

End ItemFacts.

(* ===================================================================== *)
(** * The requests of one OCR call *)
(* ===================================================================== *)
Module RequestFacts.
Import Py Eff Ocr EffFacts.

(** Entries whose POSTs, if any, carry this URL, this [Authorization]
    header and this payload. *)
Definition request_is (url auth : string) (payload : gmap string pyval) (e : entry) : Prop :=
  match e with
  | Post _ u a p => u = url /\ a = auth /\ p = payload
  | _ => True
  end.

(** The model of a call, and what is configured for it: the URL and the
    token as [str] shows them. *)
Definition model_of (w : World) (model_override : option string) : pyval :=
  OcrFacts.model_of w model_override.

Definition url_of `{Runtime} (w : World) (model_override : option string) : string :=
  match OcrFacts.settings w model_override with
  | Ok (_, api_url, _) => py_str api_url
  | Raise _ => ""
  end.

Definition auth_of `{Runtime} (w : World) (model_override : option string) : string :=
  match OcrFacts.settings w model_override with
  | Ok (_, _, token) => "token " +:+ py_str token
  | Raise _ => ""
  end.

Section Client.
Context `{Runtime}.
Variable w : World.

(** One step of a proof about the requests of a computation. *)
Ltac request_step :=
  lazymatch goal with
  | |- sound _ _ (bind _ _) => apply sound_bind; [|intros ?]
  | |- sound _ _ (try_except _ _) => apply sound_try; [|intros ?]
  | |- sound _ _ (stop_check _ _ _) => unfold stop_check
  | |- sound _ _ (backoff _) => unfold backoff
  | |- sound _ _ (post _ _ _ _ _) => unfold post
  | |- sound _ _ (check _ _) => apply sound_check; intros ?; exact I
  | |- sound _ _ (act _) =>
      apply sound_act;
      [first [exact I | split; [reflexivity|split; reflexivity]]
      |intros ? ?; discriminate]
  | |- sound _ _ (ret _) => apply sound_ret
  | |- sound _ _ (raise _) => apply sound_raise
  | |- sound _ _ (lift _) => apply sound_lift
  | |- sound _ _ (if ?b then _ else _) => destruct b
  | |- sound _ _ (match ?x with _ => _ end) => destruct x
  end.

Lemma one_attempt_requests has url auth payload cur k :
  sound w (request_is url auth payload) (one_attempt w has url auth payload cur k).
Proof. unfold one_attempt, attempt_body. repeat request_step. Qed.

Lemma retry_loop_requests has url auth payload cur range le :
  sound w (request_is url auth payload) (retry_loop w has url auth payload cur range le).
Proof.
  revert le. induction range as [|k range IH]; intros le; simpl.
  - request_step.
  - apply sound_bind; [apply one_attempt_requests|].
    intros [d|le']; [request_step|apply IH].
Qed.

Lemma payload_file data ft cur opt :
  build_payload data ft cur opt !! "file" = Some (PStr (b64encode data)) /\
  build_payload data ft cur opt !! "fileType" = Some (PInt ft).
Proof.
  unfold build_payload. cbv zeta.
  destruct opt; [|split].
  - destruct (model_is cur "PP-OCRv5"); [|destruct (model_is cur "PP-StructureV3");
      [|destruct (model_is cur "PaddleOCR-VL")]].
    all: split; rewrite ?lookup_insert_ne by discriminate.
    all: first [apply lookup_insert_eq | apply lookup_singleton_eq].
  - apply lookup_insert_eq.
  - rewrite lookup_insert_ne by discriminate. apply lookup_singleton_eq.
Qed.

End Client.

(** Every POST of one call of [ocr_file], first attempt or retry, goes to
    the URL configured for the model in use, carries the header
    [Authorization: token <token>] and the same payload; the payload always
    holds the encoded file under ["file"] and the file type under
    ["fileType"], and holds nothing else when the call does not ask for the
    small-text tuning. *)
Theorem retries_repeat_the_request `{Runtime} (w : World) (file_data : string) (file_type : Z)
    (model_override : option string) (has_event optimize : bool) (l : list entry) :
  (exists d,
     snd (ocr_file w file_data file_type model_override has_event optimize l) = l ++ d /\
     Forall (request_is (url_of w model_override) (auth_of w model_override)
               (build_payload file_data file_type (model_of w model_override) optimize)) d) /\
  build_payload file_data file_type (model_of w model_override) optimize !! "file"
    = Some (PStr (b64encode file_data)) /\
  build_payload file_data file_type (model_of w model_override) optimize !! "fileType"
    = Some (PInt file_type) /\
  (optimize = false ->
   build_payload file_data file_type (model_of w model_override) optimize
   = <["file" := PStr (b64encode file_data)]> {["fileType" := PInt file_type]}).
Proof.
  split; [|split; [apply payload_file|split; [apply payload_file|]]].
  - rewrite OcrFacts.ocr_file_entry.
    destruct (OcrFacts.stop_check_returns w has_event ClientEntry l)
      as (b & d0 & E & _ & _ & Hev & Hno).
    rewrite E.
    assert (Hd0 : Forall (request_is (url_of w model_override) (auth_of w model_override)
                    (build_payload file_data file_type (model_of w model_override)
                       optimize)) d0).
    { destruct has_event;
        [destruct (Hev eq_refl) as [-> _]|destruct (Hno eq_refl) as [-> _]];
        repeat constructor. }
    destruct b; [exists d0; split; [reflexivity|exact Hd0]|].
    unfold OcrFacts.after_entry, url_of, auth_of in *.
    destruct (OcrFacts.settings w model_override) as [[[c u] t]|e] eqn:Es;
      [|exists d0; split; [reflexivity|exact Hd0]].
    assert (model_of w model_override = c) as Ec.
    { destruct (OcrFacts.settings_inv w _ _ _ _ Es) as (mc & Ec & _).
      unfold model_of, OcrFacts.model_of. now rewrite Ec. }
    rewrite Ec in *.
    destruct (_ || _); [exists d0; split; [reflexivity|exact Hd0]|].
    destruct (retry_loop_requests w has_event (py_str u) ("token " +:+ py_str t)
                (build_payload file_data file_type c optimize) c
                (seq 0 (max_retries + 1)) None (l ++ d0)) as (d1 & E1 & H1 & _).
    exists (d0 ++ d1). rewrite E1, app_assoc. split; [reflexivity|].
    apply Forall_app. split; assumption.
  - intros ->. reflexivity.
Qed.

End RequestFacts.

(* ===================================================================== *)
(** * Facts about [HTMLTableParser] *)
(* ===================================================================== *)
Module HtmlFacts.
Import Py HtmlTables.

(** The stores of a parser are in order: the current objects exist, the
    rows that a table holds exist and are not empty, and the tables that
    [tables] holds exist and are not empty. *)
Definition sane (self : parser) : Prop :=
  current_table self < length (table_store self) /\
  current_row self < length (row_store self) /\
  (forall t rows, table_store self !! t = Some rows ->
     Forall (fun r => exists row, row_store self !! r = Some row /\ row <> []) rows) /\
  Forall (fun t => exists rows, table_store self !! t = Some rows /\ rows <> [])
         (tables self).

(** Tables without an empty table or an empty row. *)
Definition no_blank (ts : list (list (list string))) : Prop :=
  Forall (fun t => t <> [] /\ Forall (fun row => row <> []) t) ts.

(** A table as well-nested events: [<table>], then for each row [<tr>], a
    [<td attrs>text</td>] for each cell, [</tr>], then [</table>]. *)
Definition render_cell (c : list (string * option string) * string) : list event :=
  [Start "td" (fst c); Data (snd c); End_ "td"].

Definition render_row (row : list (list (string * option string) * string)) : list event :=
  Start "tr" [] :: flat_map render_cell row ++ [End_ "tr"].

Definition render_table (t : list (list (list (string * option string) * string)))
  : list event :=
  Start "table" [] :: flat_map render_row t ++ [End_ "table"].

(** A sample: what [int] makes of the strings ["2"] and ["0"], a table
    with a cell that spans two columns and a row whose only cell spans none,
    and a tokenizer that yields it. *)
Definition sample_int (val : option string) : option Z :=
  match val with
  | Some "2" => Some 2%Z
  | Some "0" => Some 0%Z
  | _ => None
  end.

Definition sample_table : list (list (list (string * option string) * string)) :=
  [[([], " a "); ([("colspan", Some "2")], "b")];
   [([("colspan", Some "0")], "gone")]].

Definition sample_tokens (html_content : pyval) : option (list event) :=
  Some (flat_map render_table [sample_table]).

Section Handlers.
Context `{Runtime}.
Variable to_int : option string -> option Z.

(** The cells that one [<td attrs>text</td>] stands for: the stripped text,
    as many times as its [colspan] says. *)
Definition cells_of (c : list (string * option string) * string) : list string :=
  replicate (Z.to_nat (fst (spans to_int (fst c) 1 1))) (strip (snd c)).

Definition row_cells (row : list (list (string * option string) * string)) : list string :=
  flat_map cells_of row.

Definition nonempty {A} (l : list A) : bool :=
  match l with [] => false | _ :: _ => true end.

(** The table that a rendered table stands for: its rows without the empty
    ones. *)
Definition table_rows (t : list (list (list (string * option string) * string)))
  : list (list string) :=
  List.filter nonempty (map row_cells t).

(** The references of the rows of [t] that are not empty, when the first
    row of [t] is stored at [base]. *)
Fixpoint refs_from (base : nat) (t : list (list (list (string * option string) * string)))
  : list nat :=
  match t with
  | [] => []
  | row :: t' =>
      (if nonempty (row_cells row) then [base] else []) ++ refs_from (S base) t'
  end.

(** A parser inside a table: the current row is the last of the row
    store, the current table the last of the table store. *)
Definition building (rs : list (list string)) (cur : list string) (ts : list (list nat))
    (refs : list nat) (tabs : list nat) (cc : string) (cs rp : Z) (ir ic : bool) : parser :=
  {| row_store := rs ++ [cur]; table_store := ts ++ [refs]; tables := tabs;
     current_table := length ts; current_row := length rs; current_cell := cc;
     in_table := true; in_row := ir; in_cell := ic;
     cell_colspan := cs; cell_rowspan := rp |}.

(** A parser between two tables, with stores whose references are in
    range, and whose current row is the last of the row store. *)
Definition between (self : parser) : Prop :=
  S (current_row self) = length (row_store self) /\
  in_row self = false /\ in_cell self = false /\
  Forall (fun t => t < length (table_store self)) (tables self) /\
  (forall t rows, table_store self !! t = Some rows ->
     Forall (fun r => r < length (row_store self)) rows).

Lemma sane_new : sane new.
Proof.
  split; [simpl; lia|]. split; [simpl; lia|]. split; [|constructor].
  intros [|t] rows; simpl; [|destruct t; discriminate].
  intros [= <-]. constructor.
Qed.

Lemma rows_kept (store : list (list string)) (rows : list nat) (extra : list (list string)) :
  Forall (fun r => exists row, store !! r = Some row /\ row <> []) rows ->
  Forall (fun r => exists row, (store ++ extra) !! r = Some row /\ row <> []) rows.
Proof.
  intros Hr. eapply Forall_impl; [exact Hr|].
  intros r (row & Hrow & Hne). exists row. split; [|exact Hne].
  now apply lookup_app_l_Some.
Qed.

Lemma sane_handle (self : parser) (e : event) : sane self -> sane (handle to_int self e).
Proof.
  intros (Hct & Hcr & Hrows & Htabs). destruct e as [tag attrs|tag|data]; simpl.
  - unfold handle_starttag.
    destruct (String.eqb tag "table").
    { split; [simpl; rewrite length_app; simpl; lia|]. split; [exact Hcr|].
      split; simpl.
      - intros t rows Ht. apply lookup_app_Some in Ht as [Ht|[_ Ht]]; [eauto|].
        destruct (t - length (table_store self)) as [|k]; simpl in Ht;
          [injection Ht as <-; constructor|destruct k; discriminate].
      - eapply Forall_impl; [exact Htabs|].
        intros t (rows & Ht & Hne). exists rows. split; [|exact Hne].
        now apply lookup_app_l_Some. }
    destruct (String.eqb tag "tr" && in_table self).
    { split; [exact Hct|]. split; [simpl; rewrite length_app; simpl; lia|].
      split; simpl; [|exact Htabs].
      intros t rows Ht. apply rows_kept. eauto. }
    destruct (is_cell_tag tag && in_row self); [|repeat split; assumption].
    split; [exact Hct|]. split; [exact Hcr|]. split; assumption.
  - unfold handle_endtag.
    destruct (is_cell_tag tag && in_cell self).
    { split; [exact Hct|]. split; [simpl; now rewrite length_alter|].
      split; simpl; [|exact Htabs].
      intros t rows Ht. eapply Forall_impl; [exact (Hrows t rows Ht)|].
      intros r (row & Hrow & Hne). rewrite list_lookup_alter.
      destruct (decide (current_row self = r)) as [->|_].
      - rewrite Hrow. simpl. eexists. split; [reflexivity|].
        destruct row; [contradiction|discriminate].
      - exists row. split; assumption. }
    destruct (String.eqb tag "tr" && in_row self).
    { split; [simpl|split; [exact Hcr|split; simpl]].
      - destruct (row_store self !! current_row self) as [[|c row]|];
          rewrite ?length_alter; exact Hct.
      - intros t rows.
        destruct (row_store self !! current_row self) as [[|c row]|] eqn:Erow;
          try apply Hrows.
        rewrite list_lookup_alter.
        destruct (decide (current_table self = t)) as [->|_]; [|apply Hrows].
        destruct (table_store self !! t) as [old|] eqn:Et; [|discriminate].
        simpl. intros [= <-]. apply Forall_app. split; [eauto|].
        constructor; [|constructor]. exists (c :: row). split; [exact Erow|discriminate].
      - destruct (row_store self !! current_row self) as [[|c row]|] eqn:Erow;
          try exact Htabs.
        eapply Forall_impl; [exact Htabs|].
        intros t (rows & Ht & Hne). rewrite list_lookup_alter.
        destruct (decide (current_table self = t)) as [->|_].
        + rewrite Ht. simpl. eexists. split; [reflexivity|].
          destruct rows; [contradiction|discriminate].
        + exists rows. split; assumption. }
    destruct (String.eqb tag "table" && in_table self); [|repeat split; assumption].
    split; [exact Hct|]. split; [exact Hcr|]. split; [exact Hrows|]. simpl.
    destruct (table_store self !! current_table self) as [[|r rows]|] eqn:Et;
      try exact Htabs.
    apply Forall_app. split; [exact Htabs|].
    constructor; [|constructor]. exists (r :: rows). split; [exact Et|discriminate].
  - unfold handle_data. destruct (in_cell self); repeat split; assumption.
Qed.

Lemma sane_feed (events : list event) (self : parser) :
  sane self -> sane (feed to_int self events).
Proof.
  revert self. induction events as [|e events IH]; intros self Hs; [exact Hs|].
  apply IH, sane_handle, Hs.
Qed.

Lemma sane_no_blank (self : parser) : sane self -> no_blank (tables_of self).
Proof.
  intros (_ & _ & Hrows & Htabs). unfold no_blank, tables_of.
  apply Forall_map. eapply Forall_impl; [exact Htabs|].
  intros t (rows & Ht & Hne). unfold rows_of. rewrite Ht. simpl.
  split; [destruct rows; [contradiction|discriminate]|].
  apply Forall_map. eapply Forall_impl; [exact (Hrows t rows Ht)|].
  intros r (row & Hrow & Hrne). rewrite Hrow. exact Hrne.
Qed.

(** ** Well-nested tables *)

Lemma feed_app (self : parser) (es1 es2 : list event) :
  feed to_int self (es1 ++ es2) = feed to_int (feed to_int self es1) es2.
Proof. unfold feed. apply fold_left_app. Qed.

Lemma feed_cell rs cur ts refs tabs cc cs rp ic c :
  feed to_int (building rs cur ts refs tabs cc cs rp true ic) (render_cell c)
  = building rs (cur ++ cells_of c) ts refs tabs (snd c)
      (fst (spans to_int (fst c) 1 1)) (snd (spans to_int (fst c) 1 1)) true false.
Proof.
  unfold render_cell, feed, building. cbn [fold_left handle].
  unfold handle_starttag. cbn -[spans alter app].
  unfold handle_data. cbn -[spans alter app].
  unfold handle_endtag. cbn -[spans alter app replicate Z.to_nat].
  f_equal.
  replace (length rs) with (length rs + 0) at 1 by lia.
  rewrite alter_app_r. reflexivity.
Qed.

Lemma feed_cells row rs cur ts refs tabs cc cs rp :
  exists cc' cs' rp',
    feed to_int (building rs cur ts refs tabs cc cs rp true false) (flat_map render_cell row)
    = building rs (cur ++ row_cells row) ts refs tabs cc' cs' rp' true false.
Proof.
  revert cur cc cs rp. induction row as [|c row IH]; intros cur cc cs rp.
  - exists cc, cs, rp. unfold row_cells. simpl. now rewrite app_nil_r.
  - cbn [flat_map].
    rewrite feed_app, feed_cell.
    destruct (IH (cur ++ cells_of c) (snd c) (fst (spans to_int (fst c) 1 1))
                 (snd (spans to_int (fst c) 1 1))) as (cc' & cs' & rp' & E).
    exists cc', cs', rp'. rewrite E. unfold row_cells. simpl.
    now rewrite <- app_assoc.
Qed.

Lemma feed_row row rs cur ts refs tabs cc cs rp ir :
  exists cc' cs' rp',
    feed to_int (building rs cur ts refs tabs cc cs rp ir false) (render_row row)
    = building (rs ++ [cur]) (row_cells row) ts
        (refs ++ if nonempty (row_cells row) then [length (rs ++ [cur])] else [])
        tabs cc' cs' rp' false false.
Proof.
  unfold render_row.
  change (Start "tr" [] :: flat_map render_cell row ++ [End_ "tr"])
    with ([Start "tr" []] ++ flat_map render_cell row ++ [End_ "tr"]).
  rewrite !feed_app.
  assert (E1 : feed to_int (building rs cur ts refs tabs cc cs rp ir false) [Start "tr" []]
               = building (rs ++ [cur]) [] ts refs tabs cc cs rp true false).
  { unfold feed, building. cbn [fold_left handle]. unfold handle_starttag.
    cbn -[app]. reflexivity. }
  rewrite E1.
  destruct (feed_cells row (rs ++ [cur]) [] ts refs tabs cc cs rp) as (cc' & cs' & rp' & E2).
  rewrite E2, app_nil_l.
  exists cc', cs', rp'.
  unfold feed, building. cbn [fold_left handle]. unfold handle_endtag.
  cbn -[app alter lookup]. rewrite list_lookup_middle by reflexivity.
  destruct (row_cells row) as [|c0 cells]; cbn -[app alter].
  - now rewrite app_nil_r.
  - f_equal. replace (length ts) with (length ts + 0) at 1 by lia.
    rewrite alter_app_r. reflexivity.
Qed.

Lemma feed_rows t rs cur ts refs tabs cc cs rp :
  exists rs' cur' cc' cs' rp',
    feed to_int (building rs cur ts refs tabs cc cs rp false false) (flat_map render_row t)
    = building rs' cur' ts (refs ++ refs_from (length (rs ++ [cur])) t) tabs
        cc' cs' rp' false false /\
    rs' ++ [cur'] = (rs ++ [cur]) ++ map row_cells t.
Proof.
  revert rs cur refs cc cs rp. induction t as [|row t IH]; intros rs cur refs cc cs rp.
  - exists rs, cur, cc, cs, rp. simpl. now rewrite !app_nil_r.
  - cbn [flat_map].
    rewrite feed_app.
    destruct (feed_row row rs cur ts refs tabs cc cs rp false) as (cc1 & cs1 & rp1 & E1).
    rewrite E1.
    destruct (IH (rs ++ [cur]) (row_cells row)
                 (refs ++ if nonempty (row_cells row) then [length (rs ++ [cur])] else [])
                 cc1 cs1 rp1) as (rs' & cur' & cc' & cs' & rp' & E2 & E3).
    exists rs', cur', cc', cs', rp'. rewrite E2. split.
    + f_equal. simpl refs_from. rewrite <- !app_assoc. do 2 f_equal.
      f_equal. rewrite !length_app. simpl. lia.
    + rewrite E3. simpl. now rewrite <- !app_assoc.
Qed.

Lemma refs_resolve t (pre : list (list string)) :
  map (fun r => default [] ((pre ++ map row_cells t) !! r)) (refs_from (length pre) t)
  = table_rows t.
Proof.
  revert pre. induction t as [|row t IH]; intros pre; [reflexivity|].
  unfold table_rows. simpl. rewrite map_app.
  replace (pre ++ row_cells row :: map row_cells t)
    with ((pre ++ [row_cells row]) ++ map row_cells t) by now rewrite <- app_assoc.
  replace (S (length pre)) with (length (pre ++ [row_cells row]))
    by (rewrite length_app; simpl; lia).
  rewrite IH. fold (table_rows t).
  destruct (row_cells row) as [|c0 cells] eqn:E; simpl; [reflexivity|].
  f_equal. rewrite <- E.
  rewrite <- app_assoc. simpl. now rewrite list_lookup_middle.
Qed.

Lemma refs_from_bound t base :
  Forall (fun r => r < base + length t) (refs_from base t).
Proof.
  revert base. induction t as [|row t IH]; intros base; simpl; [constructor|].
  apply Forall_app. split.
  - destruct (nonempty _); constructor; [lia|constructor].
  - eapply Forall_impl; [apply IH|]. intros r Hr. simpl in Hr. lia.
Qed.

Lemma refs_nonempty t base : nonempty (refs_from base t) = nonempty (table_rows t).
Proof.
  revert base. induction t as [|row t IH]; intros base; [reflexivity|].
  unfold table_rows. simpl. destruct (row_cells row); simpl; [apply IH|reflexivity].
Qed.

(** One well-nested table, fed between two tables. *)
Lemma feed_table t (self : parser) :
  between self ->
  between (feed to_int self (render_table t)) /\
  tables_of (feed to_int self (render_table t))
  = tables_of self ++ (if nonempty (table_rows t) then [table_rows t] else []).
Proof.
  intros (Hcr & Hir & Hic & Htabs & Hrefs).
  assert (Hrs : row_store self <> []) by (destruct (row_store self); discriminate).
  destruct (exists_last Hrs) as (rs & cur & Ers).
  assert (Hcur : current_row self = length rs).
  { rewrite Ers, length_app in Hcr. simpl in Hcr. lia. }
  unfold render_table.
  change (Start "table" [] :: flat_map render_row t ++ [End_ "table"])
    with ([Start "table" []] ++ flat_map render_row t ++ [End_ "table"]).
  rewrite !feed_app.
  assert (E1 : feed to_int self [Start "table" []]
               = building rs cur (table_store self) [] (tables self) (current_cell self)
                   (cell_colspan self) (cell_rowspan self) false false).
  { unfold feed, building. cbn [fold_left handle]. unfold handle_starttag.
    cbn -[app]. rewrite <- Ers, <- Hcur, Hir, Hic. reflexivity. }
  rewrite E1.
  destruct (feed_rows t rs cur (table_store self) [] (tables self) (current_cell self)
              (cell_colspan self) (cell_rowspan self))
    as (rs' & cur' & cc' & cs' & rp' & E2 & E3).
  rewrite E2, app_nil_l.
  set (refs := refs_from (length (rs ++ [cur])) t).
  assert (E4 : feed to_int (building rs' cur' (table_store self) refs (tables self)
                              cc' cs' rp' false false) [End_ "table"]
               = {| row_store := rs' ++ [cur'];
                    table_store := table_store self ++ [refs];
                    tables := tables self ++
                              (if nonempty refs then [length (table_store self)] else []);
                    current_table := length (table_store self);
                    current_row := length rs'; current_cell := cc';
                    in_table := false; in_row := false; in_cell := false;
                    cell_colspan := cs'; cell_rowspan := rp' |}).
  { unfold feed, building. cbn [fold_left handle]. unfold handle_endtag.
    cbn -[app lookup]. rewrite list_lookup_middle by reflexivity.
    destruct refs; cbn -[app]; [now rewrite app_nil_r|reflexivity]. }
  rewrite E4. clear E1 E2 E4.
  assert (Hold : forall r row, row_store self !! r = Some row ->
                   (rs' ++ [cur']) !! r = Some row).
  { intros r row Hr. rewrite E3, <- Ers. now apply lookup_app_l_Some. }
  split.
  - split; [simpl; rewrite length_app; simpl; lia|].
    split; [reflexivity|]. split; [reflexivity|]. split; simpl.
    + apply Forall_app. split.
      * eapply Forall_impl; [exact Htabs|]. intros k Hk. simpl in Hk.
        rewrite length_app. simpl. lia.
      * destruct (nonempty refs); constructor; [|constructor].
        rewrite length_app. simpl. lia.
    + intros k rows Hk. rewrite E3, <- Ers.
      apply lookup_app_Some in Hk as [Hk|[_ Hk]].
      * eapply Forall_impl; [exact (Hrefs k rows Hk)|]. intros r Hr. simpl in Hr.
        rewrite length_app. lia.
      * destruct (k - length (table_store self)) as [|k']; simpl in Hk;
          [|destruct k'; discriminate].
        injection Hk as <-. rewrite Ers.
        eapply Forall_impl; [apply refs_from_bound|]. intros r Hr. simpl in Hr.
        rewrite length_app, length_map. exact Hr.
  - unfold tables_of. simpl tables. rewrite map_app. f_equal.
    + apply map_ext_in. intros k Hk.
      rewrite List.Forall_forall in Htabs. specialize (Htabs k Hk).
      unfold rows_of. simpl row_store. simpl table_store.
      destruct (lookup_lt_is_Some_2 (table_store self) k Htabs) as [rows Hrows].
      rewrite (lookup_app_l_Some _ _ _ _ Hrows), Hrows. simpl.
      apply map_ext_in. intros r Hr.
      specialize (Hrefs k rows Hrows). rewrite List.Forall_forall in Hrefs.
      destruct (lookup_lt_is_Some_2 (row_store self) r (Hrefs r Hr)) as [row Hrow].
      now rewrite (Hold r row Hrow), Hrow.
    + unfold refs. rewrite refs_nonempty.
      destruct (nonempty (table_rows t)); [|reflexivity].
      simpl. f_equal. unfold rows_of. simpl row_store. simpl table_store.
      rewrite list_lookup_middle by reflexivity. simpl.
      rewrite E3. apply refs_resolve.
Qed.

Lemma feed_tables tabs (self : parser) :
  between self ->
  tables_of (feed to_int self (flat_map render_table tabs))
  = tables_of self ++ List.filter nonempty (map table_rows tabs).
Proof.
  revert self. induction tabs as [|t tabs IH]; intros self Hs.
  - simpl. now rewrite app_nil_r.
  - cbn [flat_map].
    rewrite feed_app.
    destruct (feed_table t self Hs) as [Hs' E].
    rewrite (IH _ Hs'), E, <- app_assoc. f_equal.
    simpl. destruct (nonempty (table_rows t)); reflexivity.
Qed.

Lemma between_new : between new.
Proof.
  split; [reflexivity|]. split; [reflexivity|]. split; [reflexivity|].
  split; [constructor|].
  intros [|t] rows; simpl; [|destruct t; discriminate].
  intros [= <-]. constructor.
Qed.

End Handlers.

(** Whatever events the tokenizer produces, well nested or not, the tables
    that [parse_html_tables] returns contain no empty table and no empty
    row; and when feeding raises it returns no table. *)
Theorem parse_html_tables_no_blank `{Runtime} (to_int : option string -> option Z)
    (tokens : pyval -> option (list event)) (html_content : pyval) :
  no_blank (parse_html_tables to_int tokens html_content) /\
  (tokens html_content = None -> parse_html_tables to_int tokens html_content = []).
Proof.
  unfold parse_html_tables. destruct (tokens html_content) as [events|].
  - split; [|discriminate]. apply sane_no_blank, sane_feed, sane_new.
  - split; [constructor|reflexivity].
Qed.

(** When the content is a sequence of well-nested tables, rows and cells,
    [parse_html_tables] returns those tables: each cell is its stripped
    text, repeated as often as its [colspan] says (not at all for a
    [colspan] of zero or less), rows that are left without a cell are
    dropped, and so are tables that are left without a row. *)
Theorem well_nested_tables_parse `{Runtime} (to_int : option string -> option Z)
    (tokens : pyval -> option (list event)) (html_content : pyval)
    (tabs : list (list (list (list (string * option string) * string)))) :
  tokens html_content = Some (flat_map render_table tabs) ->
  parse_html_tables to_int tokens html_content
  = List.filter nonempty (map (table_rows to_int) tabs).
Proof.
  intros E. unfold parse_html_tables. rewrite E.
  rewrite (feed_tables to_int tabs new (between_new)). reflexivity.
Qed.

Example sample_table_parses :
  @parse_html_tables Sample.ascii_runtime sample_int sample_tokens (PStr "<table>")
  = [[["a"; "b"; "b"]]].
Proof. vm_compute. reflexivity. Qed.

Lemma well_nested_tables_parse_witness :
  @parse_html_tables Sample.ascii_runtime sample_int sample_tokens (PStr "<table>")
  = List.filter nonempty (map (@table_rows Sample.ascii_runtime sample_int) [sample_table]).
Proof.
  apply (@well_nested_tables_parse Sample.ascii_runtime sample_int sample_tokens
           (PStr "<table>") [sample_table]).
  reflexivity.
Defined.

End HtmlFacts.

(* ===================================================================== *)
(** * Facts about [ConfigManager] *)
(* ===================================================================== *)
Module ConfigFacts.
Import Py Eff Config.

(** The settings a model is given: [{"url": url, "token": token}]. *)
Definition model_entry (url token : string) : pyval :=
  PDict (<["url" := PStr url]> {["token" := PStr token]}).

(** A manager started again over the file this one leaves. *)
Definition restarted (self : ConfigManager) : ConfigManager :=
  init (disk self) (writable self) (load_error self) (save_error self).

Lemma data_save (self : ConfigManager) : data (_save self) = data self.
Proof. unfold _save. now destruct (writable self). Qed.

Lemma writable_save (self : ConfigManager) : writable (_save self) = writable self.
Proof. unfold _save. now destruct (writable self). Qed.

Lemma disk_save (self : ConfigManager) :
  disk (_save self) = if writable self then Some (Some (data self)) else disk self.
Proof. unfold _save. now destruct (writable self). Qed.

Lemma printed_save (self : ConfigManager) :
  printed (_save self) =
  if writable self then printed self
  else printed self ++ ["Error saving config: " +:+ save_error self].
Proof. unfold _save. now destruct (writable self). Qed.

(** What [set_model_config] leaves in [self.data] when it is a dict whose
    ["models"], if any, is a dict. *)
Definition with_model (d : gmap string pyval) (name url token : string)
  : gmap string pyval :=
  match d !! "models" with
  | Some (PDict ms) => <["models" := PDict (<[name := model_entry url token]> ms)]> d
  | _ => <["models" := PDict {[name := model_entry url token]}]> d
  end.

Lemma set_model_config_data (self : ConfigManager) (d : gmap string pyval)
    (name url token : string) :
  data self = PDict d ->
  (d !! "models" = None \/ exists ms, d !! "models" = Some (PDict ms)) ->
  set_model_config self name url token
  = Ok (_save (with_data self (PDict (with_model d name url token)))).
Proof.
  intros E [H | [ms H]]; unfold set_model_config, with_model; rewrite E; simpl;
    unfold has_key; rewrite H; simpl.
  - rewrite lookup_insert_eq. simpl. rewrite insert_insert_eq.
    unfold model_entry. rewrite (insert_empty (M := gmap string) name). reflexivity.
  - rewrite H. reflexivity.
Qed.

Lemma with_model_lookup (d : gmap string pyval) (name url token : string) :
  (d !! "models" = None \/ exists ms, d !! "models" = Some (PDict ms)) ->
  exists ms', with_model d name url token !! "models" = Some (PDict ms') /\
    ms' !! name = Some (model_entry url token) /\
    (forall other, other <> name ->
       ms' !! other = match d !! "models" with
                      | Some (PDict ms) => ms !! other
                      | _ => None
                      end).
Proof.
  intros [H | [ms H]]; unfold with_model; rewrite H.
  - eexists. split; [apply lookup_insert_eq|]. split; [apply lookup_singleton_eq|].
    intros other Hne. now apply lookup_singleton_ne.
  - eexists. split; [apply lookup_insert_eq|]. split; [apply lookup_insert_eq|].
    intros other Hne. now apply lookup_insert_ne.
Qed.

Lemma with_model_frame (d : gmap string pyval) (name url token key : string) :
  key <> "models" -> with_model d name url token !! key = d !! key.
Proof.
  intros Hne. unfold with_model.
  destruct (d !! "models") as [[| | | | | |]|]; now apply lookup_insert_ne.
Qed.

(** Saving a model's settings and reading them back: when the configuration
    is a dict whose ["models"] entry is absent or a dict,
    [set_model_config] returns, [get_model_config] then gives the model
    exactly the URL and token set, every other model what it had before,
    and [get] every key but ["models"] what it had before. *)
Theorem set_model_config_round_trip (self : ConfigManager) (d : gmap string pyval)
    (name url token : string) :
  data self = PDict d ->
  (d !! "models" = None \/ exists ms, d !! "models" = Some (PDict ms)) ->
  exists self',
    set_model_config self name url token = Ok self' /\
    get_model_config self' (Some name) = Ok (model_entry url token) /\
    (forall other, other <> name ->
       get_model_config self' (Some other) = get_model_config self (Some other)) /\
    (forall key default, key <> "models" -> get self' key default = get self key default).
Proof.
  intros E Hm. eexists. split; [exact (set_model_config_data self d name url token E Hm)|].
  destruct (with_model_lookup d name url token Hm) as (ms' & L & Hn & Ho).
  unfold get_model_config, get. rewrite data_save. simpl. rewrite E. simpl.
  unfold default_or. rewrite L. simpl. unfold default_or.
  split; [now rewrite Hn|]. split.
  - intros other Hne. rewrite (Ho other Hne).
    destruct Hm as [H | [ms H]]; rewrite H; simpl; unfold default_or; [|reflexivity].
    now rewrite lookup_empty.
  - intros key default Hne. now rewrite with_model_frame.
Qed.

Definition fresh : ConfigManager := init None true "" "".

Lemma set_model_config_round_trip_witness :
  exists self',
    set_model_config fresh "PP-OCRv5" "http://localhost:8080/ocr" "secret" = Ok self' /\
    get_model_config self' (Some "PP-OCRv5")
    = Ok (model_entry "http://localhost:8080/ocr" "secret") /\
    (forall other, other <> "PP-OCRv5" ->
       get_model_config self' (Some other) = get_model_config fresh (Some other)) /\
    (forall key default, key <> "models" -> get self' key default = get fresh key default).
Proof.
  refine (set_model_config_round_trip fresh _ "PP-OCRv5" "http://localhost:8080/ocr"
            "secret" eq_refl _).
  right. eexists. apply lookup_insert_eq.
Defined.

(** Settings survive a restart: when the file can be written, a manager
    started over the file left by [set] or by [set_model_config] holds the
    configuration the call left in memory, and the call prints nothing. *)
Theorem saved_settings_are_reloaded (self self' : ConfigManager) :
  writable self = true ->
  (exists key value, set self key value = Ok self') \/
  (exists name url token, set_model_config self name url token = Ok self') ->
  data (restarted self') = data self' /\ printed self' = printed self.
Proof.
  intros W H.
  assert (exists d, self' = _save (with_data self d)) as [d ->].
  { destruct H as [(key & value & H) | (name & url & token & H)].
    - unfold set in H. destruct (py_setitem (data self) key value); [|discriminate].
      injection H as <-. now eexists.
    - unfold set_model_config in H.
      destruct (py_in "models" (data self)) as [has|]; [|discriminate]. simpl in H.
      destruct (if has then _ else _) as [d1|]; [|discriminate]. simpl in H.
      destruct (py_getitem d1 "models") as [ms|]; [|discriminate]. simpl in H.
      destruct (py_setitem ms name _) as [ms'|]; [|discriminate]. simpl in H.
      destruct (py_setitem d1 "models" ms') as [d2|]; [|discriminate]. simpl in H.
      injection H as <-. now eexists. }
  unfold restarted, init, _load. rewrite printed_save, disk_save, data_save. simpl.
  now rewrite W.
Qed.

Lemma saved_settings_are_reloaded_witness :
  data (restarted (_save (with_data fresh (PDict (<["language" := PStr "en_US"]> ∅)))))
  = data (_save (with_data fresh (PDict (<["language" := PStr "en_US"]> ∅)))) /\
  printed (_save (with_data fresh (PDict (<["language" := PStr "en_US"]> ∅))))
  = printed (with_data fresh (PDict ∅)).
Proof.
  refine (saved_settings_are_reloaded (with_data fresh (PDict ∅)) _ eq_refl _).
  left. exists "language", (PStr "en_US"). reflexivity.
Defined.

(** A failed save is silent: when the file cannot be written and the
    configuration is a dict, [set] still returns and [get] gives the new
    value, but the file is left as it was and the only trace is the
    message printed. *)
Theorem unsaved_set_is_silent (self : ConfigManager) (d : gmap string pyval)
    (key : string) (value default : pyval) :
  data self = PDict d ->
  writable self = false ->
  exists self',
    set self key value = Ok self' /\
    get self' key default = Ok value /\
    disk self' = disk self /\
    printed self' = printed self ++ ["Error saving config: " +:+ save_error self].
Proof.
  intros E W. eexists. split.
  - unfold set. rewrite E. reflexivity.
  - unfold get. rewrite data_save, disk_save, printed_save. simpl. rewrite W.
    unfold default_or. now rewrite lookup_insert_eq.
Qed.

Definition read_only : ConfigManager :=
  init (Some (Some (PDict ∅))) false "" "Permission denied".

Lemma unsaved_set_is_silent_witness :
  exists self',
    set read_only "language" (PStr "en_US") = Ok self' /\
    get self' "language" PNone = Ok (PStr "en_US") /\
    disk self' = disk read_only /\
    printed self' = printed read_only ++ ["Error saving config: " +:+ save_error read_only].
Proof.
  exact (unsaved_set_is_silent read_only ∅ "language" (PStr "en_US") PNone eq_refl eq_refl).
Defined.

(** [ocr_file] reads the configuration through the manager: in a world
    whose configuration is the data of [self], its lookups are [get] and
    [get_model_config] of [self]. *)
Lemma client_lookups (w : World) (self : ConfigManager) (name : string) :
  Eff.config w = data self ->
  Ocr.current_model w None = get self "current_model" PNone /\
  Ocr.get_model_config w (PStr name) = get_model_config self (Some name) /\
  Ocr.get_model_config w PNone = get_model_config self None.
Proof.
  intros E. unfold Ocr.current_model, Ocr.get_model_config, get, get_model_config.
  rewrite E. cbn [Ocr.opt_truthy].
  destruct (py_get (data self) "models" (PDict ∅)) as [[| | | | | |]|];
    repeat split; reflexivity.
Qed.

End ConfigFacts.

(* ===================================================================== *)
(** * Facts about the task tables of the main window *)
(* ===================================================================== *)
Module WindowFacts.
Import Py Eff Window.

(** ** Rows and cells *)

Lemma row_at_nat (t : Table) (n : nat) : row_at t (Z.of_nat n) = t !! n.
Proof.
  unfold row_at. destruct (Z.ltb_spec (Z.of_nat n) 0); [lia|].
  now rewrite Nat2Z.id.
Qed.

Lemma change_row_nat (f : Row -> Row) (n : nat) (t : Table) :
  change_row f (Z.of_nat n) t = alter f n t.
Proof.
  unfold change_row. destruct (Z.ltb_spec (Z.of_nat n) 0); [lia|].
  now rewrite Nat2Z.id.
Qed.

Lemma change_row_middle (f : Row -> Row) (pre : Table) (row : Row) (t : Table) :
  change_row f (Z.of_nat (length pre)) (pre ++ row :: t) = pre ++ f row :: t.
Proof.
  rewrite change_row_nat.
  induction pre as [|x pre IH]; [reflexivity|]. simpl. now f_equal.
Qed.

Lemma row_at_middle (pre : Table) (row : Row) (t : Table) :
  row_at (pre ++ row :: t) (Z.of_nat (length pre)) = Some row.
Proof. rewrite row_at_nat. apply list_lookup_middle. reflexivity. Qed.

Lemma shift_row (row : Row) (pre t : Table) : pre ++ row :: t = (pre ++ [row]) ++ t.
Proof. now rewrite <- app_assoc. Qed.

Lemma item_result_middle (pre : Table) (row : Row) (t : Table) :
  item (pre ++ row :: t) (Z.of_nat (length pre)) 2 = result_item row.
Proof. unfold item. now rewrite row_at_middle. Qed.

Lemma item_name_middle (pre : Table) (row : Row) (t : Table) :
  item (pre ++ row :: t) (Z.of_nat (length pre)) 0 = name_item row.
Proof. unfold item. now rewrite row_at_middle. Qed.

Lemma cellWidget_middle (pre : Table) (row : Row) (t : Table) :
  cellWidget (pre ++ row :: t) (Z.of_nat (length pre)) 1 = pbar row.
Proof. unfold cellWidget. now rewrite row_at_middle. Qed.

Lemma set_bar_middle (pre : Table) (row : Row) (t : Table) (v : Z) :
  set_bar (pre ++ row :: t) (Z.of_nat (length pre)) v
  = pre ++ {| name_item := name_item row; pbar := setValue v <$> pbar row;
              result_item := result_item row |} :: t.
Proof. unfold set_bar. now rewrite change_row_middle. Qed.

Lemma setItem_result_middle (pre : Table) (row : Row) (t : Table) (it : QTableWidgetItem) :
  setItem (pre ++ row :: t) (Z.of_nat (length pre)) 2 it
  = pre ++ {| name_item := name_item row; pbar := pbar row; result_item := Some it |} :: t.
Proof. unfold setItem. now rewrite change_row_middle. Qed.

Lemma range_rows (pre t : Table) (row : Row) :
  map Z.of_nat (seq (length pre) (length (row :: t)))
  = Z.of_nat (length pre)
    :: map Z.of_nat (seq (length (pre ++ [row])) (length t)).
Proof. simpl. rewrite length_app. simpl. now rewrite Nat.add_1_r. Qed.

Lemma range_rowCount (t : Table) : range (rowCount t) = map Z.of_nat (seq 0 (length t)).
Proof. unfold range, rowCount. now rewrite Nat2Z.id. Qed.

(** ** [clear_completed_rows] *)

(** The row shows a result that counts as completed. *)
Definition completed (row : Row) : bool :=
  match result_item row with
  | Some it => any_in completed_statuses (item_text it)
  | None => false
  end.

(** The rows to remove, counted from the top of the table. *)
Fixpoint marked (t : Table) : list nat :=
  match t with
  | [] => []
  | row :: t => (if completed row then [0] else []) ++ map S (marked t)
  end.

Lemma item_cons (row : Row) (t : Table) (n : nat) (column : Z) :
  item (row :: t) (Z.of_nat (S n)) column = item t (Z.of_nat n) column.
Proof. unfold item. now rewrite !row_at_nat. Qed.

Lemma succ_of_nat (l : list nat) :
  map Z.succ (map Z.of_nat l) = map Z.of_nat (map S l).
Proof.
  induction l as [|n l IH]; [reflexivity|]. cbn [map]. rewrite IH.
  now rewrite Nat2Z.inj_succ.
Qed.

Lemma filter_rows (row : Row) (t : Table) (l : list nat) :
  List.filter (fun r => match item (row :: t) r 2 with
                        | Some it => any_in completed_statuses (item_text it)
                        | None => false
                        end) (map Z.of_nat (map S l))
  = map Z.succ
      (List.filter (fun r => match item t r 2 with
                             | Some it => any_in completed_statuses (item_text it)
                             | None => false
                             end) (map Z.of_nat l)).
Proof.
  induction l as [|n l IH]; [reflexivity|].
  cbn [map List.filter]. rewrite item_cons, IH.
  destruct (item t (Z.of_nat n) 2) as [it|]; [|reflexivity].
  destruct (any_in _ _); [|reflexivity]. cbn [map]. now rewrite Nat2Z.inj_succ.
Qed.

Lemma rows_to_remove_marked (t : Table) : rows_to_remove t = map Z.of_nat (marked t).
Proof.
  unfold rows_to_remove. rewrite range_rowCount.
  induction t as [|row t IH]; [reflexivity|].
  cbn [length seq map List.filter marked].
  change (Z.of_nat 0) with 0%Z.
  replace (item (row :: t) 0 2) with (result_item row) by reflexivity.
  fold (completed row).
  rewrite <- seq_shift, filter_rows, IH, map_app, succ_of_nat.
  now destruct (completed row).
Qed.

Lemma remove_below (row : Row) (rs : list nat) (t : Table) :
  fold_right (fun r acc => removeRow acc r) (row :: t) (map Z.of_nat (map S rs))
  = row :: fold_right (fun r acc => removeRow acc r) t (map Z.of_nat rs).
Proof.
  induction rs as [|r rs IH]; [reflexivity|].
  cbn [map fold_right]. rewrite IH. unfold removeRow.
  destruct (Z.ltb_spec (Z.of_nat (S r)) 0); [lia|].
  destruct (Z.ltb_spec (Z.of_nat r) 0); [lia|].
  now rewrite !Nat2Z.id.
Qed.

Lemma remove_in_reverse (rs : list Z) (t : Table) :
  fold_left removeRow (rev rs) t = fold_right (fun r acc => removeRow acc r) t rs.
Proof.
  induction rs as [|r rs IH]; [reflexivity|].
  cbn [rev fold_right]. now rewrite fold_left_app, IH.
Qed.

Lemma clear_completed_rows_rest (t : Table) :
  clear_completed_rows t = List.filter (fun row => negb (completed row)) t.
Proof.
  unfold clear_completed_rows.
  rewrite remove_in_reverse, rows_to_remove_marked.
  induction t as [|row t IH]; [reflexivity|].
  cbn [marked List.filter]. rewrite map_app, fold_right_app, remove_below, IH.
  now destruct (completed row).
Qed.

(** [clear_completed_rows] removes exactly the completed rows: what is
    left is the rows whose result shows none of the completed statuses, in
    their order. *)
Theorem clear_completed_rows_keeps_the_rest (t : Table) :
  clear_completed_rows t = List.filter (fun row => negb (completed row)) t.
Proof. exact (clear_completed_rows_rest t). Qed.

(** ** [on_batch_stopped] *)

(** The row as [on_batch_stopped] leaves it. *)
Definition settle (row : Row) : Row :=
  match result_item row with
  | Some it =>
      if one_of unsettled_texts (item_text it)
      then {| name_item := name_item row; pbar := pbar row;
              result_item := Some (new_item "用户已终止任务") |}
      else row
  | None => row
  end.

(** The row shows a processing text. *)
Definition processing_row (row : Row) : bool :=
  match result_item row with
  | Some it => one_of processing_texts (item_text it)
  | None => false
  end.

Lemma mark_from (t pre : Table) :
  fold_left (fun t row =>
    match item t row 2 with
    | Some result_item =>
        if one_of unsettled_texts (item_text result_item)
        then setItem t row 2 (new_item "用户已终止任务")
        else t
    | None => t
    end) (map Z.of_nat (seq (length pre) (length t))) (pre ++ t)
  = pre ++ map settle t.
Proof.
  revert pre. induction t as [|row t IH]; intros pre; [reflexivity|].
  rewrite range_rows. cbn [fold_left]. rewrite item_result_middle.
  cbn [map]. unfold settle at 1.
  destruct (result_item row) as [it|] eqn:R.
  - destruct (one_of unsettled_texts (item_text it)).
    + rewrite setItem_result_middle.
      match goal with
      | |- fold_left _ _ (pre ++ ?r :: t) = _ =>
          rewrite (shift_row r pre t), (shift_row r pre (map settle t));
          replace (length (pre ++ [row])) with (length (pre ++ [r]))
            by (now rewrite !length_app)
      end.
      apply IH.
    + rewrite (shift_row row pre t), (shift_row row pre (map settle t)). apply IH.
  - rewrite (shift_row row pre t), (shift_row row pre (map settle t)). apply IH.
Qed.

Lemma mark_unsettled_settles (t : Table) : mark_unsettled t = map settle t.
Proof. unfold mark_unsettled. rewrite range_rowCount. exact (mark_from t []). Qed.

Lemma shows_from (t pre : Table) :
  existsb (fun row =>
    match item (pre ++ t) row 2 with
    | Some result_item => one_of processing_texts (item_text result_item)
    | None => false
    end) (map Z.of_nat (seq (length pre) (length t)))
  = existsb processing_row t.
Proof.
  revert pre. induction t as [|row t IH]; intros pre; [reflexivity|].
  rewrite range_rows. cbn [existsb]. rewrite item_result_middle.
  rewrite (shift_row row pre t), IH. reflexivity.
Qed.

Lemma shows_processing_rows (t : Table) : shows_processing t = existsb processing_row t.
Proof. unfold shows_processing. rewrite range_rowCount. exact (shows_from t []). Qed.

Lemma settled_not_processing (row : Row) : processing_row (settle row) = false.
Proof.
  unfold settle, processing_row.
  destruct (result_item row) as [it|] eqn:R; [|now rewrite R].
  destruct (one_of unsettled_texts (item_text it)) eqn:U; [reflexivity|].
  rewrite R. unfold one_of, unsettled_texts in U. unfold one_of, processing_texts.
  cbn [existsb] in *.
  apply orb_false_elim in U as [U1 U]. apply orb_false_elim in U as [_ U].
  apply orb_false_elim in U as [U3 _]. now rewrite U1, U3.
Qed.

Lemma settled_shows_no_processing (t : Table) :
  shows_processing (map settle t) = false.
Proof.
  rewrite shows_processing_rows.
  induction t as [|row t IH]; [reflexivity|].
  cbn [map existsb]. now rewrite settled_not_processing, IH.
Qed.

(** ** Complete rows *)







Section Handlers.
Variable i18n_get : string -> string.
Variable int : string -> result Z.
Variable batch_dir : string -> string.

(** ** What [start_batch_processing] collects *)

Definition result_text (row : Row) : string :=
  match result_item row with
  | Some it => item_text it
  | None => ""
  end.

(** The row shows a result that counts as a success. *)
Definition done (row : Row) : bool := any_in success_patterns (result_text row).

(** The file a row stands for. *)
Definition file_of (row : Row) : string :=
  match name_item row with
  | Some it => if Ocr.opt_truthy (user_role it) then Ocr.opt_str (user_role it)
               else item_text it
  | None => ""
  end.

(** A row the loop can handle: it is done, or it has its name and its
    progress bar. *)
Definition ready (row : Row) : Prop :=
  done row = true \/ (is_Some (name_item row) /\ is_Some (pbar row)).

(** The row as the loop leaves it. *)
Definition reset (row : Row) : Row :=
  if done row then row
  else {| name_item := name_item row; pbar := setValue 0 <$> pbar row;
          result_item := Some (new_item (i18n_get "status_pending")) |}.

(** The unfinished rows from row [k] on: file and row number. *)
Fixpoint pending (k : Z) (t : Table) : list (string * Z) :=
  match t with
  | [] => []
  | row :: t => (if done row then [] else [(file_of row, k)]) ++ pending (k + 1) t
  end.

Lemma collect_from (t pre : Table) (files : list string) (row_indices : list Z) :
  Forall ready t ->
  collect i18n_get (map Z.of_nat (seq (length pre) (length t))) files row_indices
    (pre ++ t)
  = (Ok (files ++ map fst (pending (Z.of_nat (length pre)) t),
         row_indices ++ map snd (pending (Z.of_nat (length pre)) t)),
     pre ++ map reset t).
Proof.
  revert pre files row_indices.
  induction t as [|row t IH]; intros pre files row_indices Hr.
  - simpl. now rewrite !app_nil_r.
  - apply Forall_cons in Hr as [Hrow Hr].
    assert (Z.of_nat (length (pre ++ [row])) = (Z.of_nat (length pre) + 1)%Z) as Hlen
      by (rewrite length_app; simpl; lia).
    rewrite range_rows. cbn [collect].
    rewrite item_result_middle, item_name_middle, cellWidget_middle,
      set_bar_middle, setItem_result_middle.
    change (any_in success_patterns _) with (done row).
    cbn [pending map]. unfold reset at 1.
    destruct (done row) eqn:D.
    + rewrite (shift_row row pre t), (shift_row row pre (map reset t)).
      rewrite (IH _ _ _ Hr), Hlen. reflexivity.
    + destruct Hrow as [Hd | [[it Hn] [bar Hb]]]; [congruence|].
      rewrite Hn, Hb. cbn [name_item pbar result_item fmap option_fmap option_map].
      match goal with
      | |- collect _ _ _ _ (pre ++ ?r :: t) = (_, pre ++ ?r' :: _) =>
          rewrite (shift_row r pre t), (shift_row r' pre (map reset t));
          replace (length (pre ++ [row])) with (length (pre ++ [r]))
            by (now rewrite !length_app)
      end.
      rewrite (IH _ _ _ Hr). rewrite length_app. cbn [length].
      rewrite Nat2Z.inj_add. cbn [app map fst snd].
      unfold file_of. rewrite Hn. rewrite <- !app_assoc. reflexivity.
Qed.

Lemma collect_all (t : Table) :
  Forall ready t ->
  collect i18n_get (range (rowCount t)) [] [] t
  = (Ok (map fst (pending 0 t), map snd (pending 0 t)), map reset t).
Proof. intros Hr. rewrite range_rowCount. exact (collect_from t [] [] [] Hr). Qed.



Lemma pending_nil (t : Table) (k : Z) : forallb done t = true -> pending k t = [].
Proof.
  revert k. induction t as [|row t IH]; intros k H; [reflexivity|].
  simpl in H. apply andb_prop in H as [D H]. cbn [pending]. rewrite D.
  now apply IH.
Qed.


Lemma reset_done (t : Table) : forallb done t = true -> map reset t = t.
Proof.
  induction t as [|row t IH]; intros H; [reflexivity|].
  simpl in H. apply andb_prop in H as [D H]. simpl. unfold reset at 1.
  rewrite D. now rewrite IH.
Qed.

Lemma done_ready (t : Table) : forallb done t = true -> Forall ready t.
Proof.
  induction t as [|row t IH]; intros H; [constructor|].
  simpl in H. apply andb_prop in H as [D H]. constructor; [now left | now apply IH].
Qed.

(** The tab [start_batch_processing] works on. *)
Definition target (self : MainWindow) : tab_name :=
  if (tabs_currentIndex self =? 0)%Z then Images else Docs.

Definition other (n : tab_name) : tab_name :=
  match n with Images => Docs | Docs => Images end.

(** The worker the processor holds, if any. *)
Definition current (s : Coordinator.State) : option Worker.BatchWorker :=
  match Coordinator.current_worker s with
  | Some r => Coordinator.heap s !! r
  | None => None
  end.



Lemma set_table_same (self : MainWindow) (n : tab_name) :
  set_table self n (table_of self n) = self.
Proof.
  destruct self as [idx [ti ? ? ? ?] [td ? ? ? ?] ? ? ? ? ? ? ? ?]. now destruct n.
Qed.


Definition start := start_batch_processing i18n_get int batch_dir.

Lemma nothing_to_do (self : MainWindow) (workers : Z) :
  int (combo_workers (tab_of self (target self))) = Ok workers ->
  forallb done (table_of self (target self)) = true ->
  start self
  = (Ok tt,
     show self (if (rowCount (table_of self (target self)) =? 0)%Z
                then warning (i18n_get "msg_error") (i18n_get "msg_no_files")
                else information "SmartOCR" "所有任务已完成，无需重新执行。")).
Proof.
  intros Hint Hdone.
  unfold start, start_batch_processing.
  change (if (tabs_currentIndex self =? 0)%Z then Images else Docs) with (target self).
  rewrite Hint.
  destruct (rowCount (table_of self (target self)) =? 0)%Z eqn:E; [reflexivity|].
  rewrite (collect_all _ (done_ready _ Hdone)).
  rewrite (pending_nil _ _ Hdone), (reset_done _ Hdone). cbn [map].
  now rewrite set_table_same.
Qed.

(** Nothing to do: when the table of the current tab is empty, or every
    row of it already shows a success, [start_batch_processing] returns
    after showing one message box; it creates no worker, connects nothing,
    and leaves the tables and the buttons as they were. *)
Theorem nothing_to_do_starts_nothing (self : MainWindow) (workers : Z) :
  int (combo_workers (tab_of self (target self))) = Ok workers ->
  forallb done (table_of self (target self)) = true ->
  start self
  = (Ok tt,
     show self (if (rowCount (table_of self (target self)) =? 0)%Z
                then warning (i18n_get "msg_error") (i18n_get "msg_no_files")
                else information "SmartOCR" "所有任务已完成，无需重新执行。")).
Proof. exact (nothing_to_do self workers). Qed.





(** ** [on_batch_stopped] on the window *)

(** After [on_batch_stopped], every row of the current table that showed
    a processing or pending text shows the stopped text and everything
    else is as it was; no row of that table shows a processing text any
    more, so [_has_processing_items] answers for the other table alone. *)
Theorem stopped_batch_shows_no_processing (self : MainWindow) (n : tab_name) :
  current_table self = Some n ->
  table_of (on_batch_stopped i18n_get self) n = map settle (table_of self n) /\
  table_of (on_batch_stopped i18n_get self) (other n) = table_of self (other n) /\
  _has_processing_items (on_batch_stopped i18n_get self)
  = shows_processing (table_of self (other n)).
Proof.
  intros Hc. unfold on_batch_stopped, _has_processing_items. rewrite Hc.
  rewrite mark_unsettled_settles.
  destruct n; cbn; rewrite settled_shows_no_processing;
    [|rewrite orb_false_r]; repeat split.
Qed.

(** ** [add_files_to_table] *)











(** ** The tables stay complete *)

(** What happens to a window: files are added to a table, its completed
    rows are cleared, a batch is started or stopped, or a signal of a
    worker arrives. *)
Inductive call : Type :=
| AddFiles (n : tab_name) (files : list string)
| ClearCompleted (n : tab_name)
| StartBatch
| StopBatch
| Signal (sg : signal).







End Handlers.

(** ** A sample window *)

Definition sample_i18n (key : string) : string :=
  if String.eqb key "status_pending" then "待处理" else key.

Definition sample_int (s : string) : result Z :=
  if String.eqb s "5" then Ok 5%Z
  else Raise (Exn ValueError "invalid literal for int() with base 10").

Definition sample_batch_dir (mode : string) : string := "output/" +:+ mode.

Definition exported_row : Row :=
  {| name_item := Some {| item_text := "a.png"; user_role := Some "a.png" |};
     pbar := Some {| minimum := 0; maximum := 100; value := 100 |};
     result_item := Some (new_item "已导出: a.txt") |}.

Definition unfinished_row : Row :=
  {| name_item := Some {| item_text := "b.png"; user_role := Some "b.png" |};
     pbar := Some {| minimum := 0; maximum := 100; value := 100 |};
     result_item := Some (new_item "处理中...") |}.

Definition sample_tab (t : Table) : Tab :=
  {| table := t; combo_model := "PP-OCRv5"; path := "out"; combo_format := "TXT";
     combo_workers := "5" |}.

Definition sample_window (t : Table) (shown : option tab_name) : MainWindow :=
  {| tabs_currentIndex := 0; images := sample_tab t; docs := sample_tab [];
     btn_start_enabled := true; btn_stop_enabled := false; btn_start_text := "btn_start";
     current_table := shown; current_row_indices := None; boxes := [];
     batch_processor := Coordinator.new; connected := [] |}.

Lemma nothing_to_do_starts_nothing_witness :
  start sample_i18n sample_int sample_batch_dir (sample_window [exported_row] None)
  = (Ok tt,
     show (sample_window [exported_row] None)
       (information "SmartOCR" "所有任务已完成，无需重新执行。")).
Proof.
  apply (nothing_to_do_starts_nothing sample_i18n sample_int sample_batch_dir
           (sample_window [exported_row] None) 5); vm_compute; reflexivity.
Defined.



Lemma stopped_batch_shows_no_processing_witness :
  table_of (on_batch_stopped sample_i18n
              (sample_window [exported_row; unfinished_row] (Some Images))) Images
  = map settle [exported_row; unfinished_row] /\
  table_of (on_batch_stopped sample_i18n
              (sample_window [exported_row; unfinished_row] (Some Images))) Docs = [] /\
  _has_processing_items
    (on_batch_stopped sample_i18n (sample_window [exported_row; unfinished_row] (Some Images)))
  = shows_processing [].
Proof.
  exact (stopped_batch_shows_no_processing sample_i18n
           (sample_window [exported_row; unfinished_row] (Some Images)) Images eq_refl).
Defined.



End WindowFacts.

(* ===================================================================== *)
(** * Every item of a job is submitted or marked *)
(* ===================================================================== *)
Module TallyFacts.
Import Py Eff Worker Run EffFacts RunFacts.




Section Loops.
Variable w : World.















End Loops.



(** The run of the witness: one item submitted, the other marked. *)
Example stop_between_submissions :
  submitted (snd (run 41 (Sample.calm (Some 5) Sample.answering) Sample.two_images [])) = [0] /\
  signals (snd (run 41 (Sample.calm (Some 5) Sample.answering) Sample.two_images []))
  = [StatusUpdate 1 "已终止"; ResultUpdate 1 "用户已终止任务"; Stopped].
Proof. vm_compute. repeat split. Qed.

End TallyFacts.
